(** * fast-server: a shallow embedding of the fserv core

    The development follows the layout of [src/fserv]:
    - [AtomicStack]   atomic_stack.hpp  (free list threaded through the slab)
    - [TimeoutTimer]  timeout_timer.hpp (idle-timeout reaper)
    - [EpollWaiter]   epoll.hpp         (self-pipe shutdown daisy chain)
    - [BasicClient]   basic_client.hpp  (read / read_oob / write)
    - [ClientPool]    client_pool.hpp   (add_client, terminate, trigger)
    - [ServerPool]    server_pool.hpp   (listener trigger, accept loop)

    Pointers into the slab are slot indices; [nullptr] is [None].  Every
    answer of the operating system (recv, send, accept, epoll_ctl, the
    steady clock) is an explicit argument of the function that asks for it,
    and every system call and every packet-sink callback the code issues is
    appended to a log carried by the state. *)

From Stdlib Require Import ZArith Lia.
From stdpp Require Import gmap list.
From Equations Require Import Equations.

Local Open Scope Z_scope.

(** ** Constants of the platform headers *)

(** <sys/epoll.h> (Linux). *)
Definition EPOLLIN : Z := 0x001.
Definition EPOLLPRI : Z := 0x002.
Definition EPOLLERR : Z := 0x008.
Definition EPOLLHUP : Z := 0x010.
Definition EPOLLRDHUP : Z := 0x2000.
Definition EPOLLEXCLUSIVE : Z := 0x10000000.
Definition EPOLLONESHOT : Z := 0x40000000.
Definition EPOLLET : Z := 0x80000000.

(** <errno.h> (Linux). *)
Definition EAGAIN : Z := 11.

(** Conversion of a wider integer to a C [int] (two's complement, 32 bits). *)
Definition to_int (z : Z) : Z := (z + 2 ^ 31) mod 2 ^ 32 - 2 ^ 31.

(** A flag test [flags & bit] used as a C condition. *)
Definition has_flag (flags bit : Z) : bool := negb (Z.land flags bit =? 0).

(** ** atomic_stack.hpp *)

Module AtomicStack.

(** [StackNode<ValueType>]: the user's connection state extended with the
    slot identifier, the bound descriptor and the free-list link. *)
Record StackNode (ValueType : Type) : Type := mkStackNode {
  value : ValueType;
  uuid : Z;
  sfd : Z;
  ptr_to_next : option nat
}.
Arguments mkStackNode {ValueType} _ _ _ _.
Arguments value {ValueType} _.
Arguments uuid {ValueType} _.
Arguments sfd {ValueType} _.
Arguments ptr_to_next {ValueType} _.

(** [StdMemory<v_t>] of std_memory.hpp: the slab and its capacity. *)
Record StdMemory (v_t : Type) : Type := mkStdMemory {
  ptr_to_mem_slab : option (list v_t);
  capacity : Z
}.
Arguments mkStdMemory {v_t} _ _.
Arguments ptr_to_mem_slab {v_t} _.
Arguments capacity {v_t} _.

Definition is_allocated {v_t} (m : StdMemory v_t) : bool :=
  match ptr_to_mem_slab m with Some _ => true | None => false end.

Section Stack.
Context {ValueType : Type}.
(** The default-constructed [ValueType] that placement-new builds. *)
Variable default_value : ValueType.

(** The stack is the slab it is threaded through and the head pointer. *)
Definition stack : Type := (list (StackNode ValueType) * option nat)%type.

Definition set_next (next : option nat) (n : StackNode ValueType) :=
  mkStackNode (value n) (uuid n) (sfd n) next.

Definition set_sfd (fd : Z) (n : StackNode ValueType) :=
  mkStackNode (value n) (uuid n) fd (ptr_to_next n).

Definition set_value (v : ValueType) (n : StackNode ValueType) :=
  mkStackNode v (uuid n) (sfd n) (ptr_to_next n).

(** One pass of the [for] loop of [init]: cell [i] is constructed with
    its link on cell [i - 1], gets [uuid = i] and becomes the head. *)
Definition init_cell (st : stack) (i : nat) : stack :=
  (<[i := mkStackNode default_value (Z.of_nat i) 0 (Some (i - 1)%nat)]> (fst st),
   Some i).

(** [init]: nothing happens on an unallocated slab; otherwise cell 0 is
    the bottom (null link, [uuid] left at its default 0) and the loop
    [for (i = 0; ++i < capacity;)] runs over 1 .. capacity - 1.  A write
    past the end of the slab, undefined in C++, leaves the slab as it is. *)
Definition init (alloc : StdMemory (StackNode ValueType)) : option stack :=
  match ptr_to_mem_slab alloc with
  | None => None
  | Some data =>
      let bottom := (<[0%nat := mkStackNode default_value 0 0 None]> data, Some 0%nat) in
      Some (foldl init_cell bottom (seq 1 (Z.to_nat (capacity alloc) - 1)))
  end.

(** [push]: link the node on the current head and install it.  In this
    sequential reading the compare-exchange succeeds at its first try. *)
Definition push (c : nat) (st : stack) : stack :=
  (alter (set_next (snd st)) c (fst st), Some c).

(** [pop]: return the head and install its successor; null when empty. *)
Definition pop (st : stack) : option nat * stack :=
  match snd st with
  | None => (None, st)
  | Some h =>
      (Some h, (fst st, match fst st !! h with
                        | Some n => ptr_to_next n
                        | None => None
                        end))
  end.

(** [k] successive pops, results in the order they were returned. *)
Fixpoint pops (k : nat) (st : stack) : list (option nat) * stack :=
  match k with
  | O => ([], st)
  | S k' =>
      let '(r, st1) := pop st in
      let '(rs, st2) := pops k' st1 in
      (r :: rs, st2)
  end.
End Stack.

End AtomicStack.

(** ** timeout_timer.hpp *)

Module TimeoutTimer.

(** [set]: [keys_[key] = now].  [keys_] is a [gmap nat Z], the
    last-activity time point per key: keys are client pointers, that is
    slot indices, and a [steady_clock] time point is its count of
    nanoseconds. *)
Definition set (key : nat) (now : Z) (keys : gmap nat Z) : gmap nat Z :=
  <[key := now]> keys.

(** [unset]: erase the key when it is found. *)
Definition unset (key : nat) (keys : gmap nat Z) : gmap nat Z :=
  match keys !! key with
  | Some _ => delete key keys
  | None => keys
  end.

(** [int time_delta = duration_cast<milliseconds>(now - then).count()]:
    the cast truncates the nanosecond count toward zero, the assignment
    narrows the 64-bit count to [int]. *)
Definition time_delta (now then_ : Z) : Z :=
  to_int (Z.quot (now - then_) 1000000).

(** First loop of [prune_timed_out_keys]: collect the keys whose
    [time_delta] exceeds the interval.  [now_at k] is the clock reading
    taken in the iteration that visits the entry of [k]. *)
Fixpoint collect (timeout_interval : Z) (now_at : nat -> Z)
    (entries : list (nat * Z)) : list nat :=
  match entries with
  | [] => []
  | (key, then_) :: rest =>
      if timeout_interval <? time_delta (now_at key) then_
      then key :: collect timeout_interval now_at rest
      else collect timeout_interval now_at rest
  end.

(** Second loop: [keys->erase(key)] for every collected key. *)
Definition erase_all (timed_out : list nat) (keys : gmap nat Z) : gmap nat Z :=
  foldl (fun m k => delete k m) keys timed_out.

(** [prune_timed_out_keys]: the timed-out keys and the pruned map.  The
    entries are visited in the container's iteration order. *)
Definition prune_timed_out_keys (timeout_interval : Z) (now_at : nat -> Z)
    (keys : gmap nat Z) : list nat * gmap nat Z :=
  let timed_out := collect timeout_interval now_at (map_to_list keys) in
  (timed_out, erase_all timed_out keys).

(** One turn of the loop of [do_run] after its sleep.  [None]: the timer
    has been stopped and the loop is left.  Otherwise the pruned map and
    the argument of the callback, which is called only when some key has
    timed out. *)
Definition do_run_pass (is_running : bool) (timeout_interval : Z)
    (now_at : nat -> Z) (keys : gmap nat Z)
  : option (gmap nat Z * option (list nat)) :=
  if is_running then
    let pruned := prune_timed_out_keys timeout_interval now_at keys in
    Some (snd pruned,
          match fst pruned with
          | [] => None
          | _ :: _ => Some (fst pruned)
          end)
  else None.

(** The timer's interface as a script of calls, run against [keys_]. *)
Inductive timer_op : Type :=
| TSet (key : nat) (now : Z)
| TUnset (key : nat)
| TPrune (timeout_interval : Z) (now_at : nat -> Z).

Definition timer_step (keys : gmap nat Z) (op : timer_op) : gmap nat Z :=
  match op with
  | TSet key now => set key now keys
  | TUnset key => unset key keys
  | TPrune interval now_at => snd (prune_timed_out_keys interval now_at keys)
  end.

Definition timer_run (ops : list timer_op) (keys : gmap nat Z) : gmap nat Z :=
  foldl timer_step keys ops.

End TimeoutTimer.

(** ** basic_client.hpp and client_session.hpp *)

Module BasicClient.

Definition kBuffSize : Z := 4096.

(** The members of [BasicClient] the pool's behaviour depends on: the
    descriptor given at construction and the receive buffer. *)
Record t : Type := mk {
  sfd_ : Z;
  message_buff_ : list Byte.byte
}.

(** [BasicClient() = default]. *)
Definition default : t :=
  mk 0 (replicate (Z.to_nat (kBuffSize + 1)) Byte.x00).

(** [BasicClient(sfd, session_manager)]. *)
Definition construct (sfd : Z) : t :=
  mk sfd (replicate (Z.to_nat (kBuffSize + 1)) Byte.x00).

(** What one [recv] answers: its return value, [errno] after the call and
    the bytes it stored (as many as the return value when it is positive). *)
Record recv_result : Type := mkRecv {
  recv_ret : Z;
  recv_errno : Z;
  recv_bytes : list Byte.byte
}.

(** [read]: [recv] into [message_buff_]; the bytes received overwrite the
    front of the buffer. *)
Definition read (r : recv_result) (c : t) : t * Z :=
  (mk (sfd_ c)
      (if 0 <? recv_ret r
       then recv_bytes r ++ drop (length (recv_bytes r)) (message_buff_ c)
       else message_buff_ c),
   recv_ret r).

(** What one [read_oob] meets: the mark written by [ioctl(SIOCATMARK)],
    then the answer of [recv(.., 1, MSG_OOB)]. *)
Record oob_result : Type := mkOob {
  oob_mark : Z;
  oob_ret : Z;
  oob_errno : Z;
  oob_byte : Byte.byte
}.

(** [read_oob]: -1 and 0 of the mark are returned as they are, any other
    mark hands over to [endpoint_read_oob]. *)
Definition read_oob (r : oob_result) : Z :=
  if oob_mark r =? -1 then -1
  else if oob_mark r =? 0 then 0
  else oob_ret r.

(** The loop of [write].  [send i len] is what the [i]-th call of
    [endpoint_write] returns when asked to send [len] bytes.  The result
    is [size] as it stands when the loop is left.  The [int] arithmetic
    is exact: while [send] returns at most what it was asked for, [size]
    stays between 0 and its first value. *)
Equations? write_loop (send : nat -> Z -> Z) (i : nat) (size : Z) : Z
  by wf (Z.to_nat size) lt :=
  write_loop send i size with decide (0 < size) => {
    | right _ => size
    | left _ with decide (send i size <= 0) => {
        | left _ => size
        | right _ => write_loop send (S i) (size - send i size) } }.
Proof. lia. Qed.

(** [write]: the number of bytes handed to the socket. *)
Definition write (send : nat -> Z -> Z) (size : Z) : Z :=
  let total_size := size in
  total_size - write_loop send 0 size.

End BasicClient.

Module ClientSession.
(** [ClientSession::write] forwards to the client. *)
Definition write (send : nat -> Z -> Z) (size : Z) : Z :=
  BasicClient.write send size.
End ClientSession.

(** ** epoll.hpp *)

Module EpollWaiter.

(** An event returned by [epoll_wait]: its cookie is either the address of
    the self-pipe's read side or a registered handler. *)
Inductive event : Type :=
| EvSelfPipe
| EvHandler (handler : nat) (events : Z).

(** The waiter: the atomic worker counter, the self-pipe (bytes written
    and not yet read, and whether its one-shot watch is armed), and two
    logs: how many times [close] ran and what was handed to the sink. *)
Record t : Type := mk {
  instance_count_ : Z;
  selfpipe_bytes : nat;
  selfpipe_armed : bool;
  close_signals : nat;
  triggered : list (nat * Z)
}.

(** The constructor registers the self-pipe one-shot; nobody waits yet. *)
Definition create : t := mk 0 0 true 0 [].

(** [close]: re-arm the self-pipe watch and write one byte. *)
Definition close (w : t) : t :=
  mk (instance_count_ w) (S (selfpipe_bytes w)) true
     (S (close_signals w)) (triggered w).

(** [++instance_count_] at the entry of [wait]. *)
Definition enter_wait (w : t) : t :=
  mk (instance_count_ w + 1) (selfpipe_bytes w) (selfpipe_armed w)
     (close_signals w) (triggered w).

(** The block run on the self-pipe event: read the byte, decrement the
    counter, call [close] again when the new value is positive. *)
Definition on_selfpipe (w : t) : t :=
  let w1 := mk (instance_count_ w - 1) (pred (selfpipe_bytes w))
               (selfpipe_armed w) (close_signals w) (triggered w) in
  if 0 <? instance_count_ w1 then close w1 else w1.

(** [sink->trigger(handler, events)], recorded. *)
Definition on_handler (handler : nat) (events : Z) (w : t) : t :=
  mk (instance_count_ w) (selfpipe_bytes w) (selfpipe_armed w)
     (close_signals w) (triggered w ++ [(handler, events)]).

(** The inner [for] loop of [wait] over one batch of events; the boolean
    is [run] after the batch. *)
Fixpoint dispatch (events : list event) (w : t) : t * bool :=
  match events with
  | [] => (w, true)
  | EvSelfPipe :: _ => (on_selfpipe w, false)
  | EvHandler h ev :: rest => dispatch rest (on_handler h ev w)
  end.

Definition is_selfpipe (e : event) : bool :=
  match e with EvSelfPipe => true | EvHandler _ _ => false end.

(** Workers sharing one waiter: those inside [wait] and those that left. *)
Record system : Type := mkSystem {
  waiter : t;
  waiting : list nat;
  exited : list nat
}.

(** Worker [wk] calls [wait]. *)
Definition spawn (sys : system) (wk : nat) : system :=
  mkSystem (enter_wait (waiter sys)) (waiting sys ++ [wk]) (exited sys).

(** [K] workers, numbered from 0, all inside [wait]. *)
Definition started (K : nat) : system :=
  foldl spawn (mkSystem create [] []) (seq 0 K).

(** [close] called from any thread. *)
Definition signal (sys : system) : system :=
  mkSystem (close (waiter sys)) (waiting sys) (exited sys).

(** One return of [epoll_wait] in worker [wk] and the handling of its
    batch; [None] stands for a return value of -1, on which the worker
    breaks out of its loop.  The kernel reports the self-pipe only while
    its watch is armed and a byte is readable, and disarms the one-shot
    watch as it does: until the shutdown block has called [close] again no
    other worker can receive that event, so the handling of a batch is one
    step.  The worker leaves [wait] when [run] has become false. *)
Definition epoll_return (wk : nat) (ready : option (list event))
    (sys : system) : option system :=
  if negb (bool_decide (wk ∈ waiting sys)) then None
  else
    match ready with
    | None =>
        Some (mkSystem (waiter sys)
                       (filter (fun x => x ≠ wk) (waiting sys))
                       (exited sys ++ [wk]))
    | Some batch =>
        let w := waiter sys in
        if existsb is_selfpipe batch
           && negb (selfpipe_armed w && (0 <? Z.of_nat (selfpipe_bytes w)))
        then None
        else
          let w1 := if existsb is_selfpipe batch
                    then mk (instance_count_ w) (selfpipe_bytes w) false
                            (close_signals w) (triggered w)
                    else w in
          let '(w2, run) := dispatch batch w1 in
          Some (if run then mkSystem w2 (waiting sys) (exited sys)
                else mkSystem w2 (filter (fun x => x ≠ wk) (waiting sys))
                                 (exited sys ++ [wk]))
    end.

(** A schedule: which worker wakes with which answer, in order. *)
Fixpoint run_schedule (sched : list (nat * option (list event)))
    (sys : system) : option system :=
  match sched with
  | [] => Some sys
  | (wk, ready) :: rest =>
      match epoll_return wk ready sys with
      | Some sys1 => run_schedule rest sys1
      | None => None
      end
  end.

(** The wake-up delivers events, with or without the self-pipe's. *)
Definition delivers (ready : option (list event)) : Prop :=
  is_Some ready.

Definition delivers_selfpipe (ready : option (list event)) : Prop :=
  exists batch, ready = Some batch /\ existsb is_selfpipe batch = true.

End EpollWaiter.

(** ** client_pool.hpp *)

Module ClientPool.
Import AtomicStack.

(** System calls the pools issue, in the order they are issued. *)
Inductive syscall : Type :=
| SysClose (fd : Z)
| SysEpollAdd (fd events : Z) (handler : nat)
| SysEpollMod (fd events : Z) (handler : nat)
| SysEpollDel (fd : Z)
| SysAccept (listener result : Z)
| SysUnblock (fd : Z).

(** Calls made on the packet sink; the session argument is its [uuid]. *)
Inductive callback : Type :=
| CbAccepted (uuid : Z)
| CbClosed (uuid : Z)
| CbError (uuid : Z)
| CbDataReceived (uuid : Z) (data : list Byte.byte) (size : Z)
| CbOobReceived (uuid : Z) (oobdata : Byte.byte).

(** What a handler can do with the session it is given. *)
Inductive action : Type :=
| ActWrite (buff : list Byte.byte) (size : Z)
| ActRearm
| ActTerminate.

(** [PacketSinkType]: which [enable_client_*] bases it derives from, and
    its reaction to a callback: the session calls it makes before it
    returns, as a function of every callback it has received so far (the
    last element is the one being handled). *)
Record PacketSink : Type := mkSink {
  enable_client_accepted : bool;
  enable_client_closed : bool;
  enable_client_error : bool;
  enable_client_data_received : bool;
  enable_client_oob_received : bool;
  react : list callback -> list action
}.

Record t : Type := mk {
  packet_sink_ : PacketSink;
  (** [mem_pool_]: the allocated slab. *)
  mem_pool_ : list (StackNode BasicClient.t);
  (** [clients_stack_]: the head of the free stack. *)
  clients_stack_ : option nat;
  (** [timeout_timer_.keys_]. *)
  timeout_keys_ : gmap nat Z;
  syscalls : list syscall;
  callbacks : list callback
}.

Definition kFlags : Z :=
  Z.lor EPOLLIN (Z.lor EPOLLET (Z.lor EPOLLHUP
    (Z.lor EPOLLRDHUP (Z.lor EPOLLPRI EPOLLONESHOT)))).

Definition with_stack (st : stack) (p : t) : t :=
  mk (packet_sink_ p) (fst st) (snd st) (timeout_keys_ p)
     (syscalls p) (callbacks p).

Definition with_node (c : nat)
    (f : StackNode BasicClient.t -> StackNode BasicClient.t) (p : t) : t :=
  mk (packet_sink_ p) (alter f c (mem_pool_ p)) (clients_stack_ p)
     (timeout_keys_ p) (syscalls p) (callbacks p).

Definition with_keys (keys : gmap nat Z) (p : t) : t :=
  mk (packet_sink_ p) (mem_pool_ p) (clients_stack_ p) keys
     (syscalls p) (callbacks p).

Definition sys (call : syscall) (p : t) : t :=
  mk (packet_sink_ p) (mem_pool_ p) (clients_stack_ p) (timeout_keys_ p)
     (syscalls p ++ [call]) (callbacks p).

Definition record (cb : callback) (p : t) : t :=
  mk (packet_sink_ p) (mem_pool_ p) (clients_stack_ p) (timeout_keys_ p)
     (syscalls p) (callbacks p ++ [cb]).

Definition stack_of (p : t) : stack := (mem_pool_ p, clients_stack_ p).

(** [static_cast<util::StackNode<ClientType>*>(client)->sfd] and [->uuid];
    a pointer outside the slab reads as a free slot. *)
Definition node_sfd (c : nat) (p : t) : Z :=
  match mem_pool_ p !! c with Some n => sfd n | None => 0 end.

Definition node_uuid (c : nat) (p : t) : Z :=
  match mem_pool_ p !! c with Some n => uuid n | None => 0 end.

Definition node_buff (c : nat) (p : t) : list Byte.byte :=
  match mem_pool_ p !! c with
  | Some n => BasicClient.message_buff_ (value n)
  | None => []
  end.

(** The pool as [run] leaves it: the stack initialised over the slab, no
    timer entry, nothing logged. *)
Definition started (sink : PacketSink) (slab : list (StackNode BasicClient.t))
  : t :=
  match init BasicClient.default
             (mkStdMemory (Some slab) (Z.of_nat (length slab))) with
  | Some st => mk sink (fst st) (snd st) ∅ [] []
  | None => mk sink slab None ∅ [] []
  end.

(** [rearm]. *)
Definition rearm (c : nat) (p : t) : t :=
  sys (SysEpollMod (node_sfd c p) kFlags c) p.

(** [terminate]. *)
Definition terminate (c : nat) (p : t) : t :=
  let fd := node_sfd c p in
  if fd =? 0 then p
  else
    let p1 := sys (SysClose fd) p in
    let p2 := sys (SysEpollDel fd) p1 in
    let p3 := with_node c (set_sfd 0) p2 in
    with_stack (push c (stack_of p3)) p3.

(** The session calls of a handler, run in order on the pool.  A [write]
    goes to the socket and leaves the pool alone; what it returns is
    [BasicClient.write]. *)
Definition run_action (c : nat) (p : t) (a : action) : t :=
  match a with
  | ActWrite _ _ => p
  | ActRearm => rearm c p
  | ActTerminate => terminate c p
  end.

(** One call on the packet sink and what the handler does during it. *)
Definition notify (c : nat) (cb : callback) (p : t) : t :=
  let p1 := record cb p in
  foldl (run_action c) p1 (react (packet_sink_ p) (callbacks p1)).

Definition have_client_accepted (c : nat) (p : t) : t :=
  if enable_client_accepted (packet_sink_ p)
  then notify c (CbAccepted (node_uuid c p)) p else p.

Definition have_client_closed (c : nat) (p : t) : t :=
  if enable_client_closed (packet_sink_ p)
  then notify c (CbClosed (node_uuid c p)) p else p.

Definition have_client_error (c : nat) (p : t) : t :=
  if enable_client_error (packet_sink_ p)
  then notify c (CbError (node_uuid c p)) p else p.

Definition have_client_data_received (c : nat) (data : list Byte.byte)
    (size : Z) (p : t) : t :=
  if enable_client_data_received (packet_sink_ p)
  then notify c (CbDataReceived (node_uuid c p) data size) p else p.

Definition have_client_oob_received (c : nat) (oobdata : Byte.byte) (p : t) : t :=
  if enable_client_oob_received (packet_sink_ p)
  then notify c (CbOobReceived (node_uuid c p) oobdata) p else p.

(** [terminate_on_close]. *)
Definition terminate_on_close (c : nat) (p : t) : t :=
  let fd := node_sfd c p in
  if fd =? 0 then p
  else
    let p1 := sys (SysClose fd) p in
    let p2 := sys (SysEpollDel fd) p1 in
    let p3 := with_node c (set_sfd 0) p2 in
    let p4 := have_client_closed c p3 in
    with_stack (push c (stack_of p4)) p4.

(** [terminate_on_error]. *)
Definition terminate_on_error (c : nat) (p : t) : t :=
  let fd := node_sfd c p in
  if fd =? 0 then p
  else
    let p1 := sys (SysClose fd) p in
    let p2 := sys (SysEpollDel fd) p1 in
    let p3 := with_node c (set_sfd 0) p2 in
    let p4 := have_client_error c p3 in
    with_stack (push c (stack_of p4)) p4.

(** [timeout_timer_.set(client)]. *)
Definition timer_set (c : nat) (now : Z) (p : t) : t :=
  with_keys (TimeoutTimer.set c now (timeout_keys_ p)) p.

(** [add_client].  [epoll_add_ok] is whether [epoll_.add] succeeds and
    [now] the clock reading of [timeout_timer_.set]. *)
Definition add_client (epoll_add_ok : bool) (now : Z) (sfd : Z) (p : t)
  : option nat * t :=
  match pop (stack_of p) with
  | (None, _) => (None, p)
  | (Some c, st) =>
      let p1 := with_stack st p in
      let p2 := with_node c (set_value (BasicClient.construct sfd)) p1 in
      let p3 := with_node c (set_sfd sfd) p2 in
      let p4 := have_client_accepted c p3 in
      let p5 := sys (SysEpollAdd sfd kFlags c) p4 in
      if epoll_add_ok then (Some c, timer_set c now p5)
      else (None, terminate c p5)
  end.

(** [client->read(&nbytes)] on the slot's connection. *)
Definition client_read (r : BasicClient.recv_result) (c : nat) (p : t) : t :=
  with_node c (fun n => set_value (fst (BasicClient.read r (value n))) n) p.

(** [read_ready_triggered].  [reads] are the answers of the successive
    [recv] calls; the loop has not finished when they run out. *)
Fixpoint read_ready_triggered (reads : list BasicClient.recv_result)
    (c : nat) (p : t) : option t :=
  match reads with
  | [] => None
  | r :: rest =>
      let p1 := client_read r c p in
      let nbytes := BasicClient.recv_ret r in
      if (nbytes =? -1) && (BasicClient.recv_errno r =? EAGAIN) then Some p1
      else if nbytes =? -1 then Some (terminate_on_error c p1)
      else if nbytes =? 0 then Some (terminate_on_close c p1)
      else read_ready_triggered rest c
             (have_client_data_received c (node_buff c p1) nbytes p1)
  end.

(** [pri_read_ready_triggered]. *)
Fixpoint pri_read_ready_triggered (oobs : list BasicClient.oob_result)
    (c : nat) (p : t) : option t :=
  match oobs with
  | [] => None
  | r :: rest =>
      let mark := BasicClient.read_oob r in
      if (mark =? -1) && (BasicClient.oob_errno r =? EAGAIN) then Some p
      else if mark =? -1 then Some (terminate_on_error c p)
      else if mark =? 0 then Some p
      else pri_read_ready_triggered rest c
             (have_client_oob_received c (BasicClient.oob_byte r) p)
  end.

(** What the environment answers during one [trigger]. *)
Record trigger_env : Type := mkEnv {
  now_pri : Z;
  oobs : list BasicClient.oob_result;
  now_in : Z;
  reads : list BasicClient.recv_result
}.

(** [trigger]. *)
Definition trigger (env : trigger_env) (c : nat) (flags : Z) (p : t)
  : option t :=
  if has_flag flags EPOLLERR then Some (terminate_on_error c p)
  else if has_flag flags EPOLLHUP || has_flag flags EPOLLRDHUP
  then Some (terminate_on_close c (have_client_closed c p))
  else
    match (if has_flag flags EPOLLPRI
           then pri_read_ready_triggered (oobs env) c
                  (timer_set c (now_pri env) p)
           else Some p) with
    | None => None
    | Some p1 =>
        if has_flag flags EPOLLIN
        then read_ready_triggered (reads env) c (timer_set c (now_in env) p1)
        else Some p1
    end.

End ClientPool.

(** ** server_pool.hpp *)

Module ServerPool.
Import ClientPool.

(** [ServerSession] of server_session.hpp. *)
Record ServerSession : Type := mkSession {
  uuid : Z;
  sfd : Z
}.

(** The listener pool: the bound servers and the connection pool it owns.
    Its own system calls go to the log of [client_pool_]. *)
Record t : Type := mk {
  servers_ : gmap Z ServerSession;
  client_pool_ : ClientPool.t
}.

Definition on_pool (f : ClientPool.t -> ClientPool.t) (sp : t) : t :=
  mk (servers_ sp) (f (client_pool_ sp)).

(** What one pass of the accept loop meets: the value of [accept], the
    value of [endpoint_unblock], and the answers [add_client] needs. *)
Record accepted : Type := mkAccepted {
  cfd : Z;
  unblock_ret : Z;
  epoll_add_ok : bool;
  now : Z
}.

(** The [while] loop of the default branch of [trigger]; it has not
    finished when the answers run out before [accept] returns -1. *)
Fixpoint accept_loop (answers : list accepted) (server : ServerSession)
    (sp : t) : option t :=
  match answers with
  | [] => None
  | a :: rest =>
      let sp1 := on_pool (sys (SysAccept (sfd server) (cfd a))) sp in
      if cfd a =? -1 then Some sp1
      else
        let sp2 := on_pool (sys (SysUnblock (cfd a))) sp1 in
        if negb (unblock_ret a =? 0)
        then accept_loop rest server (on_pool (sys (SysClose (cfd a))) sp2)
        else accept_loop rest server
               (on_pool (fun p => snd (add_client (epoll_add_ok a) (now a)
                                                    (cfd a) p)) sp2)
  end.

(** [trigger]: a [switch] on the value of [flags]. *)
Definition trigger (answers : list accepted) (server : ServerSession)
    (flags : Z) (sp : t) : option t :=
  if (flags =? EPOLLHUP) || (flags =? EPOLLERR)
  then Some (on_pool (sys (SysClose (sfd server))) sp)
  else accept_loop answers server sp.

End ServerPool.

(** ** Vocabulary of the statements *)

Section StackVocabulary.
Import AtomicStack.
Context {ValueType : Type} (dv : ValueType).

(** The cell [init] builds at index [i]. *)
Definition init_node (i : nat) : StackNode ValueType :=
  mkStackNode dv (Z.of_nat i) 0
              (match i with O => None | S j => Some j end).

(** Cells 0 .. k of [data] are the ones [init] builds. *)
Definition chained (data : list (StackNode ValueType)) (k : nat) : Prop :=
  forall i, (i <= k)%nat -> data !! i = Some (init_node i).
End StackVocabulary.

Section ShutdownVocabulary.
Import EpollWaiter.

(** The state of the daisy chain between two wake-ups, for [K] workers:
    the counter counts the workers still inside [wait]; while one is left
    exactly one byte is pending on the armed self-pipe and [close] has run
    once more than workers have left; when none is left the pipe is empty
    and [close] has run [K] times. *)
Definition chain_inv (K : nat) (sys : system) : Prop :=
  instance_count_ (waiter sys) = Z.of_nat (length (waiting sys))
  /\ (length (waiting sys) + length (exited sys) = K)%nat
  /\ NoDup (waiting sys)
  /\ match waiting sys with
     | [] => selfpipe_bytes (waiter sys) = 0%nat
             /\ selfpipe_armed (waiter sys) = false
             /\ close_signals (waiter sys) = K
     | _ :: _ => selfpipe_bytes (waiter sys) = 1%nat
                 /\ selfpipe_armed (waiter sys) = true
                 /\ close_signals (waiter sys) = S (length (exited sys))
     end.
End ShutdownVocabulary.

(** The bytes a run of [send] calls has handed to the socket: the sum of
    what the calls returned. *)
Definition delivered (taken : list Z) : Z := foldr Z.add 0 taken.

(** The calls one [trigger] makes on the timer: none on an error, hangup or
    peer-half-close event, otherwise one [set] for the priority flag and one
    for the readable flag. *)
Definition arming (env : ClientPool.trigger_env) (c : nat) (flags : Z)
  : list TimeoutTimer.timer_op :=
  if has_flag flags EPOLLERR then []
  else if has_flag flags EPOLLHUP || has_flag flags EPOLLRDHUP then []
  else (if has_flag flags EPOLLPRI
        then [TimeoutTimer.TSet c (ClientPool.now_pri env)] else [])
       ++ (if has_flag flags EPOLLIN
           then [TimeoutTimer.TSet c (ClientPool.now_in env)] else []).

(** ** Fixtures *)

Module Scenario.
Import AtomicStack ClientPool.

(** The handlers of the sample echo server (sample/echo_server_impl.hpp)
    behind [BasicClientHandler], which derives from all five
    [enable_client_*] bases: data is written back and the session is
    re-armed; the other handlers make no session call. *)
Definition echo_sink : PacketSink :=
  mkSink true true true true true
    (fun history =>
       match last history with
       | Some (CbDataReceived _ data size) => [ActWrite data size; ActRearm]
       | _ => []
       end).

(** A slab of [n] cells as [malloc] may hand it over. *)
Definition raw_slab (n : nat) : list (StackNode BasicClient.t) :=
  replicate n (mkStackNode BasicClient.default 0 0 None).

Definition hello : list Byte.byte :=
  [Byte.x68; Byte.x65; Byte.x6c; Byte.x6c; Byte.x6f].

(** [recv] answers: data, would-block, orderly close, hard error. *)
Definition recv_data (bytes : list Byte.byte) : BasicClient.recv_result :=
  BasicClient.mkRecv (Z.of_nat (length bytes)) 0 bytes.
Definition recv_eagain : BasicClient.recv_result :=
  BasicClient.mkRecv (-1) EAGAIN [].

(** A pool of one slot serving the echo sink, and the same pool once the
    connection on descriptor 5 has been admitted at time 1000. *)
Definition one_slot : ClientPool.t := started echo_sink (raw_slab 1).
Definition one_bound : ClientPool.t := snd (add_client true 1000 5 one_slot).

(** A socket that takes three bytes at the first [send] and fails at
    every later one. *)
Definition send_three_then_fail (j : nat) (len : Z) : Z :=
  if (j =? 0)%nat then Z.min 3 len else -1.

(** Three timer entries read at 500 ms: idle for 101, 100 and 50 ms. *)
Definition three_idle : gmap nat Z :=
  <[1%nat := 399000000]> (<[2%nat := 400000000]> (<[3%nat := 450000000]> ∅)).

(** Calls received by a timer: two connections armed, one pass that
    expires the first, one explicit removal. *)
Definition timer_script : list TimeoutTimer.timer_op :=
  [TimeoutTimer.TSet 3 0; TimeoutTimer.TSet 4 150000000;
   TimeoutTimer.TPrune 100 (fun _ => 200000000); TimeoutTimer.TUnset 9].

(** Three workers woken on the self-pipe in the order 1, 0, 2; the second
    wake-up also carries a readable event for handler 7. *)
Definition shutdown_schedule
  : list (nat * option (list EpollWaiter.event)) :=
  [(1%nat, Some [EpollWaiter.EvSelfPipe]);
   (0%nat, Some [EpollWaiter.EvHandler 7 EPOLLIN; EpollWaiter.EvSelfPipe]);
   (2%nat, Some [EpollWaiter.EvSelfPipe])].

(** A listener on descriptor 3 in front of a pool. *)
Definition listener : ServerPool.ServerSession := ServerPool.mkSession 1 3.
Definition serving (p : ClientPool.t) : ServerPool.t :=
  ServerPool.mk {[ 1 := listener ]} p.
End Scenario.

Module EchoScenario.
Import ClientPool Scenario.

(** The client sends "hello": one readable event, [recv] answers the five
    bytes and then would-block. *)
Definition env_hello : trigger_env :=
  mkEnv 0 [] 2000 [recv_data hello; recv_eagain].

(** The client disconnects: the event carries the readable and the
    peer-half-close flag, and no [recv] is attempted. *)
Definition env_disconnect : trigger_env := mkEnv 0 [] 3000 [].

Definition run : option ClientPool.t :=
  match trigger env_hello 0 EPOLLIN one_bound with
  | Some p => trigger env_disconnect 0 (Z.lor EPOLLIN EPOLLRDHUP) p
  | None => None
  end.
End EchoScenario.


(** ** The free stack as a list of slots *)

Section FreeList.
Import AtomicStack.
Context {ValueType : Type}.

(** [chain slab head l]: the slots met from [head] along [ptr_to_next] down
    to the null link are those of [l], in this order. *)
Inductive chain (slab : list (StackNode ValueType))
  : option nat -> list nat -> Prop :=
| chain_nil : chain slab None []
| chain_cons h n l :
    slab !! h = Some n ->
    chain slab (ptr_to_next n) l ->
    chain slab (Some h) (h :: l).

(** The free stack holds the slots of [l], each once, and a slot of the
    slab has descriptor 0 exactly when it is one of them. *)
Definition free_list (slab : list (StackNode ValueType)) (head : option nat)
    (l : list nat) : Prop :=
  chain slab head l
  /\ NoDup l
  /\ (forall i n, slab !! i = Some n -> sfd n = 0 <-> i ∈ l).
End FreeList.

(** ** The pool as its users drive it *)

Module PoolOps.
Import AtomicStack ClientPool.

(** The invariant of the connection pool: [l] is its free stack. *)
Definition free_slots (p : ClientPool.t) (l : list nat) : Prop :=
  free_list (mem_pool_ p) (clients_stack_ p) l.

(** The slots bound to a descriptor. *)
Definition bound_slots (p : ClientPool.t) : list nat :=
  filter (fun i => node_sfd i p ≠ 0) (seq 0 (length (mem_pool_ p))).

(** The callback [run] hands to the reaper: every timed-out client is
    terminated on close. *)
Definition on_timeout (timed_out_clients : list nat) (p : ClientPool.t)
  : ClientPool.t :=
  foldl (fun q client => terminate_on_close client q) p timed_out_clients.

(** The loop of [stop] over the slab: [terminate] on every slot. *)
Definition reset_clients (p : ClientPool.t) : ClientPool.t :=
  foldl (fun q i => terminate i q) p (seq 0 (length (mem_pool_ p))).

(** One reaper turn against the pool: the pass over [timeout_timer_.keys_]
    and, when some key has timed out, the callback.  The callback of the
    reaper thread is its own copy of the [std::function] that
    [TimeoutTimer::run] received by reference, made when the thread begins
    to run; [ClientPool::run] passes a temporary, which is destroyed when
    [TimeoutTimer::run] returns.  [callback_live] tells whether the thread
    made its copy before that.  If it did not, the copy is taken from a
    dead object: what the thread does from then on is undefined, and the
    turn has no result. *)
Definition reap (callback_live : bool) (timeout_interval : Z)
    (now_at : nat -> Z) (p : ClientPool.t) : option ClientPool.t :=
  if callback_live then
    let pass := TimeoutTimer.prune_timed_out_keys timeout_interval now_at
                  (timeout_keys_ p) in
    let p1 := with_keys (snd pass) p in
    Some (match fst pass with
          | [] => p1
          | _ :: _ => on_timeout (fst pass) p1
          end)
  else None.

(** The calls that reach a running pool: from the listener ([add_client]),
    from the waiter ([trigger]), from a session outside a callback
    ([rearm], [terminate]) and from the reaper. *)
Inductive pool_op : Type :=
| OpAddClient (epoll_add_ok : bool) (now sfd : Z)
| OpTrigger (env : trigger_env) (c : nat) (flags : Z)
| OpRearm (c : nat)
| OpTerminate (c : nat)
| OpReap (callback_live : bool) (timeout_interval : Z) (now_at : nat -> Z).

Definition pool_step (op : pool_op) (p : ClientPool.t) : option ClientPool.t :=
  match op with
  | OpAddClient ok now fd => Some (snd (add_client ok now fd p))
  | OpTrigger env c flags => trigger env c flags p
  | OpRearm c => Some (rearm c p)
  | OpTerminate c => Some (terminate c p)
  | OpReap live interval now_at => reap live interval now_at p
  end.

Fixpoint pool_run (ops : list pool_op) (p : ClientPool.t)
  : option ClientPool.t :=
  match ops with
  | [] => Some p
  | op :: rest =>
      match pool_step op p with
      | Some q => pool_run rest q
      | None => None
      end
  end.

#[global] Instance syscall_eq_dec : EqDecision syscall.
Proof. solve_decision. Defined.

(** How many times [close(fd)] occurs in a log of system calls. *)
Definition count_close (fd : Z) (log : list syscall) : nat :=
  length (filter (fun call => call = SysClose fd) log).

(** [q] has the slab of [p] as far as size and identifiers go, and the
    same sink. *)
Definition same_shape (p q : ClientPool.t) : Prop :=
  length (mem_pool_ q) = length (mem_pool_ p)
  /\ (forall i, node_uuid i q = node_uuid i p)
  /\ packet_sink_ q = packet_sink_ p.

(** [q] has a free stack whenever [p] has one. *)
Definition keeps_free (p q : ClientPool.t) : Prop :=
  forall l, free_slots p l -> exists l', free_slots q l'.

(** No connection of the script is admitted on descriptor 0. *)
Definition admits_nonzero (op : pool_op) : Prop :=
  match op with
  | OpAddClient _ _ fd => fd ≠ 0
  | _ => True
  end.
End PoolOps.

(** ** Further fixtures *)

Module Scenario2.
Import AtomicStack.

(** Two free cells chained 1 -> 0, and the same with a third cell bound to
    descriptor 5. *)
Definition two_free : list (StackNode unit) :=
  [mkStackNode tt 0 0 None; mkStackNode tt 1 0 (Some 0%nat)].
Definition three_cells : list (StackNode unit) :=
  two_free ++ [mkStackNode tt 2 5 None].

(** A script on a pool of three slots: two connections admitted, the first
    one hung up by its peer, the second terminated by its handler, a third
    admitted, and a reaper turn. *)
Definition three_slots : ClientPool.t :=
  ClientPool.started Scenario.echo_sink (Scenario.raw_slab 3).
Definition busy_script : list PoolOps.pool_op :=
  [PoolOps.OpAddClient true 1000 5;
   PoolOps.OpAddClient true 2000 6;
   PoolOps.OpTrigger EchoScenario.env_disconnect 2 EPOLLHUP;
   PoolOps.OpTerminate 1;
   PoolOps.OpAddClient true 3000 7;
   PoolOps.OpReap true 1 (fun _ => 9000000000)].
End Scenario2.

(** ** Workers that leave [wait] on an error *)

Section DrainVocabulary.
Import EpollWaiter.

(** The wake-up is a return value of -1 of [epoll_wait]. *)
Definition is_error (ready : option (list event)) : bool :=
  match ready with None => true | Some _ => false end.

(** How many wake-ups of a schedule are of that kind. *)
Definition error_exits (sched : list (nat * option (list event))) : nat :=
  length (filter (fun e => is_error (snd e) = true) sched).

(** The state of the daisy chain between two wake-ups when [e] of the [K]
    workers have left on an error: the counter still counts them; while it
    is positive one byte is pending on the armed self-pipe and [close] has
    run once more than workers have left on the self-pipe event. *)
Definition drain_inv (K e : nat) (sys : system) : Prop :=
  instance_count_ (waiter sys) = Z.of_nat (length (waiting sys) + e)
  /\ (length (waiting sys) + length (exited sys) = K)%nat
  /\ NoDup (waiting sys)
  /\ (e <= length (exited sys))%nat
  /\ if 0 <? instance_count_ (waiter sys)
     then selfpipe_bytes (waiter sys) = 1%nat
          /\ selfpipe_armed (waiter sys) = true
          /\ close_signals (waiter sys) = S (length (exited sys) - e)
     else selfpipe_bytes (waiter sys) = 0%nat
          /\ close_signals (waiter sys) = length (exited sys).
End DrainVocabulary.

Module DrainScenario.
(** Two workers: worker 0 leaves on a failed [epoll_wait], worker 1 on the
    self-pipe event. *)
Definition one_error : list (nat * option (list EpollWaiter.event)) :=
  [(0%nat, None); (1%nat, Some [EpollWaiter.EvSelfPipe])].
End DrainScenario.

(** ** Binding listeners (server_pool.hpp, endpoint.hpp) *)

From stdpp Require Import sorting.

Local Open Scope Z_scope.

Module ServerBind.
Import ClientPool.

(** [std::greater<>], the order of [servers_], on its entries. *)
Definition greater (a b : Z * ServerPool.ServerSession) : Prop :=
  fst b <= fst a.

#[global] Instance greater_dec : RelDecision greater.
Proof. intros a b. unfold greater. apply _. Defined.

(** The entries of [servers_] as the container iterates over them: the
    largest key first. *)
Definition entries (servers : gmap Z ServerPool.ServerSession)
  : list (Z * ServerPool.ServerSession) :=
  merge_sort greater (map_to_list servers).

(** What one [bind] meets: the values of [socket], [setsockopt], [bind],
    [listen] and [endpoint_unblock], and whether [epoll_.add] succeeds. *)
Record bind_env : Type := mkBindEnv {
  socket_ret : Z;
  setsockopt_ret : Z;
  bind_ret : Z;
  listen_ret : Z;
  unblock_ret : Z;
  epoll_add_ok : bool
}.

(** [endpoint_tcp_server]: the descriptor, or -1. *)
Definition endpoint_tcp_server (e : bind_env) (p : ClientPool.t)
  : Z * ClientPool.t :=
  let sfd := socket_ret e in
  if sfd =? -1 then (-1, p)
  else if setsockopt_ret e =? -1 then (-1, p)
  else if bind_ret e =? -1 then (-1, sys (SysClose sfd) p)
  else if listen_ret e =? -1 then (-1, sys (SysClose sfd) p)
  else (sfd, p).

(** [int flags = EPOLLIN | EPOLLET | EPOLLEXCLUSIVE] of [do_add]. *)
Definition listen_flags : Z := Z.lor EPOLLIN (Z.lor EPOLLET EPOLLEXCLUSIVE).

(** [do_add]: the session gets the key of the first entry plus one (an
    [int]), or 1 in an empty map, and is stored under it; then the
    descriptor is registered with the session as handler.  The handler is
    logged as the session's [uuid]. *)
Definition do_add (epoll_add_ok : bool) (sfd : Z) (sp : ServerPool.t)
  : bool * ServerPool.t :=
  let uuid := match entries (ServerPool.servers_ sp) with
              | [] => 1
              | top :: _ => to_int (fst top + 1)
              end in
  let servers := <[uuid := ServerPool.mkSession uuid sfd]>
                   (ServerPool.servers_ sp) in
  (epoll_add_ok,
   ServerPool.mk servers
     (sys (SysEpollAdd sfd listen_flags (Z.to_nat uuid))
          (ServerPool.client_pool_ sp))).

(** [do_bind]. *)
Definition do_bind (e : bind_env) (sp : ServerPool.t) : bool * ServerPool.t :=
  let '(sfd, p1) := endpoint_tcp_server e (ServerPool.client_pool_ sp) in
  let sp1 := ServerPool.mk (ServerPool.servers_ sp) p1 in
  if sfd =? -1 then (false, sp1)
  else
    let sp2 := ServerPool.on_pool (sys (SysUnblock sfd)) sp1 in
    if negb (unblock_ret e =? 0)
    then (false, ServerPool.on_pool (sys (SysClose sfd)) sp2)
    else
      let '(ret, sp3) := do_add (epoll_add_ok e) sfd sp2 in
      if ret then (true, sp3)
      else (false, ServerPool.on_pool (sys (SysClose sfd)) sp3).

(** The loop of the destructor: [endpoint_close] on the descriptor of
    every entry of [servers_]. *)
Definition close_servers (sp : ServerPool.t) : ServerPool.t :=
  foldl (fun q s => ServerPool.on_pool
                      (sys (SysClose (ServerPool.sfd (snd s)))) q)
        sp (entries (ServerPool.servers_ sp)).

(** Listeners added one after the other: for each, whether its
    registration succeeds and its descriptor. *)
Definition add_all (adds : list (bool * Z)) (sp : ServerPool.t)
  : ServerPool.t :=
  foldl (fun q a => snd (do_add (fst a) (snd a) q)) sp adds.

(** How many sessions of the map hold the descriptor. *)
Definition holders (fd : Z) (servers : gmap Z ServerPool.ServerSession)
  : nat :=
  length (filter (fun s => ServerPool.sfd (snd s) = fd) (map_to_list servers)).

End ServerBind.

Module BindScenario.
(** A bind on which everything succeeds but the registration with epoll;
    the socket is descriptor 9. *)
Definition add_fails : ServerBind.bind_env :=
  ServerBind.mkBindEnv 9 0 0 0 0 false.

(** Three listeners; the registration of the second fails. *)
Definition three_adds : list (bool * Z) := [(true, 3); (false, 4); (true, 5)].

Definition no_listener : ServerPool.t :=
  ServerPool.mk ∅ (ClientPool.started Scenario.echo_sink (Scenario.raw_slab 1)).
End BindScenario.

(** ** Events that arrive for a slot that is free *)

Section StaleVocabulary.
Import AtomicStack ClientPool.

(** The slab without the connection state of its cells: identifier,
    descriptor and free-list link of every cell. *)
Definition links (p : ClientPool.t) : list (Z * Z * option nat) :=
  (fun n => (uuid n, sfd n, ptr_to_next n)) <$> mem_pool_ p.
End StaleVocabulary.

(** ** The slab (memory_util.hpp, std_memory.hpp) and [ClientPool::run] *)

Module MemoryUtil.
Import AtomicStack.

(** Conversion to [std::size_t]. *)
Definition to_size_t (z : Z) : Z := z mod 2 ^ 64.

(** [padd_to_page_boundary]; [pagesize] is the value of [getpagesize()],
    the arithmetic is that of [std::size_t]. *)
Definition padd_to_page_boundary (pagesize size_hint : Z) : Z :=
  if size_hint mod pagesize =? 0 then size_hint
  else to_size_t (size_hint + pagesize - size_hint mod pagesize).

(** A [StdMemory] and the state of the heap block its pointer names:
    [freed] once the block has been handed to [std::free]. *)
Record block (v_t : Type) : Type := mkBlock {
  std_mem : StdMemory v_t;
  freed : bool
}.
Arguments mkBlock {v_t} _ _.
Arguments std_mem {v_t} _.
Arguments freed {v_t} _.

(** [init]: nothing is done when the pointer is not null.  Otherwise the
    hint, an [int], is padded as a [std::size_t] and stored back into the
    [int]; [malloc] is asked for that many cells of [sizeof_v] bytes and
    answers with a block or with null. *)
Definition init {v_t : Type} (sizeof_v pagesize : Z)
    (malloc : Z -> option (list v_t)) (b : block v_t)
    (size_hint : Z) : bool * block v_t :=
  if is_allocated (std_mem b) then (true, b)
  else
    let size_hint :=
      to_int (padd_to_page_boundary pagesize (to_size_t size_hint)) in
    match malloc (to_size_t (sizeof_v * to_size_t size_hint)) with
    | None => (false, b)
    | Some mem => (true, mkBlock (mkStdMemory (Some mem) size_hint) false)
    end.

(** [destroy]: the block is handed to [std::free] when the pointer is not
    null.  The structure itself is not written to: the pointer keeps
    naming the block. *)
Definition destroy {v_t : Type} (b : block v_t) : block v_t :=
  if is_allocated (std_mem b) then mkBlock (std_mem b) true else b.

End MemoryUtil.

Module PoolRun.
Import AtomicStack ClientPool.

(** The pool as its constructor leaves it. *)
Definition constructed (sink : PacketSink) : ClientPool.t :=
  ClientPool.mk sink [] None ∅ [] [].

(** A [mem_pool_] that has never been allocated. *)
Definition unallocated : MemoryUtil.block (StackNode BasicClient.t) :=
  MemoryUtil.mkBlock (mkStdMemory None 0) false.

Inductive run_result : Type :=
| RunRefused
| RunBadAlloc
| RunUseAfterFree
| RunStarted (mem_pool : MemoryUtil.block (StackNode BasicClient.t))
             (pool : ClientPool.t).

(** [run], up to the start of the timer and of the workers: false when
    workers exist, [std::bad_alloc] when the slab cannot be initialised;
    otherwise [clients_stack_.init] writes the cells of the slab.  When
    the block has been freed these are writes into freed memory: the
    behaviour is undefined and the run has no pool to show. *)
Definition run (sizeof_v pagesize : Z)
    (malloc : Z -> option (list (StackNode BasicClient.t)))
    (threads_empty : bool)
    (mem_pool : MemoryUtil.block (StackNode BasicClient.t))
    (max_client_count : Z) (p : ClientPool.t) : run_result :=
  if negb threads_empty then RunRefused
  else
    match MemoryUtil.init sizeof_v pagesize malloc mem_pool max_client_count
    with
    | (false, _) => RunBadAlloc
    | (true, m) =>
        if MemoryUtil.freed m then RunUseAfterFree
        else
          RunStarted m
            (match AtomicStack.init BasicClient.default (MemoryUtil.std_mem m)
             with
             | Some st => with_stack st p
             | None => p
             end)
    end.

End PoolRun.

Module RunScenario.
(** A [malloc] that always succeeds, on cells of 4128 bytes. *)
Definition malloc_ok (bytes : Z)
  : option (list (AtomicStack.StackNode BasicClient.t)) :=
  Some (Scenario.raw_slab (Z.to_nat (bytes / 4128))).

(** A [malloc] that always fails. *)
Definition malloc_null (bytes : Z)
  : option (list (AtomicStack.StackNode BasicClient.t)) := None.
End RunScenario.

Module AcceptScenario.
(** A backlog of two connections, descriptors 5 and 6, in front of the
    answer -1 of [accept]. *)
Definition two_for_one : list ServerPool.accepted :=
  [ServerPool.mkAccepted 5 0 true 1000; ServerPool.mkAccepted 6 0 true 2000;
   ServerPool.mkAccepted (-1) 0 true 0].
End AcceptScenario.

Module WriteScenario.
(** A socket that takes at most two bytes per [send]. *)
Definition send_two_at_most (j : nat) (len : Z) : Z := Z.min 2 len.
End WriteScenario.

(** ** Descriptor accounting *)

Module Descriptors.
Import AtomicStack ClientPool PoolOps.

(** How many slots are bound to the descriptor. *)
Definition bound_to (fd : Z) (p : ClientPool.t) : nat :=
  length (filter (fun n => sfd n = fd) (mem_pool_ p)).

(** Closed so far, or still bound. *)
Definition accounted (fd : Z) (p : ClientPool.t) : nat :=
  (count_close fd (syscalls p) + bound_to fd p)%nat.

(** Whether the operation hands the descriptor to a slot: an [add_client]
    of it that finds the free stack non-empty. *)
Definition admitted (fd : Z) (op : pool_op) (p : ClientPool.t) : nat :=
  match op with
  | OpAddClient _ _ fd' =>
      if bool_decide (fd' = fd) && bool_decide (is_Some (clients_stack_ p))
      then 1%nat else 0%nat
  | _ => 0%nat
  end.

(** The admissions of the descriptor along a script. *)
Fixpoint admitted_run (fd : Z) (ops : list pool_op) (p : ClientPool.t) : nat :=
  match ops with
  | [] => 0%nat
  | op :: rest =>
      (admitted fd op p
       + match pool_step op p with
         | Some q => admitted_run fd rest q
         | None => 0
         end)%nat
  end.

(** The operation neither closes a descriptor that is not bound nor drops
    one without closing it. *)
Definition settles (p q : ClientPool.t) : Prop :=
  forall fd, fd ≠ 0 -> accounted fd q = accounted fd p.

End Descriptors.
(** * Properties *)

(** ** The free stack after [init] *)

Section StackInit.
Import AtomicStack.
Context {ValueType : Type} (dv : ValueType).

Lemma init_cell_chained (data : list (StackNode ValueType)) k :
  (S k < length data)%nat -> chained dv data k ->
  chained dv (fst (init_cell dv (data, Some k) (S k))) (S k)
  /\ length (fst (init_cell dv (data, Some k) (S k))) = length data.
Proof.
  intros Hlen Hch. cbn [init_cell fst]. split.
  - intros i Hi. destruct (decide (i = S k)) as [->|Hne].
    + rewrite list_lookup_insert_eq by lia.
      unfold init_node. by replace (S k - 1)%nat with k by lia.
    + rewrite list_lookup_insert_ne by lia. apply Hch. lia.
  - apply length_insert.
Qed.

Lemma init_loop_chained j : forall (data : list (StackNode ValueType)) k,
  (k + j < length data)%nat -> chained dv data k ->
  exists data',
    foldl (init_cell dv) (data, Some k) (seq (S k) j) = (data', Some (k + j)%nat)
    /\ chained dv data' (k + j) /\ length data' = length data.
Proof.
  induction j as [|j IH]; intros data k Hlen Hch.
  - exists data. rewrite Nat.add_0_r. auto.
  - cbn [seq foldl].
    destruct (init_cell_chained data k) as [Hch' Hlen']; [lia|done|].
    cbn [init_cell fst] in *.
    destruct (IH (<[S k := mkStackNode dv (Z.of_nat (S k)) 0 (Some (S k - 1)%nat)]> data) (S k))
      as (data' & Hrun & Hch'' & Hlen''); [lia|done|].
    exists data'. unfold init_cell at 2. cbn [fst].
    rewrite Hrun. replace (S k + j)%nat with (k + S j)%nat in * by lia.
    split; [done|]. split; [done|]. lia.
Qed.

Lemma init_chained n (slab : list (StackNode ValueType)) :
  length slab = S n ->
  exists data,
    init dv (mkStdMemory (Some slab) (Z.of_nat (S n))) = Some (data, Some n)
    /\ chained dv data n /\ length data = S n.
Proof.
  intros Hlen. unfold init. cbn [ptr_to_mem_slab capacity].
  rewrite Nat2Z.id. replace (S n - 1)%nat with n by lia.
  destruct (init_loop_chained n (<[0%nat := mkStackNode dv 0 0 None]> slab) 0)
    as (data & Hrun & Hch & Hl).
  - rewrite length_insert. lia.
  - intros i Hi. assert (i = 0)%nat as -> by lia.
    rewrite list_lookup_insert_eq by lia. done.
  - exists data. rewrite Hrun. rewrite length_insert in Hl.
    split; [done|]. split; [done|]. lia.
Qed.

Lemma pops_chained k : forall (data : list (StackNode ValueType)),
  chained dv data k ->
  pops (S k) (data, Some k) = (Some <$> rev (seq 0 (S k)), (data, None)).
Proof.
  induction k as [|k IH]; intros data Hch.
  - cbn. rewrite (Hch 0%nat) by lia. done.
  - change (pops (S (S k)) (data, Some (S k)))
      with (let '(r, st1) := pop (data, Some (S k)) in
            let '(rs, st2) := pops (S k) st1 in (r :: rs, st2)).
    unfold pop. cbn [fst snd]. rewrite (Hch (S k)) by lia.
    cbn [init_node ptr_to_next].
    rewrite IH by (intros i Hi; apply Hch; lia).
    rewrite (seq_S (S k) 0), rev_app_distr. done.
Qed.
End StackInit.

(** C7. On a slab of [n >= 1] cells, [init] leaves a stack whose [n] pops
    return the cells in the order n-1, n-2, ..., 0; every cell carries its
    index as [uuid]; the cell popped last (cell 0) has a null link; and the
    pop that follows returns null. *)
Theorem init_pops_descending {ValueType : Type} (dv : ValueType) (n : nat)
    (slab : list (AtomicStack.StackNode ValueType)) :
  (1 <= n)%nat -> length slab = n ->
  exists data,
    AtomicStack.init dv (AtomicStack.mkStdMemory (Some slab) (Z.of_nat n))
      = Some (data, Some (n - 1)%nat)
    /\ AtomicStack.pops n (data, Some (n - 1)%nat)
       = (Some <$> rev (seq 0 n), (data, None))
    /\ (forall i, (i < n)%nat ->
          exists node, data !! i = Some node
                       /\ AtomicStack.uuid node = Z.of_nat i)
    /\ (exists node, data !! 0%nat = Some node
                     /\ AtomicStack.ptr_to_next node = None)
    /\ AtomicStack.pop (data, None) = (None, (data, None)).
Proof.
  intros Hn Hlen. destruct n as [|m]; [lia|].
  destruct (init_chained dv m slab Hlen) as (data & Hinit & Hch & Hl).
  exists data. replace (S m - 1)%nat with m by lia.
  split; [done|]. split; [by apply (pops_chained dv)|].
  split; [|split; [|done]].
  - intros i Hi. exists (init_node dv i). split; [apply Hch; lia|done].
  - exists (init_node dv 0). split; [apply Hch; lia|done].
Qed.

Lemma init_pops_descending_witness :
  exists data,
    AtomicStack.init BasicClient.default
      (AtomicStack.mkStdMemory
         (Some (replicate 3 (AtomicStack.mkStackNode BasicClient.default 7 7 (Some 9%nat))))
         (Z.of_nat 3))
      = Some (data, Some (3 - 1)%nat)
    /\ AtomicStack.pops 3 (data, Some (3 - 1)%nat)
       = (Some <$> rev (seq 0 3), (data, None))
    /\ (forall i, (i < 3)%nat ->
          exists node, data !! i = Some node
                       /\ AtomicStack.uuid node = Z.of_nat i)
    /\ (exists node, data !! 0%nat = Some node
                     /\ AtomicStack.ptr_to_next node = None)
    /\ AtomicStack.pop (data, None) = (None, (data, None)).
Proof.
  apply (init_pops_descending BasicClient.default 3); [lia | reflexivity].
Defined.

(** ** Reclaiming a slot *)

Section Terminate.
Import AtomicStack ClientPool.

Lemma node_sfd_lookup p c node :
  mem_pool_ p !! c = Some node -> node_sfd c p = sfd node.
Proof. unfold node_sfd. by intros ->. Qed.

Lemma node_uuid_lookup p c node :
  mem_pool_ p !! c = Some node -> node_uuid c p = uuid node.
Proof. unfold node_uuid. by intros ->. Qed.

(** Zeroing the descriptor and then linking the cell on [head] rewrites
    the cell in one go. *)
Lemma free_cell (slab : list (StackNode BasicClient.t)) c node head :
  slab !! c = Some node ->
  alter (set_next head) c (alter (set_sfd 0) c slab)
  = <[c := mkStackNode (value node) (uuid node) 0 head]> slab.
Proof.
  intros Hc. apply list_eq. intros i.
  destruct (decide (i = c)) as [->|Hne].
  - rewrite list_lookup_alter, list_lookup_alter, Hc.
    rewrite list_lookup_insert_eq by (by eapply lookup_lt_Some).
    rewrite !decide_True by done. done.
  - rewrite !list_lookup_alter_ne by done.
    by rewrite list_lookup_insert_ne.
Qed.

Lemma terminate_free p c : node_sfd c p = 0 -> terminate c p = p.
Proof. intros H. unfold terminate. by rewrite H. Qed.

Lemma terminate_bound p c node :
  mem_pool_ p !! c = Some node -> sfd node <> 0 ->
  terminate c p
  = mk (packet_sink_ p)
       (<[c := mkStackNode (value node) (uuid node) 0 (clients_stack_ p)]>
          (mem_pool_ p))
       (Some c) (timeout_keys_ p)
       (syscalls p ++ [SysClose (sfd node); SysEpollDel (sfd node)])
       (callbacks p).
Proof.
  intros Hc Hfd. unfold terminate. rewrite (node_sfd_lookup _ _ _ Hc).
  destruct (Z.eqb_spec (sfd node) 0) as [|_]; [done|].
  unfold with_stack, with_node, sys, stack_of, push.
  cbn [fst snd mem_pool_ clients_stack_ packet_sink_ timeout_keys_
       syscalls callbacks].
  rewrite (free_cell _ _ _ _ Hc), <- app_assoc. done.
Qed.
End Terminate.

(** C5. [terminate] on a slot whose descriptor is zero changes nothing; on
    a bound slot it closes the descriptor, removes it from the waiter,
    zeroes the slot's descriptor and pushes the slot on the free stack; a
    second [terminate] on the same slot changes nothing more. *)
Theorem terminate_idempotent (p : ClientPool.t) (c : nat)
    (node : AtomicStack.StackNode BasicClient.t) :
  ClientPool.mem_pool_ p !! c = Some node ->
  (AtomicStack.sfd node = 0 -> ClientPool.terminate c p = p)
  /\ (AtomicStack.sfd node <> 0 ->
      ClientPool.terminate c p
      = ClientPool.mk (ClientPool.packet_sink_ p)
          (<[c := AtomicStack.mkStackNode (AtomicStack.value node)
                    (AtomicStack.uuid node) 0 (ClientPool.clients_stack_ p)]>
             (ClientPool.mem_pool_ p))
          (Some c) (ClientPool.timeout_keys_ p)
          (ClientPool.syscalls p
             ++ [ClientPool.SysClose (AtomicStack.sfd node);
                 ClientPool.SysEpollDel (AtomicStack.sfd node)])
          (ClientPool.callbacks p))
  /\ ClientPool.terminate c (ClientPool.terminate c p)
     = ClientPool.terminate c p.
Proof.
  intros Hc. split; [|split].
  - intros H0. apply terminate_free. by rewrite (node_sfd_lookup _ _ _ Hc).
  - by apply terminate_bound.
  - destruct (decide (AtomicStack.sfd node = 0)) as [H0|Hne].
    + assert (ClientPool.terminate c p = p) as Hfree
        by (apply terminate_free; by rewrite (node_sfd_lookup _ _ _ Hc)).
      by rewrite !Hfree.
    + rewrite (terminate_bound _ _ _ Hc Hne). apply terminate_free.
      unfold ClientPool.node_sfd. cbn [ClientPool.mem_pool_].
      rewrite list_lookup_insert_eq by (by eapply lookup_lt_Some). done.
Qed.

Lemma terminate_idempotent_witness :
  ClientPool.terminate 0 Scenario.one_bound <> Scenario.one_bound
  /\ ClientPool.terminate 0 (ClientPool.terminate 0 Scenario.one_bound)
     = ClientPool.terminate 0 Scenario.one_bound.
Proof.
  split.
  - intros H. apply (f_equal ClientPool.clients_stack_) in H.
    vm_compute in H. discriminate H.
  - eapply (terminate_idempotent Scenario.one_bound 0). vm_compute. reflexivity.
Defined.

(** ** Admission when the free stack is empty *)

Lemma add_client_exhausted ok now fd (p : ClientPool.t) :
  ClientPool.clients_stack_ p = None ->
  ClientPool.add_client ok now fd p = (None, p).
Proof.
  intros H. unfold ClientPool.add_client, AtomicStack.pop, ClientPool.stack_of.
  cbn [snd]. by rewrite H.
Qed.

(** C1. The code at the failing input: the only slot is bound to descriptor
    5, so the free stack is empty.  [add_client 7] returns null and leaves
    the pool as it was: no [close] is issued for descriptor 7.  The
    listener's accept loop drops the null result, so after the whole
    [trigger] the log holds the admission of descriptor 5, the two [accept]
    calls and the [fcntl] on 7, and no [close] of 7. *)
Theorem add_client_exhausted_keeps_descriptor_open :
  ClientPool.clients_stack_ Scenario.one_bound = None
  /\ ClientPool.add_client true 2000 7 Scenario.one_bound
     = (None, Scenario.one_bound)
  /\ ClientPool.syscalls Scenario.one_bound
     = [ClientPool.SysEpollAdd 5 ClientPool.kFlags 0]
  /\ (ClientPool.syscalls ∘ ServerPool.client_pool_) <$>
       ServerPool.trigger
         [ServerPool.mkAccepted 7 0 true 2000;
          ServerPool.mkAccepted (-1) 0 true 2000]
         Scenario.listener EPOLLIN (Scenario.serving Scenario.one_bound)
     = Some [ClientPool.SysEpollAdd 5 ClientPool.kFlags 0;
             ClientPool.SysAccept 3 7;
             ClientPool.SysUnblock 7;
             ClientPool.SysAccept 3 (-1)].
Proof. repeat split; vm_compute; reflexivity. Qed.

(** ** The listener's [trigger] *)

(** C4. The code at the failing input: the event carries both the error and
    the hangup bit.  The [switch] matches neither label, the accept loop
    runs (here it admits descriptor 7 into the free slot) and the listening
    socket 3 is not closed. *)
Theorem listener_trigger_combined_flags_accepts :
  has_flag (Z.lor EPOLLERR EPOLLHUP) EPOLLERR = true
  /\ has_flag (Z.lor EPOLLERR EPOLLHUP) EPOLLHUP = true
  /\ (ClientPool.syscalls ∘ ServerPool.client_pool_) <$>
       ServerPool.trigger
         [ServerPool.mkAccepted 7 0 true 2000;
          ServerPool.mkAccepted (-1) 0 true 2000]
         Scenario.listener (Z.lor EPOLLERR EPOLLHUP)
         (Scenario.serving Scenario.one_slot)
     = Some [ClientPool.SysAccept 3 7;
             ClientPool.SysUnblock 7;
             ClientPool.SysEpollAdd 7 ClientPool.kFlags 0;
             ClientPool.SysAccept 3 (-1)].
Proof. repeat split; vm_compute; reflexivity. Qed.

(** On exactly [EPOLLHUP] or exactly [EPOLLERR] the listening socket is
    closed and [accept] is not called. *)
Lemma listener_trigger_single_flag answers server flags sp :
  flags = EPOLLHUP \/ flags = EPOLLERR ->
  ServerPool.trigger answers server flags sp
  = Some (ServerPool.on_pool
            (ClientPool.sys (ClientPool.SysClose (ServerPool.sfd server))) sp).
Proof. intros [-> | ->]; reflexivity. Qed.

(** An event on the listener with any other value, the readable flag
    combined with hangup included, enters the accept loop. *)
Lemma listener_trigger_other answers server flags sp :
  flags <> EPOLLHUP -> flags <> EPOLLERR ->
  ServerPool.trigger answers server flags sp
  = ServerPool.accept_loop answers server sp.
Proof.
  intros H1 H2. unfold ServerPool.trigger.
  destruct (Z.eqb_spec flags EPOLLHUP); [done|].
  destruct (Z.eqb_spec flags EPOLLERR); [done|]. done.
Qed.

(** ** What a handler's session calls can change *)

Section Handlers.
Import AtomicStack ClientPool.

Lemma run_action_frame c p a :
  packet_sink_ (run_action c p a) = packet_sink_ p
  /\ callbacks (run_action c p a) = callbacks p
  /\ timeout_keys_ (run_action c p a) = timeout_keys_ p.
Proof.
  destruct a; cbn [run_action]; [done|done|].
  unfold terminate. by destruct (node_sfd c p =? 0).
Qed.

Lemma run_actions_frame c acts : forall p,
  packet_sink_ (foldl (run_action c) p acts) = packet_sink_ p
  /\ callbacks (foldl (run_action c) p acts) = callbacks p
  /\ timeout_keys_ (foldl (run_action c) p acts) = timeout_keys_ p.
Proof.
  induction acts as [|a acts IH]; intros p; [done|].
  cbn [foldl]. destruct (IH (run_action c p a)) as (-> & -> & ->).
  apply run_action_frame.
Qed.

(** On a slot whose descriptor is zero the session calls leave the slab
    and the free stack alone. *)
Lemma run_actions_on_free c acts : forall p,
  node_sfd c p = 0 ->
  mem_pool_ (foldl (run_action c) p acts) = mem_pool_ p
  /\ clients_stack_ (foldl (run_action c) p acts) = clients_stack_ p.
Proof.
  induction acts as [|a acts IH]; intros p Hfree; [done|].
  cbn [foldl].
  assert (mem_pool_ (run_action c p a) = mem_pool_ p
          /\ clients_stack_ (run_action c p a) = clients_stack_ p) as [Hm Hs].
  { destruct a; cbn [run_action]; [done|done|]. by rewrite terminate_free. }
  destruct (IH (run_action c p a)) as [-> ->]; [|done].
  unfold node_sfd in *. by rewrite Hm.
Qed.

(** A handler that does not terminate leaves the slab and the free stack
    alone. *)
Lemma run_actions_no_terminate c acts : forall p,
  ActTerminate ∉ acts ->
  mem_pool_ (foldl (run_action c) p acts) = mem_pool_ p
  /\ clients_stack_ (foldl (run_action c) p acts) = clients_stack_ p.
Proof.
  induction acts as [|a acts IH]; intros p Hno; [done|].
  cbn [foldl]. apply not_elem_of_cons in Hno as [Ha Hno].
  destruct (IH (run_action c p a) Hno) as [-> ->].
  by destruct a.
Qed.

Lemma notify_frame c cb p :
  packet_sink_ (notify c cb p) = packet_sink_ p
  /\ callbacks (notify c cb p) = callbacks p ++ [cb]
  /\ timeout_keys_ (notify c cb p) = timeout_keys_ p.
Proof.
  unfold notify.
  destruct (run_actions_frame c
              (react (packet_sink_ p) (callbacks (record cb p)))
              (record cb p)) as (-> & -> & ->). done.
Qed.

Lemma notify_on_free c cb p :
  node_sfd c p = 0 ->
  mem_pool_ (notify c cb p) = mem_pool_ p
  /\ clients_stack_ (notify c cb p) = clients_stack_ p.
Proof.
  intros Hfree. unfold notify.
  destruct (run_actions_on_free c
              (react (packet_sink_ p) (callbacks (record cb p)))
              (record cb p)) as [-> ->]; done.
Qed.
End Handlers.

(** ** The two callback variants of [terminate] *)

Section TerminateVariants.
Import AtomicStack ClientPool.

Lemma zeroed_slot p c node call1 call2 :
  mem_pool_ p !! c = Some node ->
  let p3 := with_node c (set_sfd 0) (sys call2 (sys call1 p)) in
  node_sfd c p3 = 0 /\ node_uuid c p3 = uuid node.
Proof.
  intros Hc. unfold node_sfd, node_uuid, with_node, sys.
  cbn [mem_pool_]. rewrite list_lookup_alter, decide_True, Hc by done. done.
Qed.

Ltac reclaim_variant node Hc Hfd :=
  rewrite (node_sfd_lookup _ _ _ Hc);
  destruct (Z.eqb_spec (sfd node) 0) as [|_]; [done|];
  match goal with
  | |- context [with_node ?c (set_sfd 0) (sys ?c2 (sys ?c1 ?p))] =>
      destruct (zeroed_slot p c _ c1 c2 Hc) as [Hz Hu];
      set (p3 := with_node c (set_sfd 0) (sys c2 (sys c1 p))) in *
  end.

Lemma terminate_on_close_free p c :
  node_sfd c p = 0 -> terminate_on_close c p = p.
Proof. intros H. unfold terminate_on_close. by rewrite H. Qed.

Lemma terminate_on_error_free p c :
  node_sfd c p = 0 -> terminate_on_error c p = p.
Proof. intros H. unfold terminate_on_error. by rewrite H. Qed.

Lemma terminate_on_close_bound p c node :
  mem_pool_ p !! c = Some node -> sfd node <> 0 ->
  callbacks (terminate_on_close c p)
  = callbacks p ++ (if enable_client_closed (packet_sink_ p)
                    then [CbClosed (uuid node)] else [])
  /\ mem_pool_ (terminate_on_close c p)
     = <[c := mkStackNode (value node) (uuid node) 0 (clients_stack_ p)]>
         (mem_pool_ p)
  /\ clients_stack_ (terminate_on_close c p) = Some c
  /\ timeout_keys_ (terminate_on_close c p) = timeout_keys_ p.
Proof.
  intros Hc Hfd. unfold terminate_on_close. reclaim_variant node Hc Hfd.
  unfold have_client_closed. change (packet_sink_ p3) with (packet_sink_ p).
  rewrite Hu. destruct (enable_client_closed (packet_sink_ p)).
  - destruct (notify_frame c (CbClosed (uuid node)) p3) as (_ & Hcb & Hk).
    destruct (notify_on_free c (CbClosed (uuid node)) p3 Hz) as [Hm Hs].
    unfold with_stack, push, stack_of. cbn [fst snd mem_pool_ clients_stack_
      callbacks timeout_keys_]. rewrite Hcb, Hk, Hm, Hs.
    split; [done|]. split; [|done]. by apply free_cell.
  - unfold with_stack, push, stack_of. cbn [fst snd mem_pool_ clients_stack_
      callbacks timeout_keys_]. rewrite app_nil_r.
    split; [done|]. split; [|done]. by apply free_cell.
Qed.

Lemma terminate_on_error_bound p c node :
  mem_pool_ p !! c = Some node -> sfd node <> 0 ->
  callbacks (terminate_on_error c p)
  = callbacks p ++ (if enable_client_error (packet_sink_ p)
                    then [CbError (uuid node)] else [])
  /\ mem_pool_ (terminate_on_error c p)
     = <[c := mkStackNode (value node) (uuid node) 0 (clients_stack_ p)]>
         (mem_pool_ p)
  /\ clients_stack_ (terminate_on_error c p) = Some c
  /\ timeout_keys_ (terminate_on_error c p) = timeout_keys_ p.
Proof.
  intros Hc Hfd. unfold terminate_on_error. reclaim_variant node Hc Hfd.
  unfold have_client_error. change (packet_sink_ p3) with (packet_sink_ p).
  rewrite Hu. destruct (enable_client_error (packet_sink_ p)).
  - destruct (notify_frame c (CbError (uuid node)) p3) as (_ & Hcb & Hk).
    destruct (notify_on_free c (CbError (uuid node)) p3 Hz) as [Hm Hs].
    unfold with_stack, push, stack_of. cbn [fst snd mem_pool_ clients_stack_
      callbacks timeout_keys_]. rewrite Hcb, Hk, Hm, Hs.
    split; [done|]. split; [|done]. by apply free_cell.
  - unfold with_stack, push, stack_of. cbn [fst snd mem_pool_ clients_stack_
      callbacks timeout_keys_]. rewrite app_nil_r.
    split; [done|]. split; [|done]. by apply free_cell.
Qed.
End TerminateVariants.

(** ** Hangup and peer half-close *)

(** Whenever the closed handler does not itself terminate the session, a
    hangup event on a bound slot calls it twice: once from [trigger] and
    once more from [terminate_on_close]. *)
Lemma trigger_hangup_closed_twice env c flags (p : ClientPool.t) node :
  has_flag flags EPOLLERR = false ->
  has_flag flags EPOLLHUP || has_flag flags EPOLLRDHUP = true ->
  ClientPool.mem_pool_ p !! c = Some node ->
  AtomicStack.sfd node <> 0 ->
  ClientPool.enable_client_closed (ClientPool.packet_sink_ p) = true ->
  ClientPool.ActTerminate ∉
    ClientPool.react (ClientPool.packet_sink_ p)
      (ClientPool.callbacks p ++ [ClientPool.CbClosed (AtomicStack.uuid node)]) ->
  exists p',
    ClientPool.trigger env c flags p = Some p'
    /\ ClientPool.callbacks p'
       = ClientPool.callbacks p
         ++ [ClientPool.CbClosed (AtomicStack.uuid node);
             ClientPool.CbClosed (AtomicStack.uuid node)]
    /\ ClientPool.clients_stack_ p' = Some c
    /\ ClientPool.node_sfd c p' = 0.
Proof.
  intros Herr Hhup Hc Hfd Hen Hno. unfold ClientPool.trigger.
  rewrite Herr, Hhup. eexists. split; [reflexivity|].
  set (p1 := ClientPool.have_client_closed c p).
  assert (ClientPool.mem_pool_ p1 = ClientPool.mem_pool_ p
          /\ ClientPool.callbacks p1
             = ClientPool.callbacks p ++ [ClientPool.CbClosed (AtomicStack.uuid node)]
          /\ ClientPool.packet_sink_ p1 = ClientPool.packet_sink_ p)
    as (Hm & Hcb & Hsink).
  { subst p1. unfold ClientPool.have_client_closed. rewrite Hen.
    rewrite (node_uuid_lookup _ _ _ Hc).
    destruct (notify_frame c (ClientPool.CbClosed (AtomicStack.uuid node)) p)
      as (Hs & Hcb & _).
    split; [|done]. unfold ClientPool.notify.
    exact (proj1 (run_actions_no_terminate c _
                    (ClientPool.record
                       (ClientPool.CbClosed (AtomicStack.uuid node)) p) Hno)). }
  destruct (terminate_on_close_bound p1 c node) as (Hcb' & Hm' & Hs' & _);
    [by rewrite Hm|done|].
  rewrite Hcb', Hcb, Hsink, Hen, <- app_assoc. split; [done|]. split; [done|].
  unfold ClientPool.node_sfd. rewrite Hm', Hm.
  rewrite list_lookup_insert_eq by (by eapply lookup_lt_Some). done.
Qed.

(** C3. The code at the failing input, with the handlers of the sample echo
    server.  One client connects on descriptor 5, sends "hello" and
    disconnects: the sink receives accepted, data_received, closed, closed.
    A single hangup event on the freshly admitted connection gives
    accepted, closed, closed. *)
Theorem hangup_fires_closed_twice :
  ClientPool.callbacks <$> EchoScenario.run
  = Some [ClientPool.CbAccepted 0;
          ClientPool.CbDataReceived 0
            (Scenario.hello ++ replicate 4092 Byte.x00) 5;
          ClientPool.CbClosed 0;
          ClientPool.CbClosed 0]
  /\ ClientPool.callbacks <$>
       ClientPool.trigger EchoScenario.env_disconnect 0 EPOLLHUP
         Scenario.one_bound
     = Some [ClientPool.CbAccepted 0;
             ClientPool.CbClosed 0;
             ClientPool.CbClosed 0]
  /\ ClientPool.clients_stack_ <$>
       ClientPool.trigger EchoScenario.env_disconnect 0 EPOLLHUP
         Scenario.one_bound
     = Some (Some 0%nat).
Proof. repeat split; vm_compute; reflexivity. Qed.

(** ** Readable events *)

Section ReadReady.
Import AtomicStack ClientPool.

Lemma terminate_on_close_spec q c :
  callbacks (terminate_on_close c q)
  = callbacks q ++ (if node_sfd c q =? 0 then []
                    else if enable_client_closed (packet_sink_ q)
                         then [CbClosed (node_uuid c q)] else [])
  /\ node_sfd c (terminate_on_close c q) = 0.
Proof.
  destruct (Z.eqb_spec (node_sfd c q) 0) as [Hz|Hnz].
  - rewrite terminate_on_close_free, app_nil_r by done. done.
  - unfold node_sfd, node_uuid in *.
    destruct (mem_pool_ q !! c) as [node|] eqn:Hc; [|done].
    destruct (terminate_on_close_bound q c node Hc Hnz) as (-> & -> & _).
    split; [done|].
    rewrite list_lookup_insert_eq by (by eapply lookup_lt_Some). done.
Qed.

Lemma terminate_on_error_spec q c :
  callbacks (terminate_on_error c q)
  = callbacks q ++ (if node_sfd c q =? 0 then []
                    else if enable_client_error (packet_sink_ q)
                         then [CbError (node_uuid c q)] else [])
  /\ node_sfd c (terminate_on_error c q) = 0.
Proof.
  destruct (Z.eqb_spec (node_sfd c q) 0) as [Hz|Hnz].
  - rewrite terminate_on_error_free, app_nil_r by done. done.
  - unfold node_sfd, node_uuid in *.
    destruct (mem_pool_ q !! c) as [node|] eqn:Hc; [|done].
    destruct (terminate_on_error_bound q c node Hc Hnz) as (-> & -> & _).
    split; [done|].
    rewrite list_lookup_insert_eq by (by eapply lookup_lt_Some). done.
Qed.

(** [read] touches the buffer of the slot and nothing else. *)
Lemma client_read_frame r c q :
  node_sfd c (client_read r c q) = node_sfd c q
  /\ node_uuid c (client_read r c q) = node_uuid c q.
Proof.
  unfold node_sfd, node_uuid, client_read, with_node. cbn [mem_pool_].
  rewrite list_lookup_alter, decide_True by done.
  by destruct (mem_pool_ q !! c).
Qed.

Lemma client_read_buff r c q node :
  mem_pool_ q !! c = Some node -> 0 < BasicClient.recv_ret r ->
  node_buff c (client_read r c q)
  = BasicClient.recv_bytes r
    ++ drop (length (BasicClient.recv_bytes r))
            (BasicClient.message_buff_ (value node)).
Proof.
  intros Hc Hpos. unfold node_buff, client_read, with_node. cbn [mem_pool_].
  rewrite list_lookup_alter, decide_True, Hc by done.
  cbn. by destruct (Z.ltb_spec 0 (BasicClient.recv_ret r)); [|lia].
Qed.

Lemma timer_set_lookup c now p :
  timeout_keys_ (timer_set c now p) !! c = Some now.
Proof. unfold timer_set, TimeoutTimer.set. cbn. apply lookup_insert_eq. Qed.
End ReadReady.

(** C9. An event with the readable flag and none of error, hangup, peer
    half-close: after the priority phase (if that flag is set too) the pool
    refreshes the timestamp of the connection and enters the read loop.  In
    every pass of the loop, from any pool state [q]:
    - [recv] = -1 with [EAGAIN] ends the loop; descriptor, free stack,
      callbacks and system calls are as before the pass;
    - [recv] = 0 ends the loop in [terminate_on_close]; a bound slot is
      freed and the sink receives closed;
    - [recv] = -1 otherwise ends the loop in [terminate_on_error]; a bound
      slot is freed and the sink receives error;
    - [recv] = k > 0 hands the buffer, which starts with the bytes just
      received, and k to data_received, and only then reads again. *)
Theorem readable_dispatch (env : ClientPool.trigger_env) (c : nat) (flags : Z)
    (p pq : ClientPool.t) :
  has_flag flags EPOLLERR = false ->
  has_flag flags EPOLLHUP = false ->
  has_flag flags EPOLLRDHUP = false ->
  has_flag flags EPOLLIN = true ->
  (if has_flag flags EPOLLPRI
   then ClientPool.pri_read_ready_triggered (ClientPool.oobs env) c
          (ClientPool.timer_set c (ClientPool.now_pri env) p)
   else Some p) = Some pq ->
  ClientPool.trigger env c flags p
  = ClientPool.read_ready_triggered (ClientPool.reads env) c
      (ClientPool.timer_set c (ClientPool.now_in env) pq)
  /\ ClientPool.timeout_keys_
       (ClientPool.timer_set c (ClientPool.now_in env) pq) !! c
     = Some (ClientPool.now_in env)
  /\ forall (q : ClientPool.t) (r : BasicClient.recv_result)
            (rest : list BasicClient.recv_result),
       let q1 := ClientPool.client_read r c q in
       let n := BasicClient.recv_ret r in
       (n = -1 -> BasicClient.recv_errno r = EAGAIN ->
          ClientPool.read_ready_triggered (r :: rest) c q = Some q1
          /\ ClientPool.node_sfd c q1 = ClientPool.node_sfd c q
          /\ ClientPool.clients_stack_ q1 = ClientPool.clients_stack_ q
          /\ ClientPool.callbacks q1 = ClientPool.callbacks q
          /\ ClientPool.syscalls q1 = ClientPool.syscalls q)
       /\ (n = 0 ->
           ClientPool.read_ready_triggered (r :: rest) c q
           = Some (ClientPool.terminate_on_close c q1)
           /\ ClientPool.callbacks (ClientPool.terminate_on_close c q1)
              = ClientPool.callbacks q
                ++ (if ClientPool.node_sfd c q =? 0 then []
                    else if ClientPool.enable_client_closed
                              (ClientPool.packet_sink_ q)
                         then [ClientPool.CbClosed (ClientPool.node_uuid c q)]
                         else [])
           /\ ClientPool.node_sfd c (ClientPool.terminate_on_close c q1) = 0)
       /\ (n = -1 -> BasicClient.recv_errno r <> EAGAIN ->
           ClientPool.read_ready_triggered (r :: rest) c q
           = Some (ClientPool.terminate_on_error c q1)
           /\ ClientPool.callbacks (ClientPool.terminate_on_error c q1)
              = ClientPool.callbacks q
                ++ (if ClientPool.node_sfd c q =? 0 then []
                    else if ClientPool.enable_client_error
                              (ClientPool.packet_sink_ q)
                         then [ClientPool.CbError (ClientPool.node_uuid c q)]
                         else [])
           /\ ClientPool.node_sfd c (ClientPool.terminate_on_error c q1) = 0)
       /\ (0 < n ->
           let q2 := ClientPool.have_client_data_received c
                       (ClientPool.node_buff c q1) n q1 in
           ClientPool.read_ready_triggered (r :: rest) c q
           = ClientPool.read_ready_triggered rest c q2
           /\ ClientPool.callbacks q2
              = ClientPool.callbacks q
                ++ (if ClientPool.enable_client_data_received
                         (ClientPool.packet_sink_ q)
                    then [ClientPool.CbDataReceived (ClientPool.node_uuid c q)
                            (ClientPool.node_buff c q1) n]
                    else [])
           /\ forall node, ClientPool.mem_pool_ q !! c = Some node ->
                ClientPool.node_buff c q1
                = BasicClient.recv_bytes r
                  ++ drop (length (BasicClient.recv_bytes r))
                          (BasicClient.message_buff_ (AtomicStack.value node))).
Proof.
  intros Herr Hhup Hrd Hin Hpri. split; [|split].
  - unfold ClientPool.trigger. by rewrite Herr, Hhup, Hrd, Hpri, Hin.
  - apply timer_set_lookup.
  - intros q r rest. cbv zeta.
    destruct (client_read_frame r c q) as [Hfd Hu].
    cbn [ClientPool.read_ready_triggered].
    set (q1 := ClientPool.client_read r c q) in *.
    split; [|split; [|split]].
    + intros Hn He. rewrite Hn, He. done.
    + intros Hn. rewrite Hn. cbn.
      destruct (terminate_on_close_spec q1 c) as [-> ->].
      by rewrite Hfd, Hu.
    + intros Hn Hne. rewrite Hn. cbn.
      destruct (Z.eqb_spec (BasicClient.recv_errno r) EAGAIN) as [|_]; [done|].
      destruct (terminate_on_error_spec q1 c) as [-> ->].
      by rewrite Hfd, Hu.
    + intros Hpos.
      destruct (Z.eqb_spec (BasicClient.recv_ret r) (-1)) as [|_]; [lia|].
      destruct (Z.eqb_spec (BasicClient.recv_ret r) 0) as [|_]; [lia|].
      cbn [andb]. split; [done|]. split.
      * unfold ClientPool.have_client_data_received.
        change (ClientPool.packet_sink_ q1) with (ClientPool.packet_sink_ q).
        rewrite Hu.
        destruct (ClientPool.enable_client_data_received _).
        -- by destruct (notify_frame c
                          (ClientPool.CbDataReceived (ClientPool.node_uuid c q)
                             (ClientPool.node_buff c q1)
                             (BasicClient.recv_ret r)) q1) as (_ & -> & _).
        -- by rewrite app_nil_r.
      * intros node Hc. by apply client_read_buff.
Qed.

Lemma readable_dispatch_witness :
  ClientPool.trigger EchoScenario.env_hello 0 EPOLLIN Scenario.one_bound
  = ClientPool.read_ready_triggered
      (ClientPool.reads EchoScenario.env_hello) 0
      (ClientPool.timer_set 0 (ClientPool.now_in EchoScenario.env_hello)
         Scenario.one_bound).
Proof.
  apply (readable_dispatch EchoScenario.env_hello 0 EPOLLIN
           Scenario.one_bound Scenario.one_bound); reflexivity.
Defined.

(** ** [write] *)

Section Write.
Variable send : nat -> Z -> Z.

(** What is left when the loop ends never exceeds what it started with. *)
Lemma write_loop_le i size :
  0 <= size -> BasicClient.write_loop send i size <= size.
Proof.
  funelim (BasicClient.write_loop send i size); intros Hsz; [lia|lia|].
  destruct (decide (0 <= size - send i size)) as [Hge|Hlt].
  - match goal with IH : _ -> _ <= _ |- _ => specialize (IH Hge) end. lia.
  - assert (BasicClient.write_loop send (S i) (size - send i size)
            = size - send i size) as ->; [|lia].
    simp write_loop. destruct (decide (0 < size - send i size)); [lia|done].
Qed.

(** The loop is left with nothing to send, or on a [send] that returned
    zero or less for what was left. *)
Lemma write_loop_exit i size :
  0 <= size ->
  (forall j len, 0 < len -> send j len <= len) ->
  0 <= BasicClient.write_loop send i size
  /\ (BasicClient.write_loop send i size = 0
      \/ exists j, send j (BasicClient.write_loop send i size) <= 0).
Proof.
  funelim (BasicClient.write_loop send i size); intros Hsz Hsend.
  - split; [lia|]. left. lia.
  - split; [lia|]. right. by exists i.
  - match goal with IH : _ -> _ -> _ /\ _ |- _ => apply IH; [|done] end.
    specialize (Hsend i size). lia.
Qed.
End Write.

Section WriteTrace.
Variable send : nat -> Z -> Z.

Lemma delivered_take_cons j n (taken : list Z) :
  delivered (take (S j) (n :: taken)) = n + delivered (take j taken).
Proof. reflexivity. Qed.

(** The run of the loop from call [i] on: the values of the calls that
    took bytes, each made on what the calls before it left over, up to the
    first point where nothing is left or a call takes nothing. *)
Lemma write_loop_trace i size :
  0 <= size ->
  (forall j len, 0 < len -> send j len <= len) ->
  exists taken : list Z,
    size - BasicClient.write_loop send i size = delivered taken
    /\ 0 <= delivered taken <= size
    /\ (forall j n, taken !! j = Some n ->
          0 < size - delivered (take j taken)
          /\ n = send (i + j) (size - delivered (take j taken))
          /\ 0 < n)
    /\ (delivered taken = size
        \/ send (i + length taken) (size - delivered taken) <= 0).
Proof.
  funelim (BasicClient.write_loop send i size); intros Hsz Hsend.
  - exists []. cbn. split; [lia|]. split; [lia|]. split; [done|]. left. lia.
  - exists []. cbn. split; [lia|]. split; [lia|]. split; [done|]. right.
    by rewrite Nat.add_0_r, Z.sub_0_r.
  - pose proof (Hsend i size ltac:(lia)) as Hle.
    match goal with
    | IH : _ -> _ -> exists _, _ |- _ =>
        destruct (IH ltac:(lia) Hsend) as (taken & Hsum & Hrange & Hcalls & Hexit)
    end.
    exists (send i size :: taken).
    change (delivered (send i size :: taken))
      with (send i size + delivered taken).
    split; [lia|]. split; [lia|]. split.
    + intros [|j] m Hj.
      * cbn in Hj. injection Hj as <-. cbn [take delivered foldr].
        rewrite Nat.add_0_r, Z.sub_0_r. lia.
      * cbn in Hj. rewrite delivered_take_cons.
        destruct (Hcalls j m Hj) as (Hpos & Hm & Hn).
        replace (size - (send i size + delivered (take j taken)))
          with (size - send i size - delivered (take j taken)) by lia.
        replace (i + S j)%nat with (S i + j)%nat by lia. done.
    + destruct Hexit as [Hall|Hfail]; [left; lia|right].
      cbn [length].
      replace (size - (send i size + delivered taken))
        with (size - send i size - delivered taken) by lia.
      by replace (i + S (length taken))%nat with (S i + length taken)%nat by lia.
Qed.
End WriteTrace.

(** C10. For a size that is not negative, and a [send] that never reports
    more bytes than it was asked to send, the session's [write] returns the
    number of bytes it has handed to the socket: the sum of what its calls
    of [send] returned.  The calls are made one after the other, each on
    the bytes the calls before it left over, and each of them took at least
    one byte; the loop ends when nothing is left, or at the first call that
    returns zero or less, which is not counted.  So the result lies between
    0 and the size, also when a [send] fails. *)
Theorem write_returns_delivered_count (send : nat -> Z -> Z) (size : Z) :
  0 <= size ->
  (forall j len, 0 < len -> send j len <= len) ->
  exists taken : list Z,
    ClientSession.write send size = delivered taken
    /\ 0 <= delivered taken <= size
    /\ (forall j n, taken !! j = Some n ->
          0 < size - delivered (take j taken)
          /\ n = send j (size - delivered (take j taken))
          /\ 0 < n)
    /\ (delivered taken = size
        \/ send (length taken) (size - delivered taken) <= 0).
Proof.
  intros Hsz Hsend. unfold ClientSession.write, BasicClient.write.
  exact (write_loop_trace send 0 size Hsz Hsend).
Qed.

Lemma write_returns_delivered_count_witness :
  ClientSession.write Scenario.send_three_then_fail 5 = 3.
Proof.
  destruct (write_returns_delivered_count Scenario.send_three_then_fail 5)
    as (taken & -> & _ & Hcalls & Hexit).
  - lia.
  - intros j len Hlen. unfold Scenario.send_three_then_fail.
    destruct (j =? 0)%nat; lia.
  - destruct taken as [|n [|m taken]].
    + destruct Hexit as [Hall|Hfail]; [done|]. vm_compute in Hfail. done.
    + destruct (Hcalls 0%nat n eq_refl) as (_ & -> & _). reflexivity.
    + destruct (Hcalls 0%nat n eq_refl) as (_ & Hn & _).
      destruct (Hcalls 1%nat m eq_refl) as (_ & Hm & Hpos).
      cbn in Hn, Hm. subst n. vm_compute in Hm. subst m. lia.
Defined.

(** ** The reaper's pass *)

Section Prune.
Import TimeoutTimer.
Variables (interval : Z) (now_at : nat -> Z).

Lemma elem_of_collect entries k :
  k ∈ collect interval now_at entries
  <-> exists then_, (k, then_) ∈ entries
                    /\ interval < time_delta (now_at k) then_.
Proof.
  induction entries as [|[key then_] rest IH]; cbn [collect].
  - split; [by intros ?%elem_of_nil|]. by intros (? & ?%elem_of_nil & _).
  - destruct (Z.ltb_spec interval (time_delta (now_at key) then_)) as [Hlt|Hge].
    + rewrite elem_of_cons, IH. split.
      * intros [-> | (t & Hin & Ht)].
        -- exists then_. split; [by left|done].
        -- exists t. split; [by right|done].
      * intros (t & [Heq | Hin]%elem_of_cons & Ht).
        -- injection Heq as -> ->. by left.
        -- right. by exists t.
    + rewrite IH. split.
      * intros (t & Hin & Ht). exists t. split; [by right|done].
      * intros (t & [Heq | Hin]%elem_of_cons & Ht).
        -- injection Heq as -> ->. lia.
        -- by exists t.
Qed.

Lemma collect_sublist entries :
  sublist (collect interval now_at entries) entries.*1.
Proof.
  induction entries as [|[key then_] rest IH]; cbn [collect]; [done|].
  destruct (interval <? time_delta (now_at key) then_); cbn.
  - by apply sublist_skip.
  - by apply sublist_cons.
Qed.

Lemma erase_all_lookup timed_out : forall (keys : gmap nat Z) k,
  erase_all timed_out keys !! k
  = if decide (k ∈ timed_out) then None else keys !! k.
Proof.
  unfold erase_all.
  induction timed_out as [|x xs IH]; intros keys k; cbn [foldl].
  - by rewrite decide_False by apply not_elem_of_nil.
  - rewrite IH.
    destruct (decide (k ∈ xs)) as [Hin|Hnin].
    + by rewrite decide_True by (by right).
    + destruct (decide (k = x)) as [->|Hne].
      * rewrite decide_True by (by left). apply lookup_delete_eq.
      * rewrite decide_False by (by intros [?|?]%elem_of_cons).
        by apply lookup_delete_ne.
Qed.
End Prune.

(** The [int] holds the truncated millisecond count itself for every idle
    time below 2^31 ms. *)
Lemma time_delta_exact now then_ :
  0 <= now - then_ -> (now - then_) / 1000000 < 2 ^ 31 ->
  TimeoutTimer.time_delta now then_ = (now - then_) / 1000000.
Proof.
  intros Hge Hlt. unfold TimeoutTimer.time_delta, to_int.
  rewrite Z.quot_div_nonneg by lia.
  assert (0 <= (now - then_) / 1000000) by (apply Z.div_pos; lia).
  rewrite Z.mod_small; lia.
Qed.

(** What one pass returns and what it leaves in the map. *)
Lemma prune_pass_spec (timeout_interval : Z) (now_at : nat -> Z)
    (keys : gmap nat Z) :
  let pass := TimeoutTimer.prune_timed_out_keys timeout_interval now_at keys in
  (forall k, k ∈ fst pass <->
             (exists then_, keys !! k = Some then_
                /\ timeout_interval < TimeoutTimer.time_delta (now_at k) then_))
  /\ NoDup (fst pass)
  /\ (forall k, snd pass !! k
                = match keys !! k with
                  | Some then_ =>
                      if timeout_interval <? TimeoutTimer.time_delta (now_at k) then_
                      then None else Some then_
                  | None => None
                  end).
Proof.
  cbv zeta. unfold TimeoutTimer.prune_timed_out_keys. cbn [fst snd].
  assert (forall k,
    k ∈ TimeoutTimer.collect timeout_interval now_at (map_to_list keys) <->
    exists then_, keys !! k = Some then_
      /\ timeout_interval < TimeoutTimer.time_delta (now_at k) then_) as Hout.
  { intros k. rewrite elem_of_collect.
    split; intros (t & Hin & Ht); exists t; split; try done;
      by apply elem_of_map_to_list. }
  split; [done|]. split.
  - apply (sublist_NoDup _ (map_to_list keys).*1).
    + apply NoDup_fst_map_to_list.
    + apply collect_sublist.
  - intros k. rewrite erase_all_lookup.
    destruct (keys !! k) as [t|] eqn:Hk.
    + destruct (Z.ltb_spec timeout_interval
                  (TimeoutTimer.time_delta (now_at k) t)) as [Hlt|Hge].
      * rewrite decide_True; [done|]. apply Hout. by exists t.
      * rewrite decide_False; [done|]. intros (t' & Ht' & Hlt)%Hout.
        rewrite Hk in Ht'. injection Ht' as <-. lia.
    + by destruct (decide _).
Qed.

(** C8. One pass of the reaper over any map and interval returns, each
    once, exactly the keys whose elapsed milliseconds ([time_delta]: the
    clock reading taken at the entry minus its timestamp, in whole
    milliseconds, as the [int] the code compares) are strictly greater than
    the interval; it removes exactly these entries and leaves the others as
    they were; in particular an entry whose elapsed milliseconds equal the
    interval stays, with its timestamp.  The callback receives the returned
    keys (and is not called when there are none).  For an idle time below
    2^31 ms, [time_delta] is the idle time in whole milliseconds. *)
Theorem prune_removes_exactly_expired (timeout_interval : Z)
    (now_at : nat -> Z) (keys : gmap nat Z) :
  let pass := TimeoutTimer.prune_timed_out_keys timeout_interval now_at keys in
  (forall k, k ∈ fst pass <->
             (exists then_, keys !! k = Some then_
                /\ timeout_interval < TimeoutTimer.time_delta (now_at k) then_))
  /\ NoDup (fst pass)
  /\ (forall k, snd pass !! k
                = match keys !! k with
                  | Some then_ =>
                      if timeout_interval <? TimeoutTimer.time_delta (now_at k) then_
                      then None else Some then_
                  | None => None
                  end)
  /\ (forall k then_, keys !! k = Some then_ ->
        TimeoutTimer.time_delta (now_at k) then_ = timeout_interval ->
        (k ∉ fst pass) /\ snd pass !! k = Some then_)
  /\ TimeoutTimer.do_run_pass true timeout_interval now_at keys
     = Some (snd pass, match fst pass with
                       | [] => None
                       | _ :: _ => Some (fst pass)
                       end)
  /\ (forall k then_, keys !! k = Some then_ ->
        0 <= now_at k - then_ -> (now_at k - then_) / 1000000 < 2 ^ 31 ->
        TimeoutTimer.time_delta (now_at k) then_
        = (now_at k - then_) / 1000000).
Proof.
  intros pass.
  destruct (prune_pass_spec timeout_interval now_at keys) as (Hout & Hnd & Hkeep).
  fold pass in Hout, Hnd, Hkeep.
  split; [done|]. split; [done|]. split; [done|]. split; [|split].
  - intros k t Hk Heq. split.
    + intros (t' & Ht' & Hlt)%Hout. rewrite Hk in Ht'.
      injection Ht' as <-. lia.
    + rewrite Hkeep, Hk.
      destruct (Z.ltb_spec timeout_interval
                  (TimeoutTimer.time_delta (now_at k) t)); [lia|done].
  - reflexivity.
  - intros k t _. apply time_delta_exact.
Qed.

Lemma prune_removes_exactly_expired_witness :
  1%nat ∈ fst (TimeoutTimer.prune_timed_out_keys 100 (fun _ => 500000000)
             Scenario.three_idle)
  /\ (2%nat ∉ fst (TimeoutTimer.prune_timed_out_keys 100 (fun _ => 500000000)
                      Scenario.three_idle))
  /\ snd (TimeoutTimer.prune_timed_out_keys 100 (fun _ => 500000000)
           Scenario.three_idle) !! 2%nat = Some 400000000.
Proof.
  pose proof (prune_removes_exactly_expired 100 (fun _ => 500000000)
                Scenario.three_idle) as (Hout & _ & _ & Hedge & _).
  split.
  - apply Hout. exists 399000000. split; [reflexivity|]. vm_compute. reflexivity.
  - apply (Hedge 2%nat 400000000); reflexivity.
Defined.

(** ** The timeout map and termination *)

Section TimeoutEntries.
Import ClientPool.

Lemma terminate_keys c p : timeout_keys_ (terminate c p) = timeout_keys_ p.
Proof. unfold terminate. by destruct (node_sfd c p =? 0). Qed.

Lemma terminate_on_close_keys c p :
  timeout_keys_ (terminate_on_close c p) = timeout_keys_ p.
Proof.
  unfold terminate_on_close. destruct (node_sfd c p =? 0); [done|].
  cbn [with_stack timeout_keys_]. unfold have_client_closed.
  destruct (enable_client_closed _); [|done].
  by destruct (notify_frame c
                 (CbClosed (node_uuid c (with_node c (AtomicStack.set_sfd 0)
                    (sys (SysEpollDel (node_sfd c p))
                       (sys (SysClose (node_sfd c p)) p)))))
                 (with_node c (AtomicStack.set_sfd 0)
                    (sys (SysEpollDel (node_sfd c p))
                       (sys (SysClose (node_sfd c p)) p))))
    as (_ & _ & ->).
Qed.

Lemma terminate_on_error_keys c p :
  timeout_keys_ (terminate_on_error c p) = timeout_keys_ p.
Proof.
  unfold terminate_on_error. destruct (node_sfd c p =? 0); [done|].
  cbn [with_stack timeout_keys_]. unfold have_client_error.
  destruct (enable_client_error _); [|done].
  by destruct (notify_frame c
                 (CbError (node_uuid c (with_node c (AtomicStack.set_sfd 0)
                    (sys (SysEpollDel (node_sfd c p))
                       (sys (SysClose (node_sfd c p)) p)))))
                 (with_node c (AtomicStack.set_sfd 0)
                    (sys (SysEpollDel (node_sfd c p))
                       (sys (SysClose (node_sfd c p)) p))))
    as (_ & _ & ->).
Qed.

Lemma have_client_keys c p :
  timeout_keys_ (have_client_accepted c p) = timeout_keys_ p
  /\ timeout_keys_ (have_client_closed c p) = timeout_keys_ p
  /\ (forall data size,
        timeout_keys_ (have_client_data_received c data size p)
        = timeout_keys_ p)
  /\ (forall oob,
        timeout_keys_ (have_client_oob_received c oob p) = timeout_keys_ p).
Proof.
  unfold have_client_accepted, have_client_closed, have_client_data_received,
    have_client_oob_received.
  repeat split; intros;
    match goal with |- context [if ?b then _ else _] => destruct b end;
    try done;
    match goal with
    | |- timeout_keys_ (notify ?c ?cb ?p) = _ =>
        by destruct (notify_frame c cb p) as (_ & _ & ->)
    end.
Qed.

Lemma read_ready_keys c reads : forall p p',
  read_ready_triggered reads c p = Some p' ->
  timeout_keys_ p' = timeout_keys_ p.
Proof.
  induction reads as [|r rest IH]; intros p p' Hrun; [done|].
  cbn [read_ready_triggered] in Hrun.
  destruct (_ && _); [by injection Hrun as <-|].
  destruct (_ =? -1);
    [injection Hrun as <-; by rewrite terminate_on_error_keys|].
  destruct (_ =? 0);
    [injection Hrun as <-; by rewrite terminate_on_close_keys|].
  rewrite (IH _ _ Hrun).
  by destruct (have_client_keys c (client_read r c p)) as (_ & _ & -> & _).
Qed.

Lemma pri_read_ready_keys c oobs : forall p p',
  pri_read_ready_triggered oobs c p = Some p' ->
  timeout_keys_ p' = timeout_keys_ p.
Proof.
  induction oobs as [|r rest IH]; intros p p' Hrun; [done|].
  cbn [pri_read_ready_triggered] in Hrun.
  destruct (_ && _); [by injection Hrun as <-|].
  destruct (_ =? -1);
    [injection Hrun as <-; by rewrite terminate_on_error_keys|].
  destruct (_ =? 0); [by injection Hrun as <-|].
  rewrite (IH _ _ Hrun).
  by destruct (have_client_keys c p) as (_ & _ & _ & ->).
Qed.

(** [add_client] arms the connection it admits and touches no other entry. *)
Lemma add_client_keys ok now fd p :
  timeout_keys_ (snd (add_client ok now fd p))
  = match fst (add_client ok now fd p) with
    | Some c => TimeoutTimer.set c now (timeout_keys_ p)
    | None => timeout_keys_ p
    end.
Proof.
  unfold add_client. destruct (AtomicStack.pop (stack_of p)) as [[c|] st]; [|done].
  destruct ok; cbn [fst snd].
  - unfold timer_set. cbn [with_keys timeout_keys_ sys].
    by destruct (have_client_keys c
                   (with_node c (AtomicStack.set_sfd fd)
                      (with_node c
                         (AtomicStack.set_value (BasicClient.construct fd))
                         (with_stack st p)))) as (-> & _).
  - rewrite terminate_keys. cbn [timeout_keys_ sys].
    by destruct (have_client_keys c
                   (with_node c (AtomicStack.set_sfd fd)
                      (with_node c
                         (AtomicStack.set_value (BasicClient.construct fd))
                         (with_stack st p)))) as (-> & _).
Qed.

(** [trigger] changes the timeout map by its [arming] calls only. *)
Lemma trigger_keys env c flags p p' :
  trigger env c flags p = Some p' ->
  timeout_keys_ p' = TimeoutTimer.timer_run (arming env c flags) (timeout_keys_ p).
Proof.
  unfold trigger, arming. intros Hrun.
  destruct (has_flag flags EPOLLERR);
    [injection Hrun as <-; by rewrite terminate_on_error_keys|].
  destruct (_ || _).
  { injection Hrun as <-. rewrite terminate_on_close_keys.
    by destruct (have_client_keys c p) as (_ & -> & _). }
  destruct (has_flag flags EPOLLPRI).
  - destruct (pri_read_ready_triggered _ _ _) as [p1|] eqn:Hpri; [|done].
    apply pri_read_ready_keys in Hpri.
    destruct (has_flag flags EPOLLIN).
    + apply read_ready_keys in Hrun. by rewrite Hrun; cbn; rewrite Hpri.
    + injection Hrun as <-. by rewrite Hpri.
  - destruct (has_flag flags EPOLLIN).
    + apply read_ready_keys in Hrun. by rewrite Hrun.
    + by injection Hrun as <-.
Qed.

(** An entry found after a script of timer calls was there before or was
    written by a [set] of the script. *)
Lemma timer_run_entry ops : forall (keys : gmap nat Z) k,
  is_Some (TimeoutTimer.timer_run ops keys !! k) ->
  is_Some (keys !! k) \/ exists now, TimeoutTimer.TSet k now ∈ ops.
Proof.
  unfold TimeoutTimer.timer_run.
  induction ops as [|op ops IH]; intros keys k Hk; cbn [foldl] in Hk.
  - by left.
  - destruct (IH _ _ Hk) as [Hstep | [now Hin]].
    + destruct op as [key now | key | interval now_at];
        cbn [TimeoutTimer.timer_step] in Hstep.
      * unfold TimeoutTimer.set in Hstep.
        destruct (decide (key = k)) as [->|Hne].
        -- right. exists now. by left.
        -- rewrite lookup_insert_ne in Hstep by done. by left.
      * left. unfold TimeoutTimer.unset in Hstep.
        destruct (keys !! key); [|done].
        destruct (decide (key = k)) as [->|Hne].
        -- rewrite lookup_delete_eq in Hstep. by destruct Hstep.
        -- by rewrite lookup_delete_ne in Hstep.
      * left. unfold TimeoutTimer.prune_timed_out_keys in Hstep.
        cbn [snd] in Hstep. rewrite erase_all_lookup in Hstep.
        destruct (decide _); [by destruct Hstep|done].
    + right. exists now. by right.
Qed.
End TimeoutEntries.

(** C2, counterexample. The connection in slot 0 was armed at time 1000;
    after [terminate], [terminate_on_close] or [terminate_on_error] the
    timeout map still holds its entry. *)
Lemma terminate_keeps_timeout_entry :
  ClientPool.timeout_keys_ (ClientPool.terminate 0 Scenario.one_bound) !! 0%nat
    = Some 1000
  /\ ClientPool.timeout_keys_
       (ClientPool.terminate_on_close 0 Scenario.one_bound) !! 0%nat
     = Some 1000
  /\ ClientPool.timeout_keys_
       (ClientPool.terminate_on_error 0 Scenario.one_bound) !! 0%nat
     = Some 1000
  /\ ClientPool.node_sfd 0 (ClientPool.terminate 0 Scenario.one_bound) = 0.
Proof. repeat split; vm_compute; reflexivity. Qed.

(** C2, amended. [terminate] and its two variants leave the timeout map as
    it is, so an entry of the terminated connection stays until a reaper
    pass finds it expired or [unset] is called.  The pool writes the map
    only by arming: [add_client] sets the entry of the connection it admits,
    [trigger] sets the entry of the connection it dispatches a priority or
    readable event for.  And whatever calls the timer has received since it
    was empty, an entry for a key is present only if [set] was called for
    that key. *)
Theorem terminate_leaves_timeout_map :
  (forall c p,
     ClientPool.timeout_keys_ (ClientPool.terminate c p)
       = ClientPool.timeout_keys_ p
     /\ ClientPool.timeout_keys_ (ClientPool.terminate_on_close c p)
        = ClientPool.timeout_keys_ p
     /\ ClientPool.timeout_keys_ (ClientPool.terminate_on_error c p)
        = ClientPool.timeout_keys_ p)
  /\ (forall ok now fd p,
        ClientPool.timeout_keys_ (snd (ClientPool.add_client ok now fd p))
        = match fst (ClientPool.add_client ok now fd p) with
          | Some c => TimeoutTimer.set c now (ClientPool.timeout_keys_ p)
          | None => ClientPool.timeout_keys_ p
          end)
  /\ (forall env c flags p p',
        ClientPool.trigger env c flags p = Some p' ->
        ClientPool.timeout_keys_ p'
        = TimeoutTimer.timer_run (arming env c flags)
            (ClientPool.timeout_keys_ p))
  /\ (forall ops k,
        is_Some (TimeoutTimer.timer_run ops ∅ !! k) ->
        exists now, TimeoutTimer.TSet k now ∈ ops).
Proof.
  split; [|split; [|split]].
  - intros c p. split; [apply terminate_keys|].
    split; [apply terminate_on_close_keys | apply terminate_on_error_keys].
  - apply add_client_keys.
  - apply trigger_keys.
  - intros ops k Hk. destruct (timer_run_entry ops ∅ k Hk) as [Hempty|Hset].
    + rewrite lookup_empty in Hempty. by destruct Hempty.
    + done.
Qed.

Lemma terminate_leaves_timeout_map_witness :
  exists now, TimeoutTimer.TSet 4%nat now ∈ Scenario.timer_script.
Proof.
  destruct terminate_leaves_timeout_map as (_ & _ & _ & Hset).
  apply (Hset Scenario.timer_script 4%nat).
  vm_compute. eexists. reflexivity.
Defined.

(** ** The shutdown daisy chain *)

Section DaisyChain.
Import EpollWaiter.

Lemma started_eq K :
  started K = mkSystem (mk (Z.of_nat K) 0 true 0 []) (seq 0 K) [].
Proof.
  unfold started. induction K as [|K IH]; [done|].
  rewrite seq_S, foldl_snoc, IH. unfold spawn, enter_wait. cbn.
  do 2 f_equal. lia.
Qed.

Lemma filter_ne_absent (l : list nat) wk :
  wk ∉ l -> filter (fun x => x ≠ wk) l = l.
Proof.
  induction l as [|x l IH]; intros Hnin; [done|].
  apply not_elem_of_cons in Hnin as [Hne Hnin].
  rewrite filter_cons_True by done. by rewrite IH.
Qed.

Lemma filter_ne_length (l : list nat) wk :
  NoDup l -> wk ∈ l -> S (length (filter (fun x => x ≠ wk) l)) = length l.
Proof.
  induction l as [|x l IH]; intros Hnd Hin; [by apply elem_of_nil in Hin|].
  apply NoDup_cons in Hnd as [Hx Hnd].
  destruct (decide (x = wk)) as [->|Hne].
  - rewrite filter_cons_False by (by intros ?).
    by rewrite filter_ne_absent.
  - rewrite filter_cons_True by done. cbn. f_equal. apply IH; [done|].
    apply elem_of_cons in Hin as [->|Hin]; done.
Qed.

(** A batch without the self-pipe event only feeds the sink. *)
Lemma dispatch_regular batch : forall w,
  existsb is_selfpipe batch = false ->
  exists tr, dispatch batch w
             = (mk (instance_count_ w) (selfpipe_bytes w) (selfpipe_armed w)
                   (close_signals w) tr, true).
Proof.
  induction batch as [|[|h ev] rest IH]; intros w Hno.
  - exists (triggered w). by destruct w.
  - done.
  - cbn in Hno. cbn [dispatch]. destruct (IH (on_handler h ev w) Hno) as [tr ->].
    by exists tr.
Qed.

(** A batch with the self-pipe event ends in the shutdown block, and the
    worker leaves its loop. *)
Lemma dispatch_selfpipe batch : forall w,
  existsb is_selfpipe batch = true ->
  exists tr, dispatch batch w
             = (on_selfpipe (mk (instance_count_ w) (selfpipe_bytes w)
                                (selfpipe_armed w) (close_signals w) tr),
                false).
Proof.
  induction batch as [|[|h ev] rest IH]; intros w Hyes.
  - done.
  - exists (triggered w). by destruct w.
  - cbn in Hyes. cbn [dispatch]. destruct (IH (on_handler h ev w) Hyes) as [tr ->].
    by exists tr.
Qed.

Lemma chain_inv_signalled K :
  (1 <= K)%nat -> chain_inv K (signal (started K)).
Proof.
  intros HK. rewrite started_eq. unfold chain_inv, signal, close. cbn.
  rewrite length_seq. split; [done|]. split; [lia|].
  split; [apply NoDup_seq|]. destruct K; [lia|]. done.
Qed.

(** A wake-up without the self-pipe event changes nothing but the log of
    the sink; one with it takes the worker out and keeps the chain. *)
Lemma epoll_return_inv K wk batch sys sys' :
  chain_inv K sys ->
  epoll_return wk (Some batch) sys = Some sys' ->
  chain_inv K sys'
  /\ (if existsb is_selfpipe batch
      then waiting sys' = filter (fun x => x ≠ wk) (waiting sys)
           /\ exited sys' = exited sys ++ [wk]
           /\ instance_count_ (waiter sys')
              = instance_count_ (waiter sys) - 1
           /\ close_signals (waiter sys')
              = if 0 <? instance_count_ (waiter sys) - 1
                then S (close_signals (waiter sys))
                else close_signals (waiter sys)
      else waiting sys' = waiting sys /\ exited sys' = exited sys).
Proof.
  intros (Hcount & Hlen & Hnd & Hpipe) Hret. unfold epoll_return in Hret.
  destruct (bool_decide (wk ∈ waiting sys)) eqn:Hwk; [|done].
  apply bool_decide_eq_true in Hwk. cbn [negb] in Hret.
  destruct (existsb is_selfpipe batch) eqn:Hsp.
  - pose proof (filter_ne_length (waiting sys) wk Hnd Hwk) as Hfl.
    assert (NoDup (filter (fun x => x ≠ wk) (waiting sys))) as Hnd'
      by (by apply NoDup_filter).
    remember (filter (fun x => x ≠ wk) (waiting sys)) as remaining eqn:Hrem.
    clear Hrem.
    destruct (waiting sys) as [|w0 ws] eqn:Hws;
      [by apply elem_of_nil in Hwk|].
    destruct Hpipe as (Hb & Ha & Hc). rewrite Ha, Hb in Hret.
    cbn [andb negb Z.of_nat Z.ltb Z.compare] in Hret.
    destruct (dispatch_selfpipe batch
                (mk (instance_count_ (waiter sys)) 1 false
                    (close_signals (waiter sys)) (triggered (waiter sys))) Hsp)
      as [tr Hd].
    rewrite Hd in Hret. injection Hret as <-.
    unfold chain_inv, on_selfpipe, close.
    cbn [waiting exited waiter instance_count_ selfpipe_bytes
         selfpipe_armed close_signals triggered pred].
    rewrite length_app. cbn [length] in *.
    destruct (Z.ltb_spec 0 (instance_count_ (waiter sys) - 1)) as [Hpos|Hzero];
      cbn [instance_count_ selfpipe_bytes selfpipe_armed close_signals].
    + split; [|done].
      split; [lia|]. split; [lia|]. split; [done|].
      destruct remaining; cbn [length] in *; [lia|].
      split; [done|]. split; [done|]. lia.
    + split; [|done].
      split; [lia|]. split; [lia|]. split; [done|].
      destruct remaining; cbn [length] in *; [|lia].
      split; [done|]. split; [done|]. lia.
  - cbn [andb] in Hret.
    destruct (dispatch_regular batch (waiter sys) Hsp) as [tr Hd].
    rewrite Hd in Hret. injection Hret as <-.
    split; [|done]. unfold chain_inv. cbn. done.
Qed.

(** While a worker is inside [wait], the wake-up that carries the
    self-pipe event can be delivered to it. *)
Lemma epoll_return_enabled K wk batch sys :
  chain_inv K sys -> wk ∈ waiting sys ->
  existsb is_selfpipe batch = true ->
  exists sys', epoll_return wk (Some batch) sys = Some sys'.
Proof.
  intros (_ & _ & _ & Hpipe) Hwk Hsp. unfold epoll_return.
  rewrite bool_decide_eq_true_2 by done. cbn [negb]. rewrite Hsp.
  destruct (waiting sys); [by apply elem_of_nil in Hwk|].
  destruct Hpipe as (-> & -> & _). cbn.
  destruct (dispatch _ _) as [w2 run]. eauto.
Qed.

Lemma run_schedule_inv K sched : forall sys sys',
  Forall (fun e => delivers e.2) sched ->
  chain_inv K sys -> run_schedule sched sys = Some sys' -> chain_inv K sys'.
Proof.
  induction sched as [|[wk ready] rest IH]; intros sys sys' Hall Hinv Hrun;
    cbn [run_schedule] in Hrun.
  - by injection Hrun as <-.
  - apply Forall_cons in Hall as [Hready Hall]. cbn in Hready.
    destruct Hready as [batch ->].
    destruct (epoll_return wk (Some batch) sys) as [sys1|] eqn:Hret; [|done].
    eapply IH; [done| |done]. by eapply epoll_return_inv.
Qed.

Lemma delivers_selfpipe_delivers sched :
  Forall (fun e => delivers_selfpipe e.2) sched ->
  Forall (fun e : nat * option (list event) => delivers e.2) sched.
Proof.
  intros Hall. eapply Forall_impl; [exact Hall|].
  intros [wk ready] Hready. cbn in *.
  destruct Hready as (batch & -> & _). by eexists.
Qed.

(** Waking every waiting worker once on the self-pipe, in any order,
    empties [wait]. *)
Lemma run_schedule_complete K sched : forall sys,
  chain_inv K sys ->
  sched.*1 ≡ₚ waiting sys ->
  Forall (fun e => delivers_selfpipe e.2) sched ->
  exists sys', run_schedule sched sys = Some sys'
               /\ waiting sys' = []
               /\ exited sys' = exited sys ++ sched.*1.
Proof.
  induction sched as [|[wk ready] rest IH]; intros sys Hinv Hperm Hall.
  - cbn in Hperm. symmetry in Hperm. apply Permutation_nil_r in Hperm.
    exists sys. cbn. by rewrite app_nil_r.
  - apply Forall_cons in Hall as [Hready Hall]. cbn in Hready, Hperm.
    destruct Hready as (batch & -> & Hsp).
    assert (wk ∈ waiting sys) as Hwk by (rewrite <- Hperm; by left).
    destruct (epoll_return_enabled K wk batch sys Hinv Hwk Hsp) as [sys1 Hret].
    destruct (epoll_return_inv K wk batch sys sys1 Hinv Hret) as [Hinv1 Hshape].
    rewrite Hsp in Hshape. destruct Hshape as (Hw1 & He1 & _).
    destruct (IH sys1 Hinv1) as (sys' & Hrun & Hw' & He'); [|done|].
    + rewrite Hw1, <- Hperm. rewrite filter_cons_False by (by intros ?).
      rewrite filter_ne_absent; [done|].
      destruct Hinv as (_ & _ & Hnd & _). rewrite <- Hperm in Hnd.
      by apply NoDup_cons in Hnd as [? _].
    + exists sys'. cbn [run_schedule]. rewrite Hret.
      split; [done|]. split; [done|].
      rewrite He', He1, <- app_assoc. done.
Qed.
End DaisyChain.

(** C6. [close] is called while [K >= 1] workers are inside [wait] on one
    waiter.  However the wake-ups that deliver events are scheduled from
    then on:
    - the counter always equals the number of workers still inside [wait],
      and [close] has run min (exited + 1, K) times;
    - a worker that receives the self-pipe event decrements the counter,
      calls [close] again exactly when the new value is positive, and has
      left [wait] afterwards;
    - as long as a worker is inside [wait], the self-pipe event can be
      delivered to it.
    When each worker has received the self-pipe event once, in any order,
    no worker is inside [wait], the counter is 0, the pipe is empty and
    [close] has run exactly [K] times in total. *)
Theorem shutdown_daisy_chain (K : nat) :
  (1 <= K)%nat ->
  (forall sched sys,
     Forall (fun e => EpollWaiter.delivers e.2) sched ->
     EpollWaiter.run_schedule sched (EpollWaiter.signal (EpollWaiter.started K))
       = Some sys ->
     EpollWaiter.instance_count_ (EpollWaiter.waiter sys)
       = Z.of_nat (length (EpollWaiter.waiting sys))
     /\ (length (EpollWaiter.waiting sys) + length (EpollWaiter.exited sys)
         = K)%nat
     /\ EpollWaiter.close_signals (EpollWaiter.waiter sys)
        = Nat.min (S (length (EpollWaiter.exited sys))) K
     /\ (forall wk batch sys',
           existsb EpollWaiter.is_selfpipe batch = true ->
           EpollWaiter.epoll_return wk (Some batch) sys = Some sys' ->
           EpollWaiter.instance_count_ (EpollWaiter.waiter sys')
             = EpollWaiter.instance_count_ (EpollWaiter.waiter sys) - 1
           /\ EpollWaiter.close_signals (EpollWaiter.waiter sys')
              = (if 0 <? EpollWaiter.instance_count_ (EpollWaiter.waiter sys) - 1
                 then S (EpollWaiter.close_signals (EpollWaiter.waiter sys))
                 else EpollWaiter.close_signals (EpollWaiter.waiter sys))
           /\ wk ∈ EpollWaiter.exited sys'
           /\ wk ∉ EpollWaiter.waiting sys')
     /\ (forall wk batch,
           wk ∈ EpollWaiter.waiting sys ->
           existsb EpollWaiter.is_selfpipe batch = true ->
           is_Some (EpollWaiter.epoll_return wk (Some batch) sys)))
  /\ (forall sched,
        sched.*1 ≡ₚ seq 0 K ->
        Forall (fun e => EpollWaiter.delivers_selfpipe e.2) sched ->
        exists sys,
          EpollWaiter.run_schedule sched
            (EpollWaiter.signal (EpollWaiter.started K)) = Some sys
          /\ EpollWaiter.waiting sys = []
          /\ EpollWaiter.exited sys = sched.*1
          /\ EpollWaiter.close_signals (EpollWaiter.waiter sys) = K
          /\ EpollWaiter.instance_count_ (EpollWaiter.waiter sys) = 0
          /\ EpollWaiter.selfpipe_bytes (EpollWaiter.waiter sys) = 0%nat).
Proof.
  intros HK. pose proof (chain_inv_signalled K HK) as Hinv0. split.
  - intros sched sys Hall Hrun.
    pose proof (run_schedule_inv K sched _ _ Hall Hinv0 Hrun) as Hinv.
    pose proof Hinv as (Hcount & Hlen & Hnd & Hpipe).
    split; [done|]. split; [done|]. split; [|split].
    + destruct (EpollWaiter.waiting sys); cbn [length] in *.
      * destruct Hpipe as (_ & _ & ->). lia.
      * destruct Hpipe as (_ & _ & ->). lia.
    + intros wk batch sys' Hsp Hret.
      destruct (epoll_return_inv K wk batch sys sys' Hinv Hret) as [_ Hshape].
      rewrite Hsp in Hshape. destruct Hshape as (Hw & He & Hc & Hs).
      split; [done|]. split; [done|]. split.
      * rewrite He. apply elem_of_app. right. by left.
      * rewrite Hw. intros [Hne _]%list_elem_of_filter. done.
    + intros wk batch Hwk Hsp.
      destruct (epoll_return_enabled K wk batch sys Hinv Hwk Hsp) as [sys' ->].
      by eexists.
  - intros sched Hperm Hall.
    destruct (run_schedule_complete K sched _ Hinv0) as (sys & Hrun & Hw & He).
    + by rewrite started_eq.
    + done.
    + exists sys. split; [done|]. split; [done|].
      pose proof (run_schedule_inv K sched _ _
                    (delivers_selfpipe_delivers _ Hall) Hinv0 Hrun)
        as (Hcount & _ & _ & Hpipe).
      rewrite Hw in Hcount, Hpipe. destruct Hpipe as (Hb & _ & Hc).
      split; [by rewrite He, started_eq|]. done.
Qed.

Lemma shutdown_daisy_chain_witness :
  exists sys,
    EpollWaiter.run_schedule Scenario.shutdown_schedule
      (EpollWaiter.signal (EpollWaiter.started 3)) = Some sys
    /\ EpollWaiter.waiting sys = []
    /\ EpollWaiter.exited sys = Scenario.shutdown_schedule.*1
    /\ EpollWaiter.close_signals (EpollWaiter.waiter sys) = 3%nat
    /\ EpollWaiter.instance_count_ (EpollWaiter.waiter sys) = 0
    /\ EpollWaiter.selfpipe_bytes (EpollWaiter.waiter sys) = 0%nat.
Proof.
  apply (proj2 (shutdown_daisy_chain 3 ltac:(lia))).
  - apply perm_swap.
  - repeat constructor; by eexists.
Defined.

(** * Further properties of the code *)

(** ** The free stack as a list *)

Section ChainFacts.
Import AtomicStack.
Context {ValueType : Type}.
Implicit Types (slab : list (StackNode ValueType)) (l : list nat).

Lemma chain_lookup slab head l i :
  chain slab head l -> i ∈ l -> is_Some (slab !! i).
Proof.
  induction 1 as [|h n l Hh _ IH]; intros Hin.
  - by apply elem_of_nil in Hin.
  - apply elem_of_cons in Hin as [->|Hin]; [by eexists|by apply IH].
Qed.

(** Rewriting a cell that is not on the chain leaves the chain alone. *)
Lemma chain_insert_off slab head l c x :
  chain slab head l -> c ∉ l -> chain (<[c := x]> slab) head l.
Proof.
  induction 1 as [|h n l Hh _ IH]; intros Hnin; [constructor|].
  apply not_elem_of_cons in Hnin as [Hne Hnin].
  econstructor; [by rewrite list_lookup_insert_ne|by apply IH].
Qed.

Lemma chain_alter_off slab head l c f :
  chain slab head l -> c ∉ l -> chain (alter f c slab) head l.
Proof.
  induction 1 as [|h n l Hh _ IH]; intros Hnin; [constructor|].
  apply not_elem_of_cons in Hnin as [Hne Hnin].
  econstructor; [by rewrite list_lookup_alter_ne|by apply IH].
Qed.

(** So does rewriting any cell without touching its link. *)
Lemma chain_alter_keep slab head l c f :
  (forall n, ptr_to_next (f n) = ptr_to_next n) ->
  chain slab head l -> chain (alter f c slab) head l.
Proof.
  intros Hf. induction 1 as [|h n l Hh _ IH]; [constructor|].
  destruct (decide (h = c)) as [->|Hne].
  - apply (chain_cons _ c (f n)); [|by rewrite Hf].
    by rewrite list_lookup_alter, decide_True, Hh.
  - econstructor; [by rewrite list_lookup_alter_ne|done].
Qed.

Lemma chain_functional slab head l1 l2 :
  chain slab head l1 -> chain slab head l2 -> l1 = l2.
Proof.
  intros H1. revert l2. induction H1 as [|h n l Hh _ IH]; intros l2 H2.
  - by inversion H2.
  - inversion H2 as [|h' n' l' Hh' Hc']; subst.
    rewrite Hh in Hh'. injection Hh' as <-. f_equal. by apply IH.
Qed.

(** Popping walks the chain. *)
Lemma pops_chain slab head l :
  chain slab head l ->
  pops (length l) (slab, head) = (Some <$> l, (slab, None)).
Proof.
  induction 1 as [|h n l Hh _ IH]; [done|].
  cbn [length pops]. unfold pop at 1. cbn [fst snd]. rewrite Hh, IH. done.
Qed.

Lemma push_chain slab head l c :
  chain slab head l -> c ∉ l -> (c < length slab)%nat ->
  chain (fst (push c (slab, head))) (snd (push c (slab, head))) (c :: l).
Proof.
  intros Hch Hnin Hlt. unfold push. cbn [fst snd].
  destruct (lookup_lt_is_Some_2 slab c Hlt) as [n Hn].
  apply (chain_cons _ c (set_next head n)).
  - by rewrite list_lookup_alter, decide_True, Hn.
  - cbn. by apply chain_alter_off.
Qed.
End ChainFacts.

(** X1. When the free stack holds the slots [l] (top first), [length l]
    pops return them in this order and leave the stack empty: the next pop
    returns null, and the slab is not written. *)
Theorem pops_return_chain {ValueType : Type}
    (slab : list (AtomicStack.StackNode ValueType)) (head : option nat)
    (l : list nat) :
  chain slab head l ->
  AtomicStack.pops (length l) (slab, head) = (Some <$> l, (slab, None))
  /\ AtomicStack.pop (slab, None) = (None, (slab, None)).
Proof. intros Hch. split; [by apply pops_chain|done]. Qed.

Lemma pops_return_chain_witness :
  AtomicStack.pops 2 (Scenario2.two_free, Some 1%nat)
  = ([Some 1%nat; Some 0%nat], (Scenario2.two_free, None)).
Proof.
  apply (pops_return_chain Scenario2.two_free (Some 1%nat) [1%nat; 0%nat]).
  repeat (econstructor; [reflexivity|]). constructor.
Defined.

(** X2. Pushing a slot of the slab that is not on the free stack puts it on
    top: the stack then holds it followed by the former slots, the pop that
    follows returns it and restores the former head. *)
Theorem push_then_pop {ValueType : Type}
    (slab : list (AtomicStack.StackNode ValueType)) (head : option nat)
    (l : list nat) (c : nat) :
  chain slab head l -> c ∉ l -> (c < length slab)%nat ->
  let st := AtomicStack.push c (slab, head) in
  chain (fst st) (snd st) (c :: l)
  /\ AtomicStack.pop st = (Some c, (fst st, head))
  /\ chain (fst st) head l
  /\ (forall i, i ≠ c -> fst st !! i = slab !! i).
Proof.
  intros Hch Hnin Hlt st.
  pose proof (push_chain slab head l c Hch Hnin Hlt) as Hpush. fold st in Hpush.
  split; [done|]. split; [|split].
  - inversion Hpush as [|h n l' Hc Hrest]; subst.
    unfold AtomicStack.pop. subst st. cbn [AtomicStack.push fst snd] in *.
    rewrite Hc. do 3 f_equal.
    destruct (lookup_lt_is_Some_2 slab c Hlt) as [m Hm].
    rewrite list_lookup_alter, decide_True, Hm in Hc by done.
    by injection Hc as <-.
  - inversion Hpush as [|h n l' Hc Hrest]; subst.
    subst st. cbn [AtomicStack.push fst snd] in *.
    destruct (lookup_lt_is_Some_2 slab c Hlt) as [m Hm].
    rewrite list_lookup_alter, decide_True, Hm in Hc by done.
    injection Hc as <-. done.
  - intros i Hne. subst st. cbn. by rewrite list_lookup_alter_ne.
Qed.

Lemma push_then_pop_witness :
  AtomicStack.pop (AtomicStack.push 2 (Scenario2.three_cells, Some 1%nat))
  = (Some 2%nat,
     (fst (AtomicStack.push 2 (Scenario2.three_cells, Some 1%nat)), Some 1%nat)).
Proof.
  apply (push_then_pop Scenario2.three_cells (Some 1%nat) [1%nat; 0%nat] 2).
  - repeat (econstructor; [reflexivity|]). constructor.
  - intros [H|[H|H%elem_of_nil]%elem_of_cons]%elem_of_cons; done.
  - cbn. lia.
Defined.

(** ** The invariant of the connection pool *)

Section FreeListSteps.
Import AtomicStack.
Context {ValueType : Type}.
Implicit Types (slab : list (StackNode ValueType)) (l : list nat).

(** A bound slot is released: zeroed, linked on the head, made the head. *)
Lemma free_list_release slab head l c node v :
  free_list slab head l -> slab !! c = Some node -> sfd node ≠ 0 ->
  free_list (<[c := mkStackNode v (uuid node) 0 head]> slab) (Some c) (c :: l).
Proof.
  intros (Hch & Hnd & Hiff) Hc Hfd.
  assert (c ∉ l) as Hnin by (intros Hin; by apply (Hiff c node Hc) in Hin).
  assert (c < length slab)%nat as Hlt by (by eapply lookup_lt_Some).
  split; [|split].
  - apply (chain_cons _ c (mkStackNode v (uuid node) 0 head)).
    + by rewrite list_lookup_insert_eq.
    + by apply chain_insert_off.
  - by apply NoDup_cons.
  - intros i n Hi. destruct (decide (i = c)) as [->|Hne].
    + rewrite list_lookup_insert_eq in Hi by done. injection Hi as <-.
      split; [intros _; by left|done].
    + rewrite list_lookup_insert_ne in Hi by done.
      rewrite (Hiff i n Hi). split; [by right|].
      by intros [?|?]%elem_of_cons.
Qed.

(** The top slot is taken and bound to a descriptor that is not 0. *)
Lemma free_list_take slab h l n f :
  free_list slab (Some h) (h :: l) -> slab !! h = Some n ->
  (forall m, ptr_to_next (f m) = ptr_to_next m) -> sfd (f n) ≠ 0 ->
  free_list (alter f h slab) (ptr_to_next n) l.
Proof.
  intros (Hch & Hnd & Hiff) Hh Hlink Hfd.
  apply NoDup_cons in Hnd as [Hnin Hnd].
  inversion Hch as [|h' n' l' Hh' Hrest]; subst.
  rewrite Hh in Hh'. injection Hh' as <-.
  split; [by apply chain_alter_off|]. split; [done|].
  intros i m Hi. destruct (decide (i = h)) as [->|Hne].
  - rewrite list_lookup_alter, decide_True, Hh in Hi by done.
    injection Hi as <-. done.
  - rewrite list_lookup_alter_ne in Hi by done.
    rewrite (Hiff i m Hi). split; [by intros [?|?]%elem_of_cons|by right].
Qed.

(** A cell is rewritten without touching its descriptor or its link. *)
Lemma free_list_alter_keep slab head l c f :
  (forall n, ptr_to_next (f n) = ptr_to_next n) ->
  (forall n, sfd (f n) = sfd n) ->
  free_list slab head l -> free_list (alter f c slab) head l.
Proof.
  intros Hlink Hfd (Hch & Hnd & Hiff).
  split; [by apply chain_alter_keep|]. split; [done|].
  intros i m Hi. destruct (decide (i = c)) as [->|Hne].
  - rewrite list_lookup_alter, decide_True in Hi by done.
    destruct (slab !! c) as [n|] eqn:Hc; [|done]. injection Hi as <-.
    rewrite Hfd. by apply Hiff.
  - rewrite list_lookup_alter_ne in Hi by done. by apply Hiff.
Qed.

(** The free slots are the slots with descriptor 0: their number and the
    number of the others add up to the size of the slab. *)
Lemma free_list_count slab head l :
  free_list slab head l ->
  Nat.add (length l)
    (length (filter (fun i => from_option sfd 0 (slab !! i) ≠ 0)
                    (seq 0 (length slab))))
  = length slab.
Proof.
  intros (Hch & Hnd & Hiff).
  set (P := fun i : nat => from_option sfd 0 (slab !! i) ≠ 0).
  assert (l ≡ₚ filter (fun i => ¬ P i) (seq 0 (length slab))) as Hperm.
  { apply NoDup_Permutation; [done|apply NoDup_filter, NoDup_seq|].
    intros i. rewrite list_elem_of_filter, elem_of_seq. unfold P. split.
    - intros Hin. destruct (chain_lookup slab head l i Hch Hin) as [n Hn].
      rewrite Hn. split; [|apply lookup_lt_Some in Hn; lia].
      intros Hne. by apply Hne, (Hiff i n Hn).
    - intros [Hfree [_ Hlt]]. cbn in Hlt.
      destruct (lookup_lt_is_Some_2 slab i Hlt) as [n Hn].
      rewrite Hn in Hfree. apply (Hiff i n Hn). cbn in Hfree.
      by destruct (decide (sfd n = 0)). }
  rewrite Hperm, Nat.add_comm, <- length_app.
  rewrite (filter_app_complement P (seq 0 (length slab))). apply length_seq.
Qed.
End FreeListSteps.

Section PoolShape.
Import AtomicStack ClientPool PoolOps.

Lemma same_shape_refl p : same_shape p p.
Proof. done. Qed.

Lemma same_shape_trans p q r :
  same_shape p q -> same_shape q r -> same_shape p r.
Proof.
  intros (Hl1 & Hu1 & Hs1) (Hl2 & Hu2 & Hs2).
  split; [congruence|]. split; [|congruence].
  intros i. by rewrite Hu2.
Qed.

(** States with the same slab and the same sink. *)
Lemma same_shape_cells p q :
  mem_pool_ q = mem_pool_ p -> packet_sink_ q = packet_sink_ p ->
  same_shape p q.
Proof.
  intros Hm Hs. unfold same_shape, node_uuid. by rewrite Hm.
Qed.

Lemma same_shape_with_node c f p :
  (forall n, uuid (f n) = uuid n) -> same_shape p (with_node c f p).
Proof.
  intros Hf. unfold same_shape, node_uuid, with_node. cbn [mem_pool_ packet_sink_].
  split; [apply length_alter|]. split; [|done].
  intros i. destruct (decide (i = c)) as [->|Hne].
  - rewrite list_lookup_alter, decide_True by done.
    destruct (mem_pool_ p !! c); cbn; [apply Hf|done].
  - by rewrite list_lookup_alter_ne.
Qed.

Lemma same_shape_push c p :
  same_shape p (with_stack (push c (stack_of p)) p).
Proof.
  unfold same_shape, node_uuid, with_stack, push, stack_of.
  cbn [fst snd mem_pool_ packet_sink_].
  split; [apply length_alter|]. split; [|done].
  intros i. destruct (decide (i = c)) as [->|Hne].
  - rewrite list_lookup_alter, decide_True by done.
    by destruct (mem_pool_ p !! c).
  - by rewrite list_lookup_alter_ne.
Qed.

Lemma same_shape_terminate c p : same_shape p (terminate c p).
Proof.
  unfold terminate. destruct (node_sfd c p =? 0); [done|].
  eapply same_shape_trans; [|apply same_shape_push].
  eapply same_shape_trans; [|by apply (same_shape_with_node c (set_sfd 0))].
  done.
Qed.

Lemma same_shape_rearm c p : same_shape p (rearm c p).
Proof. done. Qed.

Lemma same_shape_run_actions c acts : forall p,
  same_shape p (foldl (run_action c) p acts).
Proof.
  induction acts as [|a acts IH]; intros p; [done|]. cbn [foldl].
  eapply same_shape_trans; [|apply IH].
  destruct a; [done|done|apply same_shape_terminate].
Qed.

Lemma same_shape_notify c cb p : same_shape p (notify c cb p).
Proof.
  unfold notify. apply (same_shape_trans _ (record cb p)); [done|].
  apply same_shape_run_actions.
Qed.

Lemma same_shape_have c p :
  same_shape p (have_client_accepted c p)
  /\ same_shape p (have_client_closed c p)
  /\ same_shape p (have_client_error c p)
  /\ (forall data size, same_shape p (have_client_data_received c data size p))
  /\ (forall oob, same_shape p (have_client_oob_received c oob p)).
Proof.
  unfold have_client_accepted, have_client_closed, have_client_error,
    have_client_data_received, have_client_oob_received.
  repeat split; intros;
    match goal with |- context [if ?b then _ else _] => destruct b end;
    solve [done | apply same_shape_notify].
Qed.

Lemma same_shape_closed c p : same_shape p (have_client_closed c p).
Proof. apply same_shape_have. Qed.

Lemma same_shape_error c p : same_shape p (have_client_error c p).
Proof. apply (same_shape_have c p). Qed.

Lemma same_shape_data c data size p :
  same_shape p (have_client_data_received c data size p).
Proof. apply (same_shape_have c p). Qed.

Lemma same_shape_oob c oob p :
  same_shape p (have_client_oob_received c oob p).
Proof. apply (same_shape_have c p). Qed.

Lemma same_shape_terminate_on_close c p : same_shape p (terminate_on_close c p).
Proof.
  unfold terminate_on_close. destruct (node_sfd c p =? 0); [done|].
  eapply same_shape_trans; [|apply same_shape_push].
  eapply same_shape_trans; [|apply same_shape_closed].
  eapply same_shape_trans; [|by apply (same_shape_with_node c (set_sfd 0))].
  done.
Qed.

Lemma same_shape_terminate_on_error c p : same_shape p (terminate_on_error c p).
Proof.
  unfold terminate_on_error. destruct (node_sfd c p =? 0); [done|].
  eapply same_shape_trans; [|apply same_shape_push].
  eapply same_shape_trans; [|apply same_shape_error].
  eapply same_shape_trans; [|by apply (same_shape_with_node c (set_sfd 0))].
  done.
Qed.

Lemma same_shape_add_client ok now fd p :
  same_shape p (snd (add_client ok now fd p)).
Proof.
  unfold add_client. destruct (pop (stack_of p)) as [[c|] st] eqn:Hpop; [|done].
  assert (fst st = mem_pool_ p) as Hmem.
  { unfold pop, stack_of in Hpop. cbn [fst snd] in Hpop.
    destruct (clients_stack_ p); [|done]. by injection Hpop as _ <-. }
  set (p3 := with_node c (set_sfd fd)
               (with_node c (set_value (BasicClient.construct fd))
                  (with_stack st p))).
  assert (same_shape p p3) as H3.
  { apply (same_shape_trans _ (with_stack st p));
      [by apply same_shape_cells|].
    eapply same_shape_trans;
      [by apply (same_shape_with_node c (set_value (BasicClient.construct fd)))|].
    by apply (same_shape_with_node c (set_sfd fd)). }
  assert (same_shape p (sys (SysEpollAdd fd kFlags c) (have_client_accepted c p3)))
    as H5.
  { eapply same_shape_trans; [exact H3|].
    eapply same_shape_trans; [exact (proj1 (same_shape_have c p3))|done]. }
  destruct ok; cbn [snd].
  - eapply same_shape_trans; [exact H5|done].
  - eapply same_shape_trans; [exact H5|apply same_shape_terminate].
Qed.

Lemma same_shape_client_read r c p : same_shape p (client_read r c p).
Proof. unfold client_read. by apply same_shape_with_node. Qed.

Lemma same_shape_read_ready c reads : forall p p',
  read_ready_triggered reads c p = Some p' -> same_shape p p'.
Proof.
  induction reads as [|r rest IH]; intros p p' Hrun; [done|].
  cbn [read_ready_triggered] in Hrun.
  pose proof (same_shape_client_read r c p) as Hread.
  destruct (_ && _); [by injection Hrun as <-|].
  destruct (_ =? -1);
    [injection Hrun as <-;
     eapply same_shape_trans; [exact Hread|apply same_shape_terminate_on_error]|].
  destruct (_ =? 0);
    [injection Hrun as <-;
     eapply same_shape_trans; [exact Hread|apply same_shape_terminate_on_close]|].
  eapply same_shape_trans; [exact Hread|].
  eapply same_shape_trans; [|by apply IH]. apply same_shape_data.
Qed.

Lemma same_shape_pri_read_ready c oobs : forall p p',
  pri_read_ready_triggered oobs c p = Some p' -> same_shape p p'.
Proof.
  induction oobs as [|r rest IH]; intros p p' Hrun; [done|].
  cbn [pri_read_ready_triggered] in Hrun.
  destruct (_ && _); [by injection Hrun as <-|].
  destruct (_ =? -1);
    [injection Hrun as <-; apply same_shape_terminate_on_error|].
  destruct (_ =? 0); [by injection Hrun as <-|].
  eapply same_shape_trans; [|by apply IH]. apply same_shape_oob.
Qed.

Lemma same_shape_trigger env c flags p p' :
  trigger env c flags p = Some p' -> same_shape p p'.
Proof.
  unfold trigger. intros Hrun.
  destruct (has_flag flags EPOLLERR);
    [injection Hrun as <-; apply same_shape_terminate_on_error|].
  destruct (_ || _).
  { injection Hrun as <-.
    eapply same_shape_trans; [apply same_shape_closed|].
    apply same_shape_terminate_on_close. }
  destruct (has_flag flags EPOLLPRI).
  - destruct (pri_read_ready_triggered _ _ _) as [p1|] eqn:Hpri; [|done].
    apply same_shape_pri_read_ready in Hpri.
    assert (same_shape p p1) as H1
      by (eapply same_shape_trans; [|exact Hpri]; done).
    destruct (has_flag flags EPOLLIN).
    + apply same_shape_read_ready in Hrun.
      eapply same_shape_trans; [exact H1|].
      eapply same_shape_trans; [|exact Hrun]. done.
    + by injection Hrun as <-.
  - destruct (has_flag flags EPOLLIN).
    + apply same_shape_read_ready in Hrun.
      eapply same_shape_trans; [|exact Hrun]. done.
    + by injection Hrun as <-.
Qed.

Lemma same_shape_on_timeout l : forall p, same_shape p (on_timeout l p).
Proof.
  unfold on_timeout. induction l as [|c l IH]; intros p; [done|]. cbn [foldl].
  eapply same_shape_trans; [apply same_shape_terminate_on_close|apply IH].
Qed.

Lemma same_shape_reap live interval now_at p q :
  reap live interval now_at p = Some q -> same_shape p q.
Proof.
  unfold reap. destruct live; [|done]. cbv zeta. intros [= <-].
  destruct (TimeoutTimer.collect interval now_at
              (map_to_list (timeout_keys_ p))); [done|].
  eapply same_shape_trans; [|apply same_shape_on_timeout]. done.
Qed.

Lemma same_shape_pool_run ops : forall p p',
  pool_run ops p = Some p' -> same_shape p p'.
Proof.
  induction ops as [|op ops IH]; intros p p' Hrun; cbn [pool_run] in Hrun.
  - by injection Hrun as <-.
  - destruct (pool_step op p) as [q|] eqn:Hstep; [|done].
    eapply same_shape_trans; [|by apply IH].
    destruct op; cbn [pool_step] in Hstep.
    + injection Hstep as <-. apply same_shape_add_client.
    + by apply same_shape_trigger in Hstep.
    + by injection Hstep as <-.
    + injection Hstep as <-. apply same_shape_terminate.
    + by apply same_shape_reap in Hstep.
Qed.
End PoolShape.

Section PoolFree.
Import AtomicStack ClientPool PoolOps.

Lemma keeps_free_refl p : keeps_free p p.
Proof. intros l Hl. by exists l. Qed.

Lemma keeps_free_trans p q r :
  keeps_free p q -> keeps_free q r -> keeps_free p r.
Proof. intros H1 H2 l Hl. destruct (H1 l Hl) as [l' Hl']. by apply (H2 l'). Qed.

Lemma keeps_free_cells p q :
  mem_pool_ q = mem_pool_ p -> clients_stack_ q = clients_stack_ p ->
  keeps_free p q.
Proof.
  intros Hm Hs l Hl. exists l. unfold free_slots in *. by rewrite Hm, Hs.
Qed.

Lemma keeps_free_terminate c p : keeps_free p (terminate c p).
Proof.
  intros l Hl. destruct (mem_pool_ p !! c) as [node|] eqn:Hc.
  - destruct (decide (sfd node = 0)) as [H0|Hne].
    + exists l. rewrite terminate_free; [done|].
      by rewrite (node_sfd_lookup _ _ _ Hc).
    + exists (c :: l). rewrite (terminate_bound _ _ _ Hc Hne).
      unfold free_slots. cbn [mem_pool_ clients_stack_].
      by apply free_list_release.
  - exists l. rewrite terminate_free; [done|]. unfold node_sfd. by rewrite Hc.
Qed.

Lemma keeps_free_run_actions c acts : forall p,
  keeps_free p (foldl (run_action c) p acts).
Proof.
  induction acts as [|a acts IH]; intros p; [apply keeps_free_refl|].
  cbn [foldl]. eapply keeps_free_trans; [|apply IH].
  destruct a; [apply keeps_free_refl|by apply keeps_free_cells|
               apply keeps_free_terminate].
Qed.

Lemma keeps_free_notify c cb p : keeps_free p (notify c cb p).
Proof.
  unfold notify. apply (keeps_free_trans _ (record cb p));
    [by apply keeps_free_cells|apply keeps_free_run_actions].
Qed.

Lemma keeps_free_accepted c p : keeps_free p (have_client_accepted c p).
Proof.
  unfold have_client_accepted.
  destruct (enable_client_accepted _);
    [apply keeps_free_notify|apply keeps_free_refl].
Qed.

Lemma keeps_free_closed c p : keeps_free p (have_client_closed c p).
Proof.
  unfold have_client_closed.
  destruct (enable_client_closed _);
    [apply keeps_free_notify|apply keeps_free_refl].
Qed.

Lemma keeps_free_data c data size p :
  keeps_free p (have_client_data_received c data size p).
Proof.
  unfold have_client_data_received.
  destruct (enable_client_data_received _);
    [apply keeps_free_notify|apply keeps_free_refl].
Qed.

Lemma keeps_free_oob c oob p :
  keeps_free p (have_client_oob_received c oob p).
Proof.
  unfold have_client_oob_received.
  destruct (enable_client_oob_received _);
    [apply keeps_free_notify|apply keeps_free_refl].
Qed.

Lemma keeps_free_terminate_on_close c p : keeps_free p (terminate_on_close c p).
Proof.
  intros l Hl. destruct (mem_pool_ p !! c) as [node|] eqn:Hc.
  - destruct (decide (sfd node = 0)) as [H0|Hne].
    + exists l. rewrite terminate_on_close_free; [done|].
      by rewrite (node_sfd_lookup _ _ _ Hc).
    + exists (c :: l).
      destruct (terminate_on_close_bound p c node Hc Hne) as (_ & Hm & Hs & _).
      unfold free_slots. rewrite Hm, Hs. by apply free_list_release.
  - exists l. rewrite terminate_on_close_free; [done|].
    unfold node_sfd. by rewrite Hc.
Qed.

Lemma keeps_free_terminate_on_error c p : keeps_free p (terminate_on_error c p).
Proof.
  intros l Hl. destruct (mem_pool_ p !! c) as [node|] eqn:Hc.
  - destruct (decide (sfd node = 0)) as [H0|Hne].
    + exists l. rewrite terminate_on_error_free; [done|].
      by rewrite (node_sfd_lookup _ _ _ Hc).
    + exists (c :: l).
      destruct (terminate_on_error_bound p c node Hc Hne) as (_ & Hm & Hs & _).
      unfold free_slots. rewrite Hm, Hs. by apply free_list_release.
  - exists l. rewrite terminate_on_error_free; [done|].
    unfold node_sfd. by rewrite Hc.
Qed.

(** The state of [add_client] once the popped slot carries the descriptor:
    the free stack has lost its top. *)
Lemma free_slots_admit p c l node fd :
  free_slots p (c :: l) -> mem_pool_ p !! c = Some node -> fd ≠ 0 ->
  free_slots
    (with_node c (set_sfd fd)
       (with_node c (set_value (BasicClient.construct fd))
          (with_stack (mem_pool_ p, ptr_to_next node) p))) l.
Proof.
  intros Hl Hc Hfd. unfold free_slots, with_node, with_stack.
  cbn [fst snd mem_pool_ clients_stack_].
  assert (clients_stack_ p = Some c) as Hhead.
  { destruct Hl as (Hch & _). by inversion Hch. }
  rewrite list_alter_alter_eq.
  apply (free_list_take _ c l node); [by rewrite <- Hhead|done|done|done].
Qed.

Lemma keeps_free_add_client ok now fd p :
  fd ≠ 0 -> keeps_free p (snd (add_client ok now fd p)).
Proof.
  intros Hfd l Hl. unfold add_client, pop, stack_of. cbn [fst snd].
  destruct (clients_stack_ p) as [c|] eqn:Hhead; [|by exists l].
  destruct Hl as (Hch & Hnd & Hiff). rewrite Hhead in Hch.
  inversion Hch as [|h node l' Hc Hrest]; subst.
  rewrite Hc.
  pose proof (free_slots_admit p c l' node fd) as H3.
  set (p3 := with_node c (set_sfd fd)
               (with_node c (set_value (BasicClient.construct fd))
                  (with_stack (mem_pool_ p, ptr_to_next node) p))) in *.
  assert (free_slots p3 l') as Hl3.
  { apply H3; [|done|done]. unfold free_slots. by rewrite Hhead. }
  destruct (keeps_free_accepted c p3 l' Hl3) as [l4 Hl4].
  destruct ok; cbn [snd].
  - by exists l4.
  - apply (keeps_free_terminate c
             (sys (SysEpollAdd fd kFlags c) (have_client_accepted c p3)) l4).
    done.
Qed.

Lemma keeps_free_client_read r c p : keeps_free p (client_read r c p).
Proof.
  intros l Hl. exists l. unfold free_slots, client_read, with_node.
  cbn [mem_pool_ clients_stack_]. by apply free_list_alter_keep.
Qed.

Lemma keeps_free_read_ready c reads : forall p p',
  read_ready_triggered reads c p = Some p' -> keeps_free p p'.
Proof.
  induction reads as [|r rest IH]; intros p p' Hrun; [done|].
  cbn [read_ready_triggered] in Hrun.
  pose proof (keeps_free_client_read r c p) as Hread.
  destruct (_ && _); [by injection Hrun as <-|].
  destruct (_ =? -1);
    [injection Hrun as <-;
     eapply keeps_free_trans; [exact Hread|apply keeps_free_terminate_on_error]|].
  destruct (_ =? 0);
    [injection Hrun as <-;
     eapply keeps_free_trans; [exact Hread|apply keeps_free_terminate_on_close]|].
  eapply keeps_free_trans; [exact Hread|].
  eapply keeps_free_trans; [|by apply IH]. apply keeps_free_data.
Qed.

Lemma keeps_free_pri_read_ready c oobs : forall p p',
  pri_read_ready_triggered oobs c p = Some p' -> keeps_free p p'.
Proof.
  induction oobs as [|r rest IH]; intros p p' Hrun; [done|].
  cbn [pri_read_ready_triggered] in Hrun.
  destruct (_ && _); [injection Hrun as <-; apply keeps_free_refl|].
  destruct (_ =? -1);
    [injection Hrun as <-; apply keeps_free_terminate_on_error|].
  destruct (_ =? 0); [injection Hrun as <-; apply keeps_free_refl|].
  eapply keeps_free_trans; [|by apply IH]. apply keeps_free_oob.
Qed.

Lemma keeps_free_timer_set c now p : keeps_free p (timer_set c now p).
Proof. by apply keeps_free_cells. Qed.

Lemma keeps_free_trigger env c flags p p' :
  trigger env c flags p = Some p' -> keeps_free p p'.
Proof.
  unfold trigger. intros Hrun.
  destruct (has_flag flags EPOLLERR);
    [injection Hrun as <-; apply keeps_free_terminate_on_error|].
  destruct (_ || _).
  { injection Hrun as <-.
    eapply keeps_free_trans; [apply keeps_free_closed|].
    apply keeps_free_terminate_on_close. }
  destruct (has_flag flags EPOLLPRI).
  - destruct (pri_read_ready_triggered _ _ _) as [p1|] eqn:Hpri; [|done].
    apply keeps_free_pri_read_ready in Hpri.
    assert (keeps_free p p1) as H1
      by (eapply keeps_free_trans; [apply keeps_free_timer_set|exact Hpri]).
    destruct (has_flag flags EPOLLIN).
    + apply keeps_free_read_ready in Hrun.
      eapply keeps_free_trans; [exact H1|].
      eapply keeps_free_trans; [apply keeps_free_timer_set|exact Hrun].
    + by injection Hrun as <-.
  - destruct (has_flag flags EPOLLIN).
    + apply keeps_free_read_ready in Hrun.
      eapply keeps_free_trans; [apply keeps_free_timer_set|exact Hrun].
    + injection Hrun as <-. apply keeps_free_refl.
Qed.

Lemma keeps_free_on_timeout l : forall p, keeps_free p (on_timeout l p).
Proof.
  unfold on_timeout. induction l as [|c l IH]; intros p;
    [apply keeps_free_refl|]. cbn [foldl].
  eapply keeps_free_trans; [apply keeps_free_terminate_on_close|apply IH].
Qed.

Lemma keeps_free_reap live interval now_at p q :
  reap live interval now_at p = Some q -> keeps_free p q.
Proof.
  unfold reap. destruct live; [|done]. cbv zeta. intros [= <-].
  destruct (TimeoutTimer.collect interval now_at
              (map_to_list (timeout_keys_ p))); [by apply keeps_free_cells|].
  eapply keeps_free_trans; [|apply keeps_free_on_timeout].
  by apply keeps_free_cells.
Qed.

Lemma keeps_free_pool_run ops : forall p p',
  Forall admits_nonzero ops ->
  pool_run ops p = Some p' -> keeps_free p p'.
Proof.
  induction ops as [|op ops IH]; intros p p' Hall Hrun; cbn [pool_run] in Hrun.
  - injection Hrun as <-. apply keeps_free_refl.
  - apply Forall_cons in Hall as [Hop Hall].
    destruct (pool_step op p) as [q|] eqn:Hstep; [|done].
    eapply keeps_free_trans; [|by apply IH].
    destruct op; cbn [pool_step admits_nonzero] in Hstep, Hop.
    + injection Hstep as <-. by apply keeps_free_add_client.
    + by apply keeps_free_trigger in Hstep.
    + injection Hstep as <-. by apply keeps_free_cells.
    + injection Hstep as <-. apply keeps_free_terminate.
    + by apply keeps_free_reap in Hstep.
Qed.
End PoolFree.

(** ** Slot conservation *)

Section PoolStart.
Import AtomicStack ClientPool PoolOps.

Lemma chained_chain {V : Type} (dv : V) (data : list (StackNode V)) k :
  chained dv data k -> chain data (Some k) (rev (seq 0 (S k))).
Proof.
  induction k as [|k IH]; intros Hch.
  - apply (chain_cons _ 0%nat (init_node dv 0)); [by apply Hch|constructor].
  - rewrite seq_S, rev_app_distr. cbn [rev app Nat.add].
    apply (chain_cons _ (S k) (init_node dv (S k))); [by apply Hch|].
    cbn. apply IH. intros i Hi. apply Hch. lia.
Qed.

Lemma elem_of_rev (l : list nat) i : i ∈ rev l <-> i ∈ l.
Proof. rewrite !list_elem_of_In. symmetry. apply in_rev. Qed.

Lemma started_free sink slab n :
  length slab = S n ->
  free_slots (started sink slab) (rev (seq 0 (S n)))
  /\ length (mem_pool_ (started sink slab)) = S n
  /\ (forall i, (i <= n)%nat -> node_uuid i (started sink slab) = Z.of_nat i).
Proof.
  intros Hlen. unfold started. rewrite Hlen.
  destruct (init_chained BasicClient.default n slab Hlen) as (data & -> & Hch & Hl).
  cbn [fst snd]. split; [|split; [done|]].
  - unfold free_slots, free_list. cbn [mem_pool_ clients_stack_].
    split; [by apply (chained_chain BasicClient.default)|].
    split; [apply NoDup_ListNoDup, List.NoDup_rev, NoDup_ListNoDup, NoDup_seq|].
    intros i node Hi.
    assert (i <= n)%nat as Hle by (apply lookup_lt_Some in Hi; lia).
    rewrite (Hch i Hle) in Hi. injection Hi as <-.
    split; [|done]. intros _. apply elem_of_rev, elem_of_seq. lia.
  - intros i Hi. unfold node_uuid. cbn [mem_pool_]. by rewrite (Hch i Hi).
Qed.

Lemma free_slots_count p l :
  free_slots p l ->
  Nat.add (length l) (length (bound_slots p)) = length (mem_pool_ p).
Proof. intros Hl. exact (free_list_count _ _ _ Hl). Qed.
End PoolStart.

(** X3. After [run] has initialised the stack over a slab of [n >= 1] cells
    every slot is free: the free stack holds the slots n-1, ..., 0, no slot
    is bound, the timeout map is empty, and slot [i] carries identifier
    [i]. *)
Theorem started_pool_all_free (sink : ClientPool.PacketSink)
    (slab : list (AtomicStack.StackNode BasicClient.t)) (n : nat) :
  length slab = S n ->
  PoolOps.free_slots (ClientPool.started sink slab) (rev (seq 0 (S n)))
  /\ PoolOps.bound_slots (ClientPool.started sink slab) = []
  /\ ClientPool.timeout_keys_ (ClientPool.started sink slab) = ∅
  /\ (forall i, (i <= n)%nat ->
        ClientPool.node_uuid i (ClientPool.started sink slab) = Z.of_nat i).
Proof.
  intros Hlen. destruct (started_free sink slab n Hlen) as (Hfree & Hl & Hu).
  split; [done|]. split; [|split; [|done]].
  - pose proof (free_slots_count _ _ Hfree) as Hcount.
    rewrite length_rev, length_seq, Hl in Hcount.
    apply length_zero_iff_nil. lia.
  - unfold ClientPool.started.
    by destruct (AtomicStack.init _ _).
Qed.

Lemma started_pool_all_free_witness :
  PoolOps.bound_slots Scenario2.three_slots = []
  /\ ClientPool.node_uuid 2 Scenario2.three_slots = 2.
Proof.
  destruct (started_pool_all_free Scenario.echo_sink (Scenario.raw_slab 3) 2)
    as (_ & Hb & _ & Hu); [reflexivity|].
  split; [exact Hb|]. apply (Hu 2%nat). lia.
Defined.

(** X4. Slot conservation and descriptor-free exclusivity.  From a pool
    whose free stack is well formed (its slots are distinct and are exactly
    the slots with descriptor 0), any sequence of [add_client] (on
    descriptors other than 0), [trigger], [rearm], [terminate] and reaper
    turns leads to a pool whose free stack is well formed again, so no
    slot is on it twice and none is both free and bound; the number of
    free slots and the number of bound slots add up to the capacity. *)
Theorem pool_run_conserves_slots (ops : list PoolOps.pool_op)
    (p p' : ClientPool.t) (l : list nat) :
  PoolOps.free_slots p l ->
  Forall PoolOps.admits_nonzero ops ->
  PoolOps.pool_run ops p = Some p' ->
  exists l',
    PoolOps.free_slots p' l'
    /\ Nat.add (length l') (length (PoolOps.bound_slots p'))
       = length (ClientPool.mem_pool_ p)
    /\ (forall i, i ∈ l' -> i ∉ PoolOps.bound_slots p').
Proof.
  intros Hl Hall Hrun.
  destruct (keeps_free_pool_run ops p p' Hall Hrun l Hl) as [l' Hl'].
  destruct (same_shape_pool_run ops p p' Hrun) as (Hlen & _ & _).
  exists l'. split; [done|]. split.
  - rewrite <- Hlen. by apply free_slots_count.
  - intros i Hin. unfold PoolOps.bound_slots.
    rewrite list_elem_of_filter. intros [Hb _].
    destruct Hl' as (Hch & _ & Hiff).
    destruct (chain_lookup _ _ _ i Hch Hin) as [node Hnode].
    apply Hb. unfold ClientPool.node_sfd. rewrite Hnode.
    by apply (Hiff i node Hnode).
Qed.

Lemma pool_run_conserves_slots_witness :
  exists p' l',
    PoolOps.pool_run Scenario2.busy_script Scenario2.three_slots = Some p'
    /\ PoolOps.free_slots p' l'
    /\ Nat.add (length l') (length (PoolOps.bound_slots p')) = 3%nat.
Proof.
  destruct (PoolOps.pool_run Scenario2.busy_script Scenario2.three_slots)
    as [p'|] eqn:Hrun; [|vm_compute in Hrun; discriminate Hrun].
  destruct (pool_run_conserves_slots Scenario2.busy_script
              Scenario2.three_slots p' (rev (seq 0 3)))
    as (l' & Hfree & Hcount & _).
  - apply (started_free Scenario.echo_sink (Scenario.raw_slab 3) 2). reflexivity.
  - repeat constructor; cbn; lia.
  - exact Hrun.
  - exists p', l'. split; [reflexivity|]. split; [exact Hfree|exact Hcount].
Defined.

(** X5. Identifier stability.  Whatever is done with a pool started on a
    slab of [n >= 1] cells, slot [i] keeps the identifier [i] it was given
    by the initialisation of the stack, and the slab keeps its size. *)
Theorem pool_run_keeps_identifiers (sink : ClientPool.PacketSink)
    (slab : list (AtomicStack.StackNode BasicClient.t)) (n : nat)
    (ops : list PoolOps.pool_op) (p' : ClientPool.t) :
  length slab = S n ->
  PoolOps.pool_run ops (ClientPool.started sink slab) = Some p' ->
  length (ClientPool.mem_pool_ p') = S n
  /\ (forall i, (i <= n)%nat -> ClientPool.node_uuid i p' = Z.of_nat i)
  /\ ClientPool.packet_sink_ p' = sink.
Proof.
  intros Hlen Hrun.
  destruct (started_free sink slab n Hlen) as (_ & Hl & Hu).
  destruct (same_shape_pool_run ops _ p' Hrun) as (Hlen' & Hu' & Hs).
  split; [congruence|]. split.
  - intros i Hi. rewrite Hu'. by apply Hu.
  - rewrite Hs. unfold ClientPool.started. by destruct (AtomicStack.init _ _).
Qed.

Lemma pool_run_keeps_identifiers_witness :
  exists p',
    PoolOps.pool_run Scenario2.busy_script Scenario2.three_slots = Some p'
    /\ ClientPool.node_uuid 1 p' = 1.
Proof.
  destruct (PoolOps.pool_run Scenario2.busy_script Scenario2.three_slots)
    as [p'|] eqn:Hrun; [|vm_compute in Hrun; discriminate Hrun].
  destruct (pool_run_keeps_identifiers Scenario.echo_sink (Scenario.raw_slab 3)
              2 Scenario2.busy_script p' eq_refl Hrun) as (_ & Hu & _).
  exists p'. split; [reflexivity|]. apply (Hu 1%nat). lia.
Defined.

(** ** Admission *)

Section Admission.
Import AtomicStack ClientPool PoolOps.

Lemma count_close_snoc fd log call :
  count_close fd (log ++ [call])
  = (count_close fd log + (if decide (call = SysClose fd) then 1 else 0))%nat.
Proof.
  unfold count_close. rewrite filter_app, length_app. f_equal.
  destruct (decide (call = SysClose fd)) as [->|Hne].
  - by rewrite filter_cons_True.
  - by rewrite filter_cons_False.
Qed.

(** On a slot whose descriptor is zero the session calls close nothing. *)
Lemma run_actions_on_free_closes c fd acts : forall p,
  node_sfd c p = 0 ->
  count_close fd (syscalls (foldl (run_action c) p acts))
  = count_close fd (syscalls p).
Proof.
  induction acts as [|a acts IH]; intros p Hfree; [done|]. cbn [foldl].
  destruct a; cbn [run_action].
  - by apply IH.
  - rewrite IH by done. unfold rearm, sys. cbn [syscalls].
    rewrite count_close_snoc, decide_False by done. lia.
  - rewrite terminate_free by done. by apply IH.
Qed.

(** What the session calls of a handler can do to a bound slot: leave it
    bound and close nothing, or release it and close its descriptor once. *)
Lemma run_actions_on_bound c node acts : forall p,
  mem_pool_ p !! c = Some node -> sfd node ≠ 0 ->
  let q := foldl (run_action c) p acts in
  (mem_pool_ q = mem_pool_ p
   /\ clients_stack_ q = clients_stack_ p
   /\ count_close (sfd node) (syscalls q) = count_close (sfd node) (syscalls p))
  \/ (mem_pool_ q
      = <[c := mkStackNode (value node) (uuid node) 0 (clients_stack_ p)]>
          (mem_pool_ p)
      /\ clients_stack_ q = Some c
      /\ count_close (sfd node) (syscalls q)
         = S (count_close (sfd node) (syscalls p))).
Proof.
  induction acts as [|a acts IH]; intros p Hc Hfd; [by left|].
  cbn [foldl]. destruct a; cbn [run_action].
  - by apply IH.
  - destruct (IH (rearm c p) Hc Hfd) as [(Hm & Hs & Hn)|(Hm & Hs & Hn)];
      [left|right]; cbv zeta; rewrite Hm, Hs, Hn;
      unfold rearm, sys; cbn [syscalls mem_pool_ clients_stack_];
      rewrite count_close_snoc, decide_False by done;
      (split; [done|]); (split; [done|]); lia.
  - right. cbv zeta.
    assert (node_sfd c (terminate c p) = 0) as Hfree.
    { rewrite (terminate_bound _ _ _ Hc Hfd). unfold node_sfd.
      cbn [mem_pool_]. rewrite list_lookup_insert_eq; [done|].
      by eapply lookup_lt_Some. }
    destruct (run_actions_on_free c acts (terminate c p) Hfree) as [-> ->].
    rewrite (run_actions_on_free_closes c (sfd node) acts _ Hfree).
    rewrite (terminate_bound _ _ _ Hc Hfd).
    cbn [mem_pool_ clients_stack_ syscalls].
    split; [done|]. split; [done|].
    replace (syscalls p ++ [SysClose (sfd node); SysEpollDel (sfd node)])
      with ((syscalls p ++ [SysClose (sfd node)]) ++ [SysEpollDel (sfd node)])
      by (by rewrite <- app_assoc).
    rewrite !count_close_snoc, decide_True, decide_False by done. lia.
Qed.
End Admission.

Section AdmissionCases.
Import AtomicStack ClientPool PoolOps.

(** The pool of [add_client] once the popped slot carries the descriptor. *)
Lemma add_client_unfold p c node ok now fd :
  clients_stack_ p = Some c -> mem_pool_ p !! c = Some node ->
  add_client ok now fd p
  = let p3 := with_node c (set_sfd fd)
                (with_node c (set_value (BasicClient.construct fd))
                   (with_stack (mem_pool_ p, ptr_to_next node) p)) in
    let p5 := sys (SysEpollAdd fd kFlags c) (have_client_accepted c p3) in
    if ok then (Some c, timer_set c now p5) else (None, terminate c p5).
Proof.
  intros Hhead Hc. unfold add_client, pop, stack_of. cbn [fst snd].
  by rewrite Hhead, Hc.
Qed.

Lemma admitted_cell p c node fd :
  mem_pool_ p !! c = Some node ->
  mem_pool_ (with_node c (set_sfd fd)
               (with_node c (set_value (BasicClient.construct fd))
                  (with_stack (mem_pool_ p, ptr_to_next node) p))) !! c
  = Some (mkStackNode (BasicClient.construct fd) (uuid node) fd
                      (ptr_to_next node)).
Proof.
  intros Hc. unfold with_node, with_stack. cbn [fst snd mem_pool_].
  by rewrite !list_lookup_alter, !decide_True, Hc.
Qed.

(** What the accepted callback can do to the slot just bound. *)
Lemma accepted_on_bound c node p :
  mem_pool_ p !! c = Some node -> sfd node ≠ 0 ->
  let q := have_client_accepted c p in
  (mem_pool_ q = mem_pool_ p
   /\ clients_stack_ q = clients_stack_ p
   /\ count_close (sfd node) (syscalls q) = count_close (sfd node) (syscalls p))
  \/ (mem_pool_ q
      = <[c := mkStackNode (value node) (uuid node) 0 (clients_stack_ p)]>
          (mem_pool_ p)
      /\ clients_stack_ q = Some c
      /\ count_close (sfd node) (syscalls q)
         = S (count_close (sfd node) (syscalls p))).
Proof.
  intros Hc Hfd. unfold have_client_accepted.
  destruct (enable_client_accepted _); [|by left].
  unfold notify.
  exact (run_actions_on_bound c node _
           (record (CbAccepted (node_uuid c p)) p) Hc Hfd).
Qed.

Lemma accepted_frame c p :
  callbacks (have_client_accepted c p)
  = callbacks p ++ (if enable_client_accepted (packet_sink_ p)
                    then [CbAccepted (node_uuid c p)] else [])
  /\ timeout_keys_ (have_client_accepted c p) = timeout_keys_ p
  /\ packet_sink_ (have_client_accepted c p) = packet_sink_ p.
Proof.
  unfold have_client_accepted. destruct (enable_client_accepted _).
  - by destruct (notify_frame c (CbAccepted (node_uuid c p)) p) as (-> & -> & ->).
  - by rewrite app_nil_r.
Qed.
End AdmissionCases.

(** X6. Admission.  On a pool whose free stack is [c :: l], [add_client]
    with a descriptor other than 0 whose registration succeeds returns the
    top slot [c]; the sink receives accepted with the identifier of [c];
    the last system call is the registration of the descriptor with the
    connection flag set; the timeout map has the entry of [c] set to the
    clock reading and is otherwise unchanged.  Unless the accepted handler
    terminates the session, [c] is bound to the descriptor and the free
    stack is [l]. *)
Theorem add_client_admits (p : ClientPool.t) (c : nat) (l : list nat)
    (node : AtomicStack.StackNode BasicClient.t) (now fd : Z) :
  PoolOps.free_slots p (c :: l) ->
  ClientPool.mem_pool_ p !! c = Some node ->
  fd ≠ 0 ->
  let q := snd (ClientPool.add_client true now fd p) in
  fst (ClientPool.add_client true now fd p) = Some c
  /\ ClientPool.callbacks q
     = ClientPool.callbacks p
       ++ (if ClientPool.enable_client_accepted (ClientPool.packet_sink_ p)
           then [ClientPool.CbAccepted (AtomicStack.uuid node)] else [])
  /\ last (ClientPool.syscalls q)
     = Some (ClientPool.SysEpollAdd fd ClientPool.kFlags c)
  /\ ClientPool.timeout_keys_ q = <[c := now]> (ClientPool.timeout_keys_ p)
  /\ (ClientPool.enable_client_accepted (ClientPool.packet_sink_ p) = false
      \/ ClientPool.ActTerminate ∉
           ClientPool.react (ClientPool.packet_sink_ p)
             (ClientPool.callbacks p
                ++ [ClientPool.CbAccepted (AtomicStack.uuid node)]) ->
      PoolOps.free_slots q l /\ ClientPool.node_sfd c q = fd).
Proof.
  intros Hfree Hc Hfd.
  assert (ClientPool.clients_stack_ p = Some c) as Hhead.
  { destruct Hfree as (Hch & _). by inversion Hch. }
  rewrite (add_client_unfold p c node true now fd Hhead Hc). cbv zeta.
  cbn [fst snd].
  set (p3 := ClientPool.with_node c (AtomicStack.set_sfd fd)
               (ClientPool.with_node c
                  (AtomicStack.set_value (BasicClient.construct fd))
                  (ClientPool.with_stack
                     (ClientPool.mem_pool_ p, AtomicStack.ptr_to_next node) p))).
  pose proof (admitted_cell p c node fd Hc) as Hc3. fold p3 in Hc3.
  pose proof (free_slots_admit p c l node fd Hfree Hc Hfd) as Hfree3.
  fold p3 in Hfree3.
  assert (ClientPool.node_uuid c p3 = AtomicStack.uuid node) as Hu3
    by (unfold ClientPool.node_uuid; by rewrite Hc3).
  destruct (accepted_frame c p3) as (Hcb & Hk & Hs). rewrite Hu3 in Hcb.
  split; [done|]. split; [exact Hcb|]. split; [|split].
  - unfold ClientPool.timer_set, ClientPool.sys. cbn [ClientPool.syscalls
      ClientPool.with_keys]. apply last_snoc.
  - unfold ClientPool.timer_set, ClientPool.sys, TimeoutTimer.set.
    cbn [ClientPool.timeout_keys_ ClientPool.with_keys]. by rewrite Hk.
  - intros Hquiet.
    assert (ClientPool.mem_pool_ (ClientPool.have_client_accepted c p3)
            = ClientPool.mem_pool_ p3
            /\ ClientPool.clients_stack_ (ClientPool.have_client_accepted c p3)
               = ClientPool.clients_stack_ p3) as [Hm4 Hs4].
    { unfold ClientPool.have_client_accepted.
      change (ClientPool.packet_sink_ p3) with (ClientPool.packet_sink_ p).
      destruct Hquiet as [-> | Hno]; [done|].
      destruct (ClientPool.enable_client_accepted _); [|done].
      rewrite Hu3. unfold ClientPool.notify.
      exact (run_actions_no_terminate c _
               (ClientPool.record
                  (ClientPool.CbAccepted (AtomicStack.uuid node)) p3) Hno). }
    unfold PoolOps.free_slots, ClientPool.node_sfd, ClientPool.timer_set,
      ClientPool.sys.
    cbn [ClientPool.mem_pool_ ClientPool.clients_stack_ ClientPool.with_keys].
    rewrite Hm4, Hs4, Hc3. split; [exact Hfree3|done].
Qed.

Lemma add_client_admits_witness :
  fst (ClientPool.add_client true 1000 5 Scenario2.three_slots) = Some 2%nat
  /\ ClientPool.callbacks
       (snd (ClientPool.add_client true 1000 5 Scenario2.three_slots))
     = ClientPool.callbacks Scenario2.three_slots
       ++ (if ClientPool.enable_client_accepted
                (ClientPool.packet_sink_ Scenario2.three_slots)
           then [ClientPool.CbAccepted
                   (AtomicStack.uuid
                      (AtomicStack.mkStackNode BasicClient.default 2 0
                         (Some 1%nat)))]
           else []).
Proof.
  destruct (add_client_admits Scenario2.three_slots 2 [1%nat; 0%nat]
              (AtomicStack.mkStackNode BasicClient.default 2 0 (Some 1%nat))
              1000 5) as (Hr & Hcb & _).
  - apply (started_free Scenario.echo_sink (Scenario.raw_slab 3) 2). reflexivity.
  - reflexivity.
  - lia.
  - split; [exact Hr|exact Hcb].
Defined.

(** X7. Registration failure.  On a pool whose free stack is [c :: l],
    [add_client] with a descriptor other than 0 whose registration with
    the waiter fails returns null, whatever the accepted handler did with
    the session: the slot is back on top of the free stack, which is
    [c :: l] again, its descriptor is zero, the descriptor has been closed
    exactly once, and the connection is not armed in the timeout map. *)
Theorem add_client_registration_failure (p : ClientPool.t) (c : nat)
    (l : list nat) (node : AtomicStack.StackNode BasicClient.t) (now fd : Z) :
  PoolOps.free_slots p (c :: l) ->
  ClientPool.mem_pool_ p !! c = Some node ->
  fd ≠ 0 ->
  let q := snd (ClientPool.add_client false now fd p) in
  fst (ClientPool.add_client false now fd p) = None
  /\ PoolOps.free_slots q (c :: l)
  /\ ClientPool.node_sfd c q = 0
  /\ PoolOps.count_close fd (ClientPool.syscalls q)
     = S (PoolOps.count_close fd (ClientPool.syscalls p))
  /\ ClientPool.timeout_keys_ q = ClientPool.timeout_keys_ p.
Proof.
  intros Hfree Hc Hfd.
  assert (ClientPool.clients_stack_ p = Some c) as Hhead.
  { destruct Hfree as (Hch & _). by inversion Hch. }
  rewrite (add_client_unfold p c node false now fd Hhead Hc). cbv zeta.
  cbn [fst snd].
  set (p3 := ClientPool.with_node c (AtomicStack.set_sfd fd)
               (ClientPool.with_node c
                  (AtomicStack.set_value (BasicClient.construct fd))
                  (ClientPool.with_stack
                     (ClientPool.mem_pool_ p, AtomicStack.ptr_to_next node) p))).
  pose proof (admitted_cell p c node fd Hc) as Hc3. fold p3 in Hc3.
  pose proof (free_slots_admit p c l node fd Hfree Hc Hfd) as Hfree3.
  fold p3 in Hfree3.
  set (node3 := AtomicStack.mkStackNode (BasicClient.construct fd)
                  (AtomicStack.uuid node) fd (AtomicStack.ptr_to_next node)) in *.
  destruct (accepted_frame c p3) as (_ & Hk & _).
  set (p4 := ClientPool.have_client_accepted c p3) in *.
  set (p5 := ClientPool.sys (ClientPool.SysEpollAdd fd ClientPool.kFlags c) p4).
  assert (PoolOps.count_close fd (ClientPool.syscalls p5)
          = PoolOps.count_close fd (ClientPool.syscalls p4)) as Hn5.
  { subst p5. unfold ClientPool.sys. cbn [ClientPool.syscalls].
    rewrite count_close_snoc, decide_False by done. lia. }
  assert (ClientPool.mem_pool_ p5 = ClientPool.mem_pool_ p4
          /\ ClientPool.clients_stack_ p5 = ClientPool.clients_stack_ p4
          /\ ClientPool.timeout_keys_ p5 = ClientPool.timeout_keys_ p)
    as (Hm5 & Hs5 & Hk5) by (split; [done|split; [done|exact Hk]]).
  clearbody p5.
  assert (free_list
            (<[c := AtomicStack.mkStackNode (AtomicStack.value node3)
                      (AtomicStack.uuid node3) 0 (ClientPool.clients_stack_ p3)]>
               (ClientPool.mem_pool_ p3)) (Some c) (c :: l)) as Hreleased
    by (by apply free_list_release).
  assert (<[c := AtomicStack.mkStackNode (AtomicStack.value node3)
                      (AtomicStack.uuid node3) 0 (ClientPool.clients_stack_ p3)]>
            (ClientPool.mem_pool_ p3) !! c
          = Some (AtomicStack.mkStackNode (AtomicStack.value node3)
                    (AtomicStack.uuid node3) 0 (ClientPool.clients_stack_ p3)))
    as Hzero by (apply list_lookup_insert_eq; by eapply lookup_lt_Some).
  assert (PoolOps.count_close fd (ClientPool.syscalls p3)
          = PoolOps.count_close fd (ClientPool.syscalls p)) as Hn3 by done.
  split; [done|].
  destruct (accepted_on_bound c node3 p3 Hc3 Hfd) as [(Hm & Hs & Hn)|(Hm & Hs & Hn)];
    fold p4 in Hm, Hs, Hn; change (AtomicStack.sfd node3) with fd in Hn;
    clearbody p4 p3.
  - assert (ClientPool.mem_pool_ p5 !! c = Some node3) as Hc5
      by (by rewrite Hm5, Hm).
    rewrite (terminate_bound p5 c node3 Hc5 Hfd).
    unfold PoolOps.free_slots, ClientPool.node_sfd.
    cbn [ClientPool.mem_pool_ ClientPool.clients_stack_ ClientPool.syscalls
         ClientPool.timeout_keys_].
    rewrite Hm5, Hs5, Hm, Hs, Hzero. split; [exact Hreleased|].
    split; [done|]. split; [|done].
    change (AtomicStack.sfd node3) with fd.
    replace (ClientPool.syscalls p5
             ++ [ClientPool.SysClose fd; ClientPool.SysEpollDel fd])
      with ((ClientPool.syscalls p5 ++ [ClientPool.SysClose fd])
            ++ [ClientPool.SysEpollDel fd]) by (by rewrite <- app_assoc).
    rewrite !count_close_snoc, decide_True, decide_False, Hn5, Hn, Hn3 by done.
    lia.
  - assert (ClientPool.node_sfd c p5 = 0) as Hz5
      by (unfold ClientPool.node_sfd; by rewrite Hm5, Hm, Hzero).
    rewrite (terminate_free p5 c Hz5).
    split; [|split; [exact Hz5|split; [|done]]].
    + unfold PoolOps.free_slots. rewrite Hm5, Hs5, Hm, Hs. exact Hreleased.
    + by rewrite Hn5, Hn, Hn3.
Qed.

Lemma add_client_registration_failure_witness :
  fst (ClientPool.add_client false 1000 5 Scenario2.three_slots) = None
  /\ PoolOps.free_slots
       (snd (ClientPool.add_client false 1000 5 Scenario2.three_slots))
       [2%nat; 1%nat; 0%nat].
Proof.
  destruct (add_client_registration_failure Scenario2.three_slots 2
              [1%nat; 0%nat]
              (AtomicStack.mkStackNode BasicClient.default 2 0 (Some 1%nat))
              1000 5) as (Hr & Hfree & _).
  - apply (started_free Scenario.echo_sink (Scenario.raw_slab 3) 2). reflexivity.
  - reflexivity.
  - lia.
  - split; [exact Hr|exact Hfree].
Defined.

(** X8. Descriptor 0.  A connection admitted on descriptor 0 takes the top
    slot [c] off the free stack and leaves its descriptor field at zero,
    the mark of a free slot: the slot is on no list, [terminate] and its
    two variants do nothing on it, and descriptor 0 is not closed, whether
    the registration succeeds or fails. *)
Theorem add_client_descriptor_zero (p : ClientPool.t) (c : nat) (l : list nat)
    (node : AtomicStack.StackNode BasicClient.t) (ok : bool) (now : Z) :
  PoolOps.free_slots p (c :: l) ->
  ClientPool.mem_pool_ p !! c = Some node ->
  let q := snd (ClientPool.add_client ok now 0 p) in
  fst (ClientPool.add_client ok now 0 p) = (if ok then Some c else None)
  /\ chain (ClientPool.mem_pool_ q) (ClientPool.clients_stack_ q) l
  /\ (c ∉ l)
  /\ ClientPool.node_sfd c q = 0
  /\ ClientPool.terminate c q = q
  /\ ClientPool.terminate_on_close c q = q
  /\ ClientPool.terminate_on_error c q = q
  /\ PoolOps.count_close 0 (ClientPool.syscalls q)
     = PoolOps.count_close 0 (ClientPool.syscalls p).
Proof.
  intros Hfree Hc.
  assert (ClientPool.clients_stack_ p = Some c) as Hhead.
  { destruct Hfree as (Hch & _). by inversion Hch. }
  rewrite (add_client_unfold p c node ok now 0 Hhead Hc). cbv zeta.
  set (p3 := ClientPool.with_node c (AtomicStack.set_sfd 0)
               (ClientPool.with_node c
                  (AtomicStack.set_value (BasicClient.construct 0))
                  (ClientPool.with_stack
                     (ClientPool.mem_pool_ p, AtomicStack.ptr_to_next node) p))).
  pose proof (admitted_cell p c node 0 Hc) as Hc3. fold p3 in Hc3.
  assert (ClientPool.node_sfd c p3 = 0) as Hz3
    by (unfold ClientPool.node_sfd; by rewrite Hc3).
  destruct Hfree as (Hch & Hnd & _).
  apply NoDup_cons in Hnd as [Hnin _].
  assert (chain (ClientPool.mem_pool_ p3) (ClientPool.clients_stack_ p3) l)
    as Hch3.
  { subst p3. unfold ClientPool.with_node, ClientPool.with_stack.
    cbn [fst snd ClientPool.mem_pool_ ClientPool.clients_stack_].
    rewrite Hhead in Hch. inversion Hch as [|h n l' Hh Hrest]; subst.
    rewrite Hc in Hh. injection Hh as <-.
    apply chain_alter_off; [apply chain_alter_off|]; done. }
  set (p4 := ClientPool.have_client_accepted c p3).
  assert (ClientPool.mem_pool_ p4 = ClientPool.mem_pool_ p3
          /\ ClientPool.clients_stack_ p4 = ClientPool.clients_stack_ p3
          /\ PoolOps.count_close 0 (ClientPool.syscalls p4)
             = PoolOps.count_close 0 (ClientPool.syscalls p3))
    as (Hm4 & Hs4 & Hn4).
  { subst p4. unfold ClientPool.have_client_accepted.
    destruct (ClientPool.enable_client_accepted _); [|done].
    unfold ClientPool.notify.
    destruct (run_actions_on_free c
                (ClientPool.react (ClientPool.packet_sink_ p3)
                   (ClientPool.callbacks
                      (ClientPool.record
                         (ClientPool.CbAccepted (ClientPool.node_uuid c p3)) p3)))
                (ClientPool.record
                   (ClientPool.CbAccepted (ClientPool.node_uuid c p3)) p3) Hz3)
      as [-> ->].
    split; [done|]. split; [done|].
    by rewrite run_actions_on_free_closes. }
  set (p5 := ClientPool.sys (ClientPool.SysEpollAdd 0 ClientPool.kFlags c) p4).
  assert (ClientPool.node_sfd c p5 = 0) as Hz5.
  { subst p5. unfold ClientPool.node_sfd in *.
    cbn [ClientPool.sys ClientPool.mem_pool_]. by rewrite Hm4. }
  assert (PoolOps.count_close 0 (ClientPool.syscalls p5)
          = PoolOps.count_close 0 (ClientPool.syscalls p)) as Hn5.
  { subst p5. unfold ClientPool.sys. cbn [ClientPool.syscalls].
    rewrite count_close_snoc, decide_False, Hn4 by done.
    change (ClientPool.syscalls p3) with (ClientPool.syscalls p). lia. }
  assert (forall q,
    ClientPool.mem_pool_ q = ClientPool.mem_pool_ p5 ->
    ClientPool.clients_stack_ q = ClientPool.clients_stack_ p5 ->
    ClientPool.syscalls q = ClientPool.syscalls p5 ->
    chain (ClientPool.mem_pool_ q) (ClientPool.clients_stack_ q) l
    /\ (c ∉ l)
    /\ ClientPool.node_sfd c q = 0
    /\ ClientPool.terminate c q = q
    /\ ClientPool.terminate_on_close c q = q
    /\ ClientPool.terminate_on_error c q = q
    /\ PoolOps.count_close 0 (ClientPool.syscalls q)
       = PoolOps.count_close 0 (ClientPool.syscalls p)) as Hend.
  { intros q Hm Hs Hsys.
    assert (ClientPool.node_sfd c q = 0) as Hzq
      by (unfold ClientPool.node_sfd in *; by rewrite Hm).
    rewrite Hm, Hs, Hsys, Hn5. subst p5.
    cbn [ClientPool.sys ClientPool.mem_pool_ ClientPool.clients_stack_].
    rewrite Hm4, Hs4. split; [done|]. split; [done|]. split; [done|].
    split; [by apply terminate_free|].
    split; [by apply terminate_on_close_free|].
    split; [by apply terminate_on_error_free|done]. }
  destruct ok; cbn [fst snd].
  - split; [done|]. by apply Hend.
  - split; [done|]. rewrite (terminate_free p5 c Hz5). by apply Hend.
Qed.

Lemma add_client_descriptor_zero_witness :
  fst (ClientPool.add_client true 1000 0 Scenario2.three_slots) = Some 2%nat
  /\ ClientPool.terminate 2
       (snd (ClientPool.add_client true 1000 0 Scenario2.three_slots))
     = snd (ClientPool.add_client true 1000 0 Scenario2.three_slots).
Proof.
  destruct (add_client_descriptor_zero Scenario2.three_slots 2 [1%nat; 0%nat]
              (AtomicStack.mkStackNode BasicClient.default 2 0 (Some 1%nat))
              true 1000) as (Hr & _ & _ & _ & Ht & _).
  - apply (started_free Scenario.echo_sink (Scenario.raw_slab 3) 2). reflexivity.
  - reflexivity.
  - split; [exact Hr|exact Ht].
Defined.

(** ** Teardown and the reaper *)

Section Teardown.
Import AtomicStack ClientPool PoolOps.

Lemma node_sfd_terminate i c p :
  node_sfd i (terminate c p) = if decide (i = c) then 0 else node_sfd i p.
Proof.
  unfold terminate. destruct (Z.eqb_spec (node_sfd c p) 0) as [Hz|Hnz].
  - destruct (decide (i = c)) as [->|]; done.
  - unfold node_sfd, with_stack, push, stack_of, with_node, sys.
    cbn [fst snd mem_pool_]. destruct (decide (i = c)) as [->|Hne].
    + rewrite !list_lookup_alter, !decide_True by done.
      by destruct (mem_pool_ p !! c).
    + by rewrite !list_lookup_alter_ne.
Qed.

Lemma node_sfd_terminate_on_close i c p :
  i ≠ c -> node_sfd i (terminate_on_close c p) = node_sfd i p.
Proof.
  intros Hne. destruct (mem_pool_ p !! c) as [node|] eqn:Hc.
  - destruct (decide (sfd node = 0)) as [H0|Hnz].
    + rewrite terminate_on_close_free; [done|].
      by rewrite (node_sfd_lookup _ _ _ Hc).
    + destruct (terminate_on_close_bound p c node Hc Hnz) as (_ & Hm & _).
      unfold node_sfd. by rewrite Hm, list_lookup_insert_ne.
  - rewrite terminate_on_close_free; [done|]. unfold node_sfd. by rewrite Hc.
Qed.

Lemma syscalls_terminate c p :
  syscalls (terminate c p)
  = syscalls p ++ (if node_sfd c p =? 0 then []
                   else [SysClose (node_sfd c p); SysEpollDel (node_sfd c p)]).
Proof.
  unfold terminate. destruct (node_sfd c p =? 0); [by rewrite app_nil_r|].
  cbn. by rewrite <- app_assoc.
Qed.

Lemma filter_none {A} (P : A -> Prop) `{!forall x, Decision (P x)} (l : list A) :
  (forall x, x ∈ l -> ¬ P x) -> filter P l = [].
Proof.
  induction l as [|x l IH]; intros Hno; [done|].
  rewrite filter_cons_False by (apply Hno; by left).
  apply IH. intros y Hy. apply Hno. by right.
Qed.

Lemma filter_ext_in {A} (P Q : A -> Prop) `{!forall x, Decision (P x)}
    `{!forall x, Decision (Q x)} (l : list A) :
  (forall x, x ∈ l -> P x <-> Q x) -> filter P l = filter Q l.
Proof.
  induction l as [|x l IH]; intros Hext; [done|].
  assert (P x <-> Q x) as Hx by (apply Hext; by left).
  assert (filter P l = filter Q l) as Hl
    by (apply IH; intros y Hy; apply Hext; by right).
  destruct (decide (P x)) as [HP|HP].
  - rewrite !filter_cons_True by tauto. by rewrite Hl.
  - rewrite !filter_cons_False by tauto. done.
Qed.

(** [terminate] over a list of slots: no callback, every slot of the list
    ends with descriptor 0, the others are untouched, and every descriptor
    that was bound in one of them is closed. *)
Lemma terminate_all slots : forall p,
  let q := foldl (fun q i => terminate i q) p slots in
  callbacks q = callbacks p
  /\ timeout_keys_ q = timeout_keys_ p
  /\ (forall i, node_sfd i q = if decide (i ∈ slots) then 0 else node_sfd i p)
  /\ (exists more, syscalls q = syscalls p ++ more)
  /\ (forall i, i ∈ slots -> node_sfd i p ≠ 0 ->
        SysClose (node_sfd i p) ∈ syscalls q)
  /\ keeps_free p q
  /\ same_shape p q.
Proof.
  induction slots as [|c slots IH]; intros p; cbv zeta.
  - split; [done|]. split; [done|]. split.
    { intros i. by rewrite decide_False by apply not_elem_of_nil. }
    split; [exists []; by rewrite app_nil_r|].
    split; [by intros i ?%elem_of_nil|].
    split; [apply keeps_free_refl|apply same_shape_refl].
  - cbn [foldl].
    destruct (IH (terminate c p)) as (Hcb & Hk & Hfd & [more Hsys] & Hcl & Hkf & Hsh).
    split; [rewrite Hcb; unfold terminate; by destruct (_ =? 0)|].
    split; [by rewrite Hk, terminate_keys|].
    split; [|split; [|split; [|split]]].
    + intros i. rewrite Hfd, node_sfd_terminate.
      destruct (decide (i ∈ slots)) as [Hin|Hnin].
      * by rewrite decide_True by (by right).
      * destruct (decide (i = c)) as [->|Hne].
        -- by rewrite decide_True by (by left).
        -- by rewrite decide_False by (by intros [?|?]%elem_of_cons).
    + rewrite Hsys, syscalls_terminate, <- app_assoc. by eexists.
    + intros i Hin Hbound. destruct (decide (i = c)) as [->|Hne].
      * rewrite Hsys, syscalls_terminate.
        destruct (Z.eqb_spec (node_sfd c p) 0) as [|_]; [done|].
        apply elem_of_app. left. apply elem_of_app. right. by left.
      * apply elem_of_cons in Hin as [->|Hin]; [done|].
        assert (node_sfd i (terminate c p) = node_sfd i p) as Hsame
          by (by rewrite node_sfd_terminate, decide_False).
        rewrite <- Hsame. apply Hcl; [done|]. by rewrite Hsame.
    + eapply keeps_free_trans; [apply keeps_free_terminate|exact Hkf].
    + eapply same_shape_trans; [apply same_shape_terminate|exact Hsh].
Qed.
End Teardown.

(** X9. The slot walk of [stop].  On a pool with a well-formed free stack,
    calling [terminate] on every slot of the slab leaves every slot free:
    the free stack holds all the slots, none is bound, and every descriptor
    that was bound has been closed.  No callback is fired: the sink is not
    told that these connections were closed. *)
Theorem stop_reclaims_every_slot (p : ClientPool.t) (l : list nat) :
  PoolOps.free_slots p l ->
  let q := PoolOps.reset_clients p in
  (exists l', PoolOps.free_slots q l'
              /\ length l' = length (ClientPool.mem_pool_ p))
  /\ PoolOps.bound_slots q = []
  /\ (forall i, i ∈ PoolOps.bound_slots p ->
        ClientPool.SysClose (ClientPool.node_sfd i p) ∈ ClientPool.syscalls q)
  /\ ClientPool.callbacks q = ClientPool.callbacks p.
Proof.
  intros Hfree q.
  destruct (terminate_all (seq 0 (length (ClientPool.mem_pool_ p))) p)
    as (Hcb & _ & Hfd & _ & Hcl & Hkf & (Hlen & _)).
  fold (PoolOps.reset_clients p) in Hcb, Hfd, Hcl, Hkf, Hlen. fold q in Hcb, Hfd, Hcl, Hkf, Hlen.
  assert (PoolOps.bound_slots q = []) as Hnone.
  { unfold PoolOps.bound_slots. apply filter_none. intros i Hi.
    rewrite Hlen in Hi. rewrite Hfd, decide_True by done. by intros ?. }
  split; [|split; [done|split; [|done]]].
  - destruct (Hkf l Hfree) as [l' Hl']. exists l'. split; [done|].
    pose proof (free_slots_count q l' Hl') as Hcount.
    rewrite Hnone, Hlen in Hcount. cbn in Hcount. lia.
  - intros i [Hb Hi]%list_elem_of_filter. by apply Hcl.
Qed.

Lemma stop_reclaims_every_slot_witness :
  PoolOps.bound_slots (PoolOps.reset_clients Scenario.one_bound) = []
  /\ ClientPool.callbacks (PoolOps.reset_clients Scenario.one_bound)
     = ClientPool.callbacks Scenario.one_bound.
Proof.
  destruct (stop_reclaims_every_slot Scenario.one_bound [])
    as (_ & Hb & _ & Hcb).
  - split; [vm_compute; constructor|]. split; [constructor|].
    intros i node Hi. destruct i as [|i]; [|done].
    vm_compute in Hi. injection Hi as <-.
    split; [done|by intros ?%elem_of_nil].
  - split; [exact Hb|exact Hcb].
Defined.

Section Reaper.
Import AtomicStack ClientPool PoolOps.

Lemma terminate_on_close_sink c p :
  packet_sink_ (terminate_on_close c p) = packet_sink_ p.
Proof. by destruct (same_shape_terminate_on_close c p) as (_ & _ & ->). Qed.

Lemma node_uuid_terminate_on_close i c p :
  node_uuid i (terminate_on_close c p) = node_uuid i p.
Proof. by destruct (same_shape_terminate_on_close c p) as (_ & -> & _). Qed.

(** The reaper's callback on keys that are all different. *)
Lemma on_timeout_spec keys : forall p,
  NoDup keys ->
  callbacks (on_timeout keys p)
  = callbacks p
    ++ (if enable_client_closed (packet_sink_ p)
        then (fun k => CbClosed (node_uuid k p))
               <$> filter (fun k => node_sfd k p ≠ 0) keys
        else [])
  /\ (forall i, i ∈ keys -> node_sfd i (on_timeout keys p) = 0)
  /\ (forall i, i ∉ keys -> node_sfd i (on_timeout keys p) = node_sfd i p)
  /\ timeout_keys_ (on_timeout keys p) = timeout_keys_ p.
Proof.
  unfold on_timeout.
  induction keys as [|c keys IH]; intros p Hnd.
  - cbn. split; [by destruct (enable_client_closed _); rewrite app_nil_r|].
    split; [by intros i ?%elem_of_nil|done].
  - apply NoDup_cons in Hnd as [Hnin Hnd]. cbn [foldl].
    destruct (IH (terminate_on_close c p) Hnd) as (Hcb & Hin & Hout & Hk).
    destruct (terminate_on_close_spec p c) as [Hcb1 Hz1].
    split; [|split; [|split]].
    + rewrite Hcb, Hcb1, terminate_on_close_sink, <- app_assoc. f_equal.
      assert (filter (fun k => node_sfd k (terminate_on_close c p) ≠ 0) keys
              = filter (fun k => node_sfd k p ≠ 0) keys) as ->.
      { apply filter_ext_in. intros k Hk'.
        rewrite node_sfd_terminate_on_close; [done|]. by intros ->. }
      assert ((fun k => CbClosed (node_uuid k (terminate_on_close c p)))
                <$> filter (fun k => node_sfd k p ≠ 0) keys
              = (fun k => CbClosed (node_uuid k p))
                  <$> filter (fun k => node_sfd k p ≠ 0) keys) as ->.
      { apply list_fmap_ext. intros _ k _.
        by rewrite node_uuid_terminate_on_close. }
      destruct (Z.eqb_spec (node_sfd c p) 0) as [Hz|Hnz].
      * rewrite filter_cons_False by (by intros ?). done.
      * rewrite filter_cons_True by done.
        destruct (enable_client_closed (packet_sink_ p)); [|done].
        by rewrite fmap_cons.
    + intros i [->|Hi]%elem_of_cons; [|by apply Hin].
      by rewrite Hout.
    + intros i [Hne Hni]%not_elem_of_cons.
      rewrite Hout by done. by apply node_sfd_terminate_on_close.
    + by rewrite Hk, terminate_on_close_keys.
Qed.

(** The turn of a reaper thread that holds a good copy of the callback. *)
Lemma reap_unfold interval now_at p :
  reap true interval now_at p
  = Some (on_timeout
            (fst (TimeoutTimer.prune_timed_out_keys interval now_at
                    (timeout_keys_ p)))
            (with_keys
               (snd (TimeoutTimer.prune_timed_out_keys interval now_at
                       (timeout_keys_ p))) p)).
Proof. unfold reap. by destruct (fst _). Qed.
End Reaper.

(** X10. A reaper turn against the pool.  The reaper thread calls its own
    copy of the callback, taken from a reference to a temporary of
    [ClientPool::run]: a turn has a result only when the copy was made while
    the temporary was alive, and none otherwise.  In that case the entries
    whose elapsed milliseconds exceed the interval leave the timeout map;
    each of their connections that is still bound is terminated on close:
    the sink receives closed for it, once, in the order of the pass, and
    never error; an expired entry of a slot that is already free produces
    no callback.  Afterwards no expired connection is bound. *)
Theorem reap_terminates_on_close (timeout_interval : Z) (now_at : nat -> Z)
    (p : ClientPool.t) :
  let pass := TimeoutTimer.prune_timed_out_keys timeout_interval now_at
                (ClientPool.timeout_keys_ p) in
  PoolOps.reap false timeout_interval now_at p = None
  /\ exists q,
       PoolOps.reap true timeout_interval now_at p = Some q
       /\ ClientPool.callbacks q
          = ClientPool.callbacks p
            ++ (if ClientPool.enable_client_closed (ClientPool.packet_sink_ p)
                then (fun k => ClientPool.CbClosed (ClientPool.node_uuid k p))
                       <$> filter (fun k => ClientPool.node_sfd k p ≠ 0)
                             (fst pass)
                else [])
       /\ ClientPool.timeout_keys_ q = snd pass
       /\ (forall k, k ∈ fst pass ->
             ClientPool.node_sfd k q = 0
             /\ ClientPool.timeout_keys_ q !! k = None)
       /\ (forall k, k ∉ fst pass ->
             ClientPool.node_sfd k q = ClientPool.node_sfd k p
             /\ ClientPool.timeout_keys_ q !! k
                = ClientPool.timeout_keys_ p !! k).
Proof.
  intros pass. split; [reflexivity|].
  destruct (prune_pass_spec timeout_interval now_at (ClientPool.timeout_keys_ p))
    as (Hout & Hnd & Hkeep). fold pass in Hout, Hnd, Hkeep.
  assert (forall k, k ∈ fst pass -> snd pass !! k = None) as Hgone.
  { intros k (t & Hk & Hlt)%Hout. rewrite Hkeep, Hk.
    by destruct (Z.ltb_spec timeout_interval
                   (TimeoutTimer.time_delta (now_at k) t)); [|lia]. }
  assert (forall k, k ∉ fst pass ->
            snd pass !! k = ClientPool.timeout_keys_ p !! k) as Hstay.
  { intros k Hk. rewrite Hkeep.
    destruct (ClientPool.timeout_keys_ p !! k) as [t|] eqn:Ht; [|done].
    destruct (Z.ltb_spec timeout_interval
                (TimeoutTimer.time_delta (now_at k) t)); [|done].
    exfalso. apply Hk, Hout. by exists t. }
  destruct (on_timeout_spec (fst pass)
              (ClientPool.with_keys (snd pass) p) Hnd) as (Hcb & Hin & Hnin & Hk).
  rewrite reap_unfold. fold pass. eexists. split; [reflexivity|].
  split; [exact Hcb|]. split; [exact Hk|]. split.
  - intros k Hk'. split; [by apply Hin|]. rewrite Hk. by apply Hgone.
  - intros k Hk'. split; [by rewrite Hnin|]. rewrite Hk. by apply Hstay.
Qed.

(** ** The wait loop *)

(** X11. In one batch of [epoll_wait] the events in front of the self-pipe
    event are handed to the sink in their order; the self-pipe event ends
    the batch, and the events behind it are never handed to the sink. *)
Theorem dispatch_stops_at_selfpipe (pre : list (nat * Z))
    (post : list EpollWaiter.event) (w : EpollWaiter.t) :
  let fed := EpollWaiter.mk (EpollWaiter.instance_count_ w)
               (EpollWaiter.selfpipe_bytes w) (EpollWaiter.selfpipe_armed w)
               (EpollWaiter.close_signals w) (EpollWaiter.triggered w ++ pre) in
  EpollWaiter.dispatch
    ((fun e => EpollWaiter.EvHandler (fst e) (snd e)) <$> pre) w = (fed, true)
  /\ EpollWaiter.dispatch
       (((fun e => EpollWaiter.EvHandler (fst e) (snd e)) <$> pre)
          ++ EpollWaiter.EvSelfPipe :: post) w
     = (EpollWaiter.on_selfpipe fed, false)
  /\ EpollWaiter.triggered (EpollWaiter.on_selfpipe fed)
     = EpollWaiter.triggered w ++ pre.
Proof.
  cbv zeta. revert w.
  induction pre as [|[h ev] pre IH]; intros w.
  - rewrite app_nil_r. cbn. split; [by destruct w|]. split; [done|].
    unfold EpollWaiter.on_selfpipe. by destruct (0 <? _).
  - rewrite !fmap_cons. cbn [app EpollWaiter.dispatch fst snd].
    destruct (IH (EpollWaiter.on_handler h ev w)) as (H1 & H2 & H3).
    unfold EpollWaiter.on_handler in *.
    cbn [EpollWaiter.instance_count_ EpollWaiter.selfpipe_bytes
         EpollWaiter.selfpipe_armed EpollWaiter.close_signals
         EpollWaiter.triggered] in *.
    rewrite <- app_assoc in H1, H2, H3. cbn [app] in H1, H2, H3.
    done.
Qed.

Section Drain.
Import EpollWaiter.

Lemma error_exits_cons wk ready rest :
  error_exits ((wk, ready) :: rest)
  = ((if is_error ready then 1 else 0) + error_exits rest)%nat.
Proof.
  unfold error_exits. destruct ready as [batch|]; cbn [is_error].
  - by rewrite filter_cons_False by done.
  - by rewrite filter_cons_True by done.
Qed.

Lemma drain_inv_signalled K :
  (1 <= K)%nat -> drain_inv K 0 (signal (started K)).
Proof.
  intros HK. rewrite started_eq. unfold drain_inv, signal, close. cbn.
  rewrite length_seq. split; [f_equal; lia|]. split; [lia|].
  split; [apply NoDup_seq|]. split; [lia|].
  destruct (Z.ltb_spec 0 (Z.of_nat K)); [done|lia].
Qed.

(** One wake-up: an error takes the worker out and leaves the counter. *)
Lemma epoll_return_drain K e wk ready sys sys' :
  drain_inv K e sys ->
  epoll_return wk ready sys = Some sys' ->
  drain_inv K ((if is_error ready then 1 else 0) + e) sys'.
Proof.
  intros (Hcount & Hlen & Hnd & He & Hpipe) Hret. unfold epoll_return in Hret.
  destruct (bool_decide (wk ∈ waiting sys)) eqn:Hwk; [|done].
  apply bool_decide_eq_true in Hwk. cbn [negb] in Hret.
  pose proof (filter_ne_length (waiting sys) wk Hnd Hwk) as Hfl.
  assert (NoDup (filter (fun x => x ≠ wk) (waiting sys))) as Hnd'
    by (by apply NoDup_filter).
  remember (filter (fun x => x ≠ wk) (waiting sys)) as remaining eqn:Hrem.
  clear Hrem.
  destruct ready as [batch|]; cbn [is_error].
  - destruct (existsb is_selfpipe batch) eqn:Hsp.
    + destruct (Z.ltb_spec 0 (instance_count_ (waiter sys))) as [Hpos|Hzero].
      * destruct Hpipe as (Hb & Ha & Hc). rewrite Ha, Hb in Hret.
        cbn [andb negb Z.of_nat Z.ltb Z.compare] in Hret.
        destruct (dispatch_selfpipe batch
                    (mk (instance_count_ (waiter sys)) 1 false
                        (close_signals (waiter sys)) (triggered (waiter sys)))
                    Hsp) as [tr Hd].
        rewrite Hd in Hret. injection Hret as <-.
        unfold drain_inv, on_selfpipe, close.
        cbn [waiting exited waiter instance_count_ selfpipe_bytes
             selfpipe_armed close_signals triggered pred].
        rewrite length_app. cbn [length].
        destruct (Z.ltb_spec 0 (instance_count_ (waiter sys) - 1))
          as [Hpos'|Hzero'];
          cbn [instance_count_ selfpipe_bytes selfpipe_armed close_signals].
        -- split; [lia|]. split; [lia|]. split; [done|]. split; [lia|].
           destruct (Z.ltb_spec 0 (instance_count_ (waiter sys) - 1)); [|lia].
           split; [done|]. split; [done|]. lia.
        -- split; [lia|]. split; [lia|]. split; [done|]. split; [lia|].
           destruct (Z.ltb_spec 0 (instance_count_ (waiter sys) - 1)); [lia|].
           split; [done|]. lia.
      * destruct Hpipe as (Hb & _). rewrite Hb in Hret.
        cbn [Z.of_nat Z.ltb Z.compare] in Hret.
        rewrite andb_false_r in Hret. done.
    + cbn [andb] in Hret.
      destruct (dispatch_regular batch (waiter sys) Hsp) as [tr Hd].
      rewrite Hd in Hret. injection Hret as <-.
      unfold drain_inv. cbn. done.
  - injection Hret as <-. unfold drain_inv. cbn [waiting exited waiter].
    rewrite length_app. cbn [length].
    split; [lia|]. split; [lia|]. split; [done|]. split; [lia|].
    destruct (Z.ltb_spec 0 (instance_count_ (waiter sys))) as [Hpos|Hzero].
    + destruct Hpipe as (Hb & Ha & Hc). split; [done|]. split; [done|]. lia.
    + destruct (waiting sys); [by apply elem_of_nil in Hwk|].
      cbn [length] in Hcount. lia.
Qed.

Lemma run_schedule_drain K sched : forall e sys sys',
  drain_inv K e sys -> run_schedule sched sys = Some sys' ->
  drain_inv K (error_exits sched + e) sys'.
Proof.
  induction sched as [|[wk ready] rest IH]; intros e sys sys' Hinv Hrun;
    cbn [run_schedule] in Hrun.
  - by injection Hrun as <-.
  - destruct (epoll_return wk ready sys) as [sys1|] eqn:Hret; [|done].
    rewrite error_exits_cons.
    replace ((if is_error ready then 1 else 0) + error_exits rest + e)%nat
      with (error_exits rest + ((if is_error ready then 1 else 0) + e))%nat
      by lia.
    eapply IH; [|done]. by eapply epoll_return_drain.
Qed.
End Drain.

(** X12. [close] is called while [K >= 1] workers are inside [wait], and
    some wake-ups are failures of [epoll_wait]: the worker leaves [wait]
    without decrementing the counter.  Whatever the schedule, the counter
    equals the workers still inside plus those that left on an error.  So
    when everybody has left and [e >= 1] of them on an error, the counter
    is [e], not 0, [close] has run [K - e + 1] times, and one byte is left
    unread on the armed self-pipe. *)
Theorem error_exit_unbalances_chain (K : nat)
    (sched : list (nat * option (list EpollWaiter.event)))
    (sys : EpollWaiter.system) :
  (1 <= K)%nat ->
  EpollWaiter.run_schedule sched (EpollWaiter.signal (EpollWaiter.started K))
    = Some sys ->
  EpollWaiter.instance_count_ (EpollWaiter.waiter sys)
    = Z.of_nat (length (EpollWaiter.waiting sys) + error_exits sched)
  /\ (length (EpollWaiter.waiting sys) + length (EpollWaiter.exited sys)
      = K)%nat
  /\ (EpollWaiter.waiting sys = [] -> (1 <= error_exits sched)%nat ->
      EpollWaiter.instance_count_ (EpollWaiter.waiter sys)
        = Z.of_nat (error_exits sched)
      /\ EpollWaiter.close_signals (EpollWaiter.waiter sys)
         = S (K - error_exits sched)
      /\ EpollWaiter.selfpipe_bytes (EpollWaiter.waiter sys) = 1%nat
      /\ EpollWaiter.selfpipe_armed (EpollWaiter.waiter sys) = true).
Proof.
  intros HK Hrun.
  pose proof (run_schedule_drain K sched 0 _ _ (drain_inv_signalled K HK) Hrun)
    as (Hcount & Hlen & _ & He & Hpipe).
  rewrite Nat.add_0_r in *.
  split; [done|]. split; [done|]. intros Hw Herr.
  rewrite Hw in *. cbn [length] in *.
  destruct (Z.ltb_spec 0 (EpollWaiter.instance_count_ (EpollWaiter.waiter sys)));
    [|lia].
  destruct Hpipe as (Hb & Ha & Hc).
  split; [done|]. split; [|done]. rewrite Hc. f_equal. lia.
Qed.

Lemma error_exit_unbalances_chain_witness :
  exists sys,
    EpollWaiter.run_schedule DrainScenario.one_error
      (EpollWaiter.signal (EpollWaiter.started 2)) = Some sys
    /\ EpollWaiter.waiting sys = []
    /\ EpollWaiter.instance_count_ (EpollWaiter.waiter sys) = 1
    /\ EpollWaiter.close_signals (EpollWaiter.waiter sys) = 2%nat
    /\ EpollWaiter.selfpipe_bytes (EpollWaiter.waiter sys) = 1%nat.
Proof.
  eexists. split; [reflexivity|]. split; [reflexivity|].
  pose proof (error_exit_unbalances_chain 2 DrainScenario.one_error _
                ltac:(lia) eq_refl) as (_ & _ & Hend).
  destruct (Hend eq_refl ltac:(vm_compute; lia)) as (Hc & Hs & Hb & _).
  split; [exact Hc|]. split; [exact Hs|]. exact Hb.
Defined.

(** ** Listeners *)

Section Listeners.
Import ClientPool ServerBind.

#[local] Instance greater_trans : Transitive greater.
Proof. intros a b c. unfold greater. lia. Qed.

#[local] Instance greater_total : Total greater.
Proof. intros a b. unfold greater. lia. Qed.

Lemma entries_perm servers : entries servers ≡ₚ map_to_list servers.
Proof. apply merge_sort_Permutation. Qed.

Lemma entries_empty servers : entries servers = [] -> servers = ∅.
Proof.
  intros Hnil. apply map_to_list_empty_iff, Permutation_nil_r.
  by rewrite <- entries_perm, Hnil.
Qed.

(** The first entry is a session of the map and has its largest key. *)
Lemma entries_top servers top rest :
  entries servers = top :: rest ->
  servers !! fst top = Some (snd top)
  /\ forall k s, servers !! k = Some s -> k <= fst top.
Proof.
  intros Htop.
  pose proof (StronglySorted_merge_sort greater (map_to_list servers)) as Hs.
  fold (entries servers) in Hs. rewrite Htop in Hs.
  apply StronglySorted_inv in Hs as [_ Hall].
  assert (forall kv, kv ∈ map_to_list servers -> kv ∈ top :: rest) as Hin.
  { intros kv Hkv. by rewrite <- Htop, entries_perm. }
  split.
  - apply elem_of_map_to_list. rewrite <- entries_perm, Htop.
    destruct top. by left.
  - intros k s Hk. apply elem_of_map_to_list in Hk.
    apply Hin in Hk. apply elem_of_cons in Hk as [<-|Hk]; [done|].
    rewrite Forall_forall in Hall. exact (Hall _ Hk).
Qed.

Lemma to_int_small z : - 2 ^ 31 <= z < 2 ^ 31 -> to_int z = z.
Proof. intros Hz. unfold to_int. rewrite Z.mod_small; lia. Qed.

(** The identifier [do_add] picks in a map whose keys are 1 .. n. *)
Lemma do_add_servers ok fd sp (n : nat) :
  Z.of_nat n < 2 ^ 31 - 1 ->
  (forall k, is_Some (ServerPool.servers_ sp !! k) <-> 1 <= k <= Z.of_nat n) ->
  fst (do_add ok fd sp) = ok
  /\ ServerPool.servers_ (snd (do_add ok fd sp))
     = <[Z.of_nat (S n) := ServerPool.mkSession (Z.of_nat (S n)) fd]>
         (ServerPool.servers_ sp).
Proof.
  intros Hn Hdom. unfold do_add. cbn [fst snd ServerPool.servers_].
  split; [done|].
  destruct (entries (ServerPool.servers_ sp)) as [|top rest] eqn:Htop.
  - apply entries_empty in Htop.
    destruct n as [|n]; [done|].
    assert (is_Some (ServerPool.servers_ sp !! 1)) as [s Hs]
      by (apply Hdom; lia).
    by rewrite Htop in Hs.
  - destruct (entries_top _ _ _ Htop) as [Hin Hmax].
    assert (fst top = Z.of_nat n) as ->.
    { assert (1 <= fst top <= Z.of_nat n) by (apply Hdom; by eexists).
      assert (is_Some (ServerPool.servers_ sp !! Z.of_nat n)) as [s Hs]
        by (apply Hdom; lia).
      apply Hmax in Hs. lia. }
    rewrite to_int_small by lia.
    by replace (Z.of_nat n + 1) with (Z.of_nat (S n)) by lia.
Qed.

Lemma add_all_snoc adds a sp :
  add_all (adds ++ [a]) sp = snd (do_add (fst a) (snd a) (add_all adds sp)).
Proof. unfold add_all. by rewrite foldl_snoc. Qed.

Lemma add_all_servers adds : forall sp,
  ServerPool.servers_ sp = ∅ ->
  Z.of_nat (length adds) < 2 ^ 31 ->
  (forall k, is_Some (ServerPool.servers_ (add_all adds sp) !! k)
             <-> 1 <= k <= Z.of_nat (length adds))
  /\ (forall i a, adds !! i = Some a ->
        ServerPool.servers_ (add_all adds sp) !! Z.of_nat (S i)
        = Some (ServerPool.mkSession (Z.of_nat (S i)) (snd a))).
Proof.
  induction adds as [|a adds IH] using rev_ind; intros sp Hempty Hlen.
  - cbn. rewrite Hempty. split; [|done].
    intros k. rewrite lookup_empty. split; [by intros [? ?]|lia].
  - rewrite length_app in Hlen. cbn [length] in Hlen.
    destruct (IH sp Hempty ltac:(lia)) as [Hdom Hget].
    destruct (do_add_servers (fst a) (snd a) (add_all adds sp) (length adds)
                ltac:(lia) Hdom) as [_ Hins].
    rewrite add_all_snoc, Hins, length_app. cbn [length]. split.
    + intros k. destruct (decide (k = Z.of_nat (S (length adds)))) as [->|Hne].
      * rewrite lookup_insert_eq. split; [lia|by eexists].
      * rewrite lookup_insert_ne by done. rewrite Hdom. lia.
    + intros i b Hi. destruct (decide (i = length adds)) as [->|Hne].
      * rewrite lookup_app_r, Nat.sub_diag in Hi by done.
        injection Hi as <-. by rewrite lookup_insert_eq.
      * assert (i < length adds)%nat as Hlt.
        { apply lookup_lt_Some in Hi. rewrite length_app in Hi.
          cbn [length] in Hi. lia. }
        rewrite lookup_app_l in Hi by done.
        rewrite lookup_insert_ne by lia. by apply Hget.
Qed.
End Listeners.

(** X13. Listeners added to an empty pool are numbered 1, 2, 3, ... in the
    order of the calls, each stored with its descriptor.  A listener whose
    registration with epoll failed keeps its number and stays in the map:
    the next one gets the number after it, whatever [epoll_.add]
    answered. *)
Theorem do_add_numbers_listeners (adds : list (bool * Z))
    (sp0 : ServerPool.t) :
  ServerPool.servers_ sp0 = ∅ ->
  Z.of_nat (length adds) < 2 ^ 31 - 1 ->
  let sp := ServerBind.add_all adds sp0 in
  (forall i a, adds !! i = Some a ->
     ServerPool.servers_ sp !! Z.of_nat (S i)
     = Some (ServerPool.mkSession (Z.of_nat (S i)) (snd a)))
  /\ (forall k, is_Some (ServerPool.servers_ sp !! k)
                <-> 1 <= k <= Z.of_nat (length adds))
  /\ (forall ok fd,
        fst (ServerBind.do_add ok fd sp) = ok
        /\ ServerPool.servers_ (snd (ServerBind.do_add ok fd sp))
           = <[Z.of_nat (S (length adds))
               := ServerPool.mkSession (Z.of_nat (S (length adds))) fd]>
               (ServerPool.servers_ sp)).
Proof.
  intros Hempty Hlen sp.
  destruct (add_all_servers adds sp0 Hempty ltac:(lia)) as [Hdom Hget].
  split; [exact Hget|]. split; [exact Hdom|].
  intros ok fd. by apply do_add_servers.
Qed.

Lemma do_add_numbers_listeners_witness :
  ServerPool.servers_
    (ServerBind.add_all BindScenario.three_adds BindScenario.no_listener)
    !! 2 = Some (ServerPool.mkSession 2 4)
  /\ fst (ServerBind.do_add false 6
            (ServerBind.add_all BindScenario.three_adds
               BindScenario.no_listener)) = false
  /\ ServerPool.servers_
       (snd (ServerBind.do_add false 6
               (ServerBind.add_all BindScenario.three_adds
                  BindScenario.no_listener)))
     = <[4 := ServerPool.mkSession 4 6]>
         (ServerPool.servers_
            (ServerBind.add_all BindScenario.three_adds
               BindScenario.no_listener)).
Proof.
  destruct (do_add_numbers_listeners BindScenario.three_adds
              BindScenario.no_listener eq_refl ltac:(vm_compute; reflexivity))
    as (Hget & _ & Hnext).
  split; [exact (Hget 1%nat (false, 4) eq_refl)|]. exact (Hnext false 6).
Defined.

Section BindOutcome.
Import ClientPool ServerBind PoolOps.

Lemma count_close_other fd log call :
  call ≠ SysClose fd -> count_close fd (log ++ [call]) = count_close fd log.
Proof.
  intros Hne. rewrite count_close_snoc.
  destruct (decide (call = SysClose fd)); [done|lia].
Qed.

Lemma count_close_same fd log :
  count_close fd (log ++ [SysClose fd]) = S (count_close fd log).
Proof.
  rewrite count_close_snoc.
  destruct (decide (SysClose fd = SysClose fd)); [lia|done].
Qed.

(** The destructor's loop over any list of entries. *)
Lemma close_loop_count fd (l : list (Z * ServerPool.ServerSession)) :
  forall sp,
  let sp' := foldl (fun q s => ServerPool.on_pool
                                 (sys (SysClose (ServerPool.sfd (snd s)))) q)
                   sp l in
  ServerPool.servers_ sp' = ServerPool.servers_ sp
  /\ count_close fd (syscalls (ServerPool.client_pool_ sp'))
     = (count_close fd (syscalls (ServerPool.client_pool_ sp))
        + length (filter (fun s => ServerPool.sfd (snd s) = fd) l))%nat.
Proof.
  induction l as [|s l IH]; intros sp; cbn [foldl].
  - cbn. split; [done|lia].
  - cbv zeta in IH.
    destruct (IH (ServerPool.on_pool
                    (sys (SysClose (ServerPool.sfd (snd s)))) sp))
      as [Hs Hc].
    split; [by rewrite Hs|]. rewrite Hc.
    cbn [ServerPool.on_pool ServerPool.client_pool_ sys syscalls].
    destruct (decide (ServerPool.sfd (snd s) = fd)) as [Heq|Hne].
    + rewrite filter_cons_True by done. rewrite Heq, count_close_same.
      cbn [length]. lia.
    + rewrite filter_cons_False by done.
      rewrite count_close_other by congruence. done.
Qed.

Lemma holders_lookup fd servers k s :
  servers !! k = Some s -> ServerPool.sfd s = fd ->
  (1 <= holders fd servers)%nat.
Proof.
  intros Hk Hfd. unfold holders.
  assert ((k, s) ∈ filter (fun s => ServerPool.sfd (snd s) = fd)
                      (map_to_list servers)) as Hin.
  { apply list_elem_of_filter. split; [done|]. by apply elem_of_map_to_list. }
  destruct (filter _ _); [by apply elem_of_nil in Hin|]. cbn. lia.
Qed.

Lemma close_servers_count fd sp :
  ServerPool.servers_ (close_servers sp) = ServerPool.servers_ sp
  /\ count_close fd (syscalls (ServerPool.client_pool_ (close_servers sp)))
     = (count_close fd (syscalls (ServerPool.client_pool_ sp))
        + holders fd (ServerPool.servers_ sp))%nat.
Proof.
  unfold close_servers, holders.
  destruct (close_loop_count fd (entries (ServerPool.servers_ sp)) sp)
    as [Hs Hc].
  split; [done|]. rewrite Hc. f_equal.
  apply Permutation_length. by rewrite entries_perm.
Qed.
(** [do_bind], path by path. *)
Lemma do_bind_cases e sp :
  let fd := socket_ret e in
  let sp2 := ServerPool.on_pool (sys (SysUnblock fd)) sp in
  do_bind e sp
  = if fd =? -1 then (false, sp)
    else if setsockopt_ret e =? -1 then (false, sp)
    else if (bind_ret e =? -1) || (listen_ret e =? -1)
    then (false, ServerPool.on_pool (sys (SysClose fd)) sp)
    else if negb (unblock_ret e =? 0)
    then (false, ServerPool.on_pool (sys (SysClose fd)) sp2)
    else if epoll_add_ok e
    then (true, snd (do_add true fd sp2))
    else (false, ServerPool.on_pool (sys (SysClose fd))
                   (snd (do_add false fd sp2))).
Proof.
  cbv zeta. unfold do_bind, endpoint_tcp_server. destruct sp as [servers p].
  destruct (Z.eqb_spec (socket_ret e) (-1)) as [Hs|Hs]; [done|].
  destruct (setsockopt_ret e =? -1); [by rewrite (proj2 (Z.eqb_eq _ _) eq_refl)|].
  destruct (bind_ret e =? -1);
    [by rewrite (proj2 (Z.eqb_eq _ _) eq_refl)|].
  destruct (listen_ret e =? -1);
    [by rewrite (proj2 (Z.eqb_eq _ _) eq_refl)|].
  rewrite (proj2 (Z.eqb_neq _ _) Hs). cbn [orb].
  destruct (negb (unblock_ret e =? 0)); [done|].
  by destruct (epoll_add_ok e).
Qed.

Lemma do_add_log ok fd sp :
  exists u,
    ServerPool.servers_ (snd (do_add ok fd sp))
    = <[u := ServerPool.mkSession u fd]> (ServerPool.servers_ sp)
    /\ syscalls (ServerPool.client_pool_ (snd (do_add ok fd sp)))
       = syscalls (ServerPool.client_pool_ sp)
         ++ [SysEpollAdd fd listen_flags (Z.to_nat u)].
Proof. unfold do_add. by eexists. Qed.

(** A bind that fails in the registration. *)
Lemma do_bind_outcome e sp :
  socket_ret e <> -1 -> setsockopt_ret e <> -1 -> bind_ret e <> -1 ->
  listen_ret e <> -1 -> unblock_ret e = 0 -> epoll_add_ok e = false ->
  exists u,
    ServerPool.servers_ (snd (do_bind e sp))
    = <[u := ServerPool.mkSession u (socket_ret e)]> (ServerPool.servers_ sp)
    /\ count_close (socket_ret e)
         (syscalls (ServerPool.client_pool_ (snd (do_bind e sp))))
       = S (count_close (socket_ret e)
              (syscalls (ServerPool.client_pool_ sp))).
Proof.
  intros Hs Ho Hb Hl Hu Hok. rewrite do_bind_cases. cbv zeta.
  rewrite (proj2 (Z.eqb_neq _ _) Hs), (proj2 (Z.eqb_neq _ _) Ho),
    (proj2 (Z.eqb_neq _ _) Hb), (proj2 (Z.eqb_neq _ _) Hl), Hu, Hok.
  cbn [orb negb Z.eqb snd].
  destruct (do_add_log false (socket_ret e)
              (ServerPool.on_pool (sys (SysUnblock (socket_ret e))) sp))
    as (u & Hmap & Hlog).
  exists u. split; [exact Hmap|].
  cbn [ServerPool.on_pool ServerPool.client_pool_ sys syscalls].
  rewrite Hlog. cbn [ServerPool.on_pool ServerPool.client_pool_ sys syscalls].
  rewrite count_close_same. f_equal.
  rewrite !count_close_other by done. done.
Qed.
End BindOutcome.

(** X14. [do_bind] returns true exactly when the socket was created,
    configured, bound, put to listen, made non-blocking and registered; it
    then has closed nothing.  When it returns false after the socket was
    created, it has closed the descriptor exactly once, except on a failure
    of [setsockopt], where the descriptor is left open.  Only a bind that
    got as far as the registration leaves a session in the map, also when
    the registration failed and the descriptor is closed. *)
Theorem do_bind_failure_closes_descriptor (e : ServerBind.bind_env)
    (sp : ServerPool.t) :
  let r := ServerBind.do_bind e sp in
  let fd := ServerBind.socket_ret e in
  let before := PoolOps.count_close fd
                  (ClientPool.syscalls (ServerPool.client_pool_ sp)) in
  let after := PoolOps.count_close fd
                 (ClientPool.syscalls (ServerPool.client_pool_ (snd r))) in
  let prepared := fd <> -1 /\ ServerBind.setsockopt_ret e <> -1
                  /\ ServerBind.bind_ret e <> -1
                  /\ ServerBind.listen_ret e <> -1
                  /\ ServerBind.unblock_ret e = 0 in
  (fst r = true <-> prepared /\ ServerBind.epoll_add_ok e = true)
  /\ (fst r = true -> after = before)
  /\ (fst r = false -> fd <> -1 ->
      after = if ServerBind.setsockopt_ret e =? -1 then before else S before)
  /\ (prepared ->
      exists u, ServerPool.servers_ (snd r)
                = <[u := ServerPool.mkSession u fd]> (ServerPool.servers_ sp))
  /\ (~ prepared -> ServerPool.servers_ (snd r) = ServerPool.servers_ sp).
Proof.
  cbv zeta. rewrite do_bind_cases. cbv zeta.
  destruct (Z.eqb_spec (ServerBind.socket_ret e) (-1)) as [Hs|Hs].
  { cbn [fst snd]. repeat split; try done; intros; tauto. }
  destruct (Z.eqb_spec (ServerBind.setsockopt_ret e) (-1)) as [Ho|Ho].
  { cbn [fst snd]. repeat split; try done; intros; tauto. }
  destruct (Z.eqb_spec (ServerBind.bind_ret e) (-1)) as [Hb|Hb].
  { cbn [fst snd orb ServerPool.on_pool ServerPool.client_pool_
         ServerPool.servers_ ClientPool.sys ClientPool.syscalls].
    repeat split; try done; try (intros; tauto).
    intros _ _. apply count_close_same. }
  destruct (Z.eqb_spec (ServerBind.listen_ret e) (-1)) as [Hl|Hl].
  { cbn [fst snd orb ServerPool.on_pool ServerPool.client_pool_
         ServerPool.servers_ ClientPool.sys ClientPool.syscalls].
    repeat split; try done; try (intros; tauto).
    intros _ _. apply count_close_same. }
  cbn [orb].
  destruct (Z.eqb_spec (ServerBind.unblock_ret e) 0) as [Hu|Hu]; cbn [negb].
  2:{ cbn [fst snd ServerPool.on_pool ServerPool.client_pool_
           ServerPool.servers_ ClientPool.sys ClientPool.syscalls].
      repeat split; try done; try (intros; tauto).
      intros _ _. rewrite count_close_same. f_equal.
      by apply count_close_other. }
  destruct (ServerBind.epoll_add_ok e) eqn:Hok.
  - destruct (do_add_log true (ServerBind.socket_ret e)
                (ServerPool.on_pool
                   (ClientPool.sys
                      (ClientPool.SysUnblock (ServerBind.socket_ret e))) sp))
      as (u & Hmap & Hlog).
    cbn [fst snd]. rewrite Hlog, Hmap.
    cbn [ServerPool.on_pool ServerPool.client_pool_
         ServerPool.servers_ ClientPool.sys ClientPool.syscalls].
    repeat split; try done; try (intros; tauto).
    + intros _. rewrite !count_close_other by done. done.
    + intros _. by exists u.
  - destruct (do_add_log false (ServerBind.socket_ret e)
                (ServerPool.on_pool
                   (ClientPool.sys
                      (ClientPool.SysUnblock (ServerBind.socket_ret e))) sp))
      as (u & Hmap & Hlog).
    cbn [fst snd ServerPool.on_pool ServerPool.client_pool_
         ServerPool.servers_ ClientPool.sys ClientPool.syscalls].
    rewrite Hlog, Hmap.
    cbn [ServerPool.on_pool ServerPool.client_pool_
         ServerPool.servers_ ClientPool.sys ClientPool.syscalls].
    repeat split; try done; try (intros; tauto).
    + intros _ _. rewrite count_close_same. f_equal.
      rewrite !count_close_other by done. done.
    + intros _. by exists u.
Qed.

(** X15. The loop of the destructor closes the descriptor of every session
    of the map, once per session that holds it.  A descriptor the pool has
    closed before while its session stayed in the map is therefore closed
    a second time: after a bind that failed in the registration, and after
    a hangup or error event on a listener. *)
Theorem destructor_closes_again (sp : ServerPool.t) :
  (forall fd,
     PoolOps.count_close fd
       (ClientPool.syscalls
          (ServerPool.client_pool_ (ServerBind.close_servers sp)))
     = (PoolOps.count_close fd
          (ClientPool.syscalls (ServerPool.client_pool_ sp))
        + ServerBind.holders fd (ServerPool.servers_ sp))%nat)
  /\ (forall e,
        ServerBind.socket_ret e <> -1 ->
        ServerBind.setsockopt_ret e <> -1 ->
        ServerBind.bind_ret e <> -1 ->
        ServerBind.listen_ret e <> -1 ->
        ServerBind.unblock_ret e = 0 ->
        ServerBind.epoll_add_ok e = false ->
        (PoolOps.count_close (ServerBind.socket_ret e)
           (ClientPool.syscalls (ServerPool.client_pool_ sp)) + 2
         <= PoolOps.count_close (ServerBind.socket_ret e)
              (ClientPool.syscalls
                 (ServerPool.client_pool_
                    (ServerBind.close_servers
                       (snd (ServerBind.do_bind e sp))))))%nat)
  /\ (forall k server answers flags,
        ServerPool.servers_ sp !! k = Some server ->
        flags = EPOLLHUP \/ flags = EPOLLERR ->
        exists sp',
          ServerPool.trigger answers server flags sp = Some sp'
          /\ ServerPool.servers_ sp' !! k = Some server
          /\ (PoolOps.count_close (ServerPool.sfd server)
                (ClientPool.syscalls (ServerPool.client_pool_ sp)) + 2
              <= PoolOps.count_close (ServerPool.sfd server)
                   (ClientPool.syscalls
                      (ServerPool.client_pool_
                         (ServerBind.close_servers sp'))))%nat).
Proof.
  split; [intros fd; apply close_servers_count|]. split.
  - intros e Hs Ho Hb Hl Hu Hok.
    destruct (do_bind_outcome e sp Hs Ho Hb Hl Hu Hok) as (u & Hmap & Hcount).
    destruct (close_servers_count (ServerBind.socket_ret e)
                (snd (ServerBind.do_bind e sp))) as [_ ->].
    rewrite Hcount.
    assert (ServerPool.servers_ (snd (ServerBind.do_bind e sp)) !! u
            = Some (ServerPool.mkSession u (ServerBind.socket_ret e))) as Hu'
      by (by rewrite Hmap, lookup_insert_eq).
    pose proof (holders_lookup (ServerBind.socket_ret e) _ u _ Hu' eq_refl).
    lia.
  - intros k server answers flags Hk Hflags.
    rewrite (listener_trigger_single_flag answers server flags sp Hflags).
    eexists. split; [done|]. split; [done|].
    destruct (close_servers_count (ServerPool.sfd server)
                (ServerPool.on_pool
                   (ClientPool.sys
                      (ClientPool.SysClose (ServerPool.sfd server))) sp))
      as [_ ->].
    cbn [ServerPool.on_pool ServerPool.client_pool_ ServerPool.servers_
         ClientPool.sys ClientPool.syscalls].
    rewrite count_close_same.
    pose proof (holders_lookup (ServerPool.sfd server)
                  (ServerPool.servers_ sp) k server Hk eq_refl). lia.
Qed.

(** ** Events for a free slot *)

Section Stale.
Import AtomicStack ClientPool PoolOps.

Lemma links_lookup p i :
  links p !! i
  = (fun n => (uuid n, sfd n, ptr_to_next n)) <$> (mem_pool_ p !! i).
Proof. unfold links. apply list_lookup_fmap. Qed.

Lemma links_node_sfd p q i : links q = links p -> node_sfd i q = node_sfd i p.
Proof.
  intros Heq. pose proof (links_lookup q i) as Hq. rewrite Heq, links_lookup in Hq.
  unfold node_sfd.
  destruct (mem_pool_ p !! i), (mem_pool_ q !! i); cbn in Hq; congruence.
Qed.

Lemma links_node_uuid p q i : links q = links p -> node_uuid i q = node_uuid i p.
Proof.
  intros Heq. pose proof (links_lookup q i) as Hq. rewrite Heq, links_lookup in Hq.
  unfold node_uuid.
  destruct (mem_pool_ p !! i), (mem_pool_ q !! i); cbn in Hq; congruence.
Qed.

Lemma links_length p q :
  links q = links p -> length (mem_pool_ q) = length (mem_pool_ p).
Proof.
  intros Heq. apply (f_equal length) in Heq. unfold links in Heq.
  by rewrite !length_fmap in Heq.
Qed.

Lemma links_client_read r c p : links (client_read r c p) = links p.
Proof.
  apply list_eq. intros i. rewrite !links_lookup.
  unfold client_read, with_node. cbn [mem_pool_].
  destruct (decide (i = c)) as [->|Hne].
  - rewrite list_lookup_alter, decide_True by done.
    by destruct (mem_pool_ p !! c).
  - by rewrite list_lookup_alter_ne.
Qed.

Lemma links_chain p q head l :
  links q = links p ->
  chain (mem_pool_ p) head l -> chain (mem_pool_ q) head l.
Proof.
  intros Heq. induction 1 as [|h n l Hh _ IH]; [constructor|].
  pose proof (links_lookup q h) as Hq. rewrite Heq, links_lookup, Hh in Hq.
  destruct (mem_pool_ q !! h) as [m|] eqn:Hm; [|done].
  injection Hq as Hu Hs Hn.
  apply (chain_cons _ h m); [done|]. by rewrite <- Hn.
Qed.

Lemma links_free_slots p q l :
  links q = links p -> clients_stack_ q = clients_stack_ p ->
  free_slots p l -> free_slots q l.
Proof.
  intros Heq Hst (Hch & Hnd & Hiff). unfold free_slots, free_list.
  rewrite Hst. split; [by apply (links_chain p)|]. split; [done|].
  intros i m Hi.
  pose proof (links_lookup q i) as Hq. rewrite Heq, links_lookup, Hi in Hq.
  destruct (mem_pool_ p !! i) as [n|] eqn:Hn; [|done].
  injection Hq as Hu Hs Hx. rewrite <- Hs. by apply Hiff.
Qed.

Lemma links_bound_slots p q :
  links q = links p -> bound_slots q = bound_slots p.
Proof.
  intros Heq. unfold bound_slots. rewrite (links_length p q Heq).
  apply filter_ext_in. intros i _. by rewrite (links_node_sfd p q i Heq).
Qed.

Lemma stale_notify c cb p :
  node_sfd c p = 0 ->
  links (notify c cb p) = links p
  /\ clients_stack_ (notify c cb p) = clients_stack_ p.
Proof.
  intros Hfree. destruct (notify_on_free c cb p Hfree) as [Hm Hs].
  unfold links. by rewrite Hm.
Qed.

Lemma stale_read_ready c reads : forall p p',
  node_sfd c p = 0 -> read_ready_triggered reads c p = Some p' ->
  links p' = links p /\ clients_stack_ p' = clients_stack_ p.
Proof.
  induction reads as [|r rest IH]; intros p p' Hfree Hrun; [done|].
  cbn [read_ready_triggered] in Hrun.
  pose proof (links_client_read r c p) as Hl.
  assert (node_sfd c (client_read r c p) = 0) as Hfree1
    by (by rewrite (links_node_sfd _ _ c Hl)).
  destruct (_ && _); [by injection Hrun as <-|].
  destruct (_ =? -1);
    [injection Hrun as <-; by rewrite terminate_on_error_free|].
  destruct (_ =? 0);
    [injection Hrun as <-; by rewrite terminate_on_close_free|].
  unfold have_client_data_received in Hrun.
  destruct (enable_client_data_received _).
  - apply IH in Hrun as [Hl' Hs'].
    + destruct (stale_notify c
                  (CbDataReceived (node_uuid c (client_read r c p))
                     (node_buff c (client_read r c p)) (BasicClient.recv_ret r))
                  (client_read r c p) Hfree1) as [Hl2 Hs2].
      split; [by rewrite Hl', Hl2|by rewrite Hs', Hs2].
    + destruct (stale_notify c
                  (CbDataReceived (node_uuid c (client_read r c p))
                     (node_buff c (client_read r c p)) (BasicClient.recv_ret r))
                  (client_read r c p) Hfree1) as [Hl2 _].
      by rewrite (links_node_sfd _ _ c Hl2).
  - apply IH in Hrun as [Hl' Hs']; [|done].
    split; [by rewrite Hl'|by rewrite Hs'].
Qed.

Lemma stale_pri_read_ready c oobs : forall p p',
  node_sfd c p = 0 -> pri_read_ready_triggered oobs c p = Some p' ->
  links p' = links p /\ clients_stack_ p' = clients_stack_ p.
Proof.
  induction oobs as [|r rest IH]; intros p p' Hfree Hrun; [done|].
  cbn [pri_read_ready_triggered] in Hrun.
  destruct (_ && _); [by injection Hrun as <-|].
  destruct (_ =? -1);
    [injection Hrun as <-; by rewrite terminate_on_error_free|].
  destruct (_ =? 0); [by injection Hrun as <-|].
  unfold have_client_oob_received in Hrun.
  destruct (enable_client_oob_received _); [|by apply IH in Hrun].
  destruct (stale_notify c
              (CbOobReceived (node_uuid c p) (BasicClient.oob_byte r)) p Hfree)
    as [Hl2 Hs2].
  apply IH in Hrun as [Hl' Hs'].
  - split; [by rewrite Hl', Hl2|by rewrite Hs', Hs2].
  - by rewrite (links_node_sfd _ _ c Hl2).
Qed.

Lemma stale_trigger env c flags p p' :
  node_sfd c p = 0 -> trigger env c flags p = Some p' ->
  links p' = links p /\ clients_stack_ p' = clients_stack_ p.
Proof.
  intros Hfree Hrun. unfold trigger in Hrun.
  destruct (has_flag flags EPOLLERR);
    [injection Hrun as <-; by rewrite terminate_on_error_free|].
  destruct (_ || _).
  { injection Hrun as <-. unfold have_client_closed.
    destruct (enable_client_closed _);
      [|by rewrite terminate_on_close_free].
    destruct (stale_notify c (CbClosed (node_uuid c p)) p Hfree) as [Hl Hs].
    rewrite terminate_on_close_free; [done|].
    by rewrite (links_node_sfd _ _ c Hl). }
  assert (exists p1,
            (if has_flag flags EPOLLPRI
             then pri_read_ready_triggered (oobs env) c
                    (timer_set c (now_pri env) p)
             else Some p) = Some p1
            /\ links p1 = links p /\ clients_stack_ p1 = clients_stack_ p)
    as (p1 & Hp1 & Hl1 & Hs1).
  { destruct (has_flag flags EPOLLPRI); [|by exists p].
    destruct (pri_read_ready_triggered _ _ _) as [p1|] eqn:Hpri; [|done].
    exists p1. split; [done|]. by apply stale_pri_read_ready in Hpri. }
  rewrite Hp1 in Hrun.
  destruct (has_flag flags EPOLLIN).
  - apply stale_read_ready in Hrun as [Hl Hs].
    + split; [by rewrite Hl|by rewrite Hs].
    + change (node_sfd c p1 = 0). by rewrite (links_node_sfd _ _ c Hl1).
  - by injection Hrun as <-.
Qed.
End Stale.

(** X16. An event that arrives for a slot that is free (its connection was
    terminated while the event was in flight) frees and binds nothing: the
    descriptors, the identifiers and the free list are as before.  It is
    not silent, though.  With the hangup or the peer-half-close flag (and
    no error flag) the sink receives closed for the free slot; with the
    readable flag the slot gets a timeout entry again.  With the error flag
    nothing happens at all. *)
Theorem stale_event_on_free_slot (env : ClientPool.trigger_env) (c : nat)
    (flags : Z) (p p' : ClientPool.t) :
  ClientPool.node_sfd c p = 0 ->
  ClientPool.trigger env c flags p = Some p' ->
  (links p' = links p
   /\ ClientPool.clients_stack_ p' = ClientPool.clients_stack_ p
   /\ PoolOps.bound_slots p' = PoolOps.bound_slots p
   /\ forall l, PoolOps.free_slots p l -> PoolOps.free_slots p' l)
  /\ (has_flag flags EPOLLERR = true -> p' = p)
  /\ (has_flag flags EPOLLERR = false ->
      has_flag flags EPOLLHUP || has_flag flags EPOLLRDHUP = true ->
      ClientPool.callbacks p'
      = ClientPool.callbacks p
        ++ (if ClientPool.enable_client_closed (ClientPool.packet_sink_ p)
            then [ClientPool.CbClosed (ClientPool.node_uuid c p)] else []))
  /\ (has_flag flags EPOLLERR = false ->
      has_flag flags EPOLLHUP || has_flag flags EPOLLRDHUP = false ->
      has_flag flags EPOLLIN = true ->
      ClientPool.timeout_keys_ p' !! c = Some (ClientPool.now_in env)).
Proof.
  intros Hfree Hrun.
  destruct (stale_trigger env c flags p p' Hfree Hrun) as [Hl Hs].
  split.
  { split; [done|]. split; [done|]. split; [by apply links_bound_slots|].
    intros l. by apply links_free_slots. }
  split; [|split].
  - intros Herr. unfold ClientPool.trigger in Hrun. rewrite Herr in Hrun.
    injection Hrun as <-. by apply terminate_on_error_free.
  - intros Herr Hhup. unfold ClientPool.trigger in Hrun.
    rewrite Herr, Hhup in Hrun. injection Hrun as <-.
    unfold ClientPool.have_client_closed.
    destruct (ClientPool.enable_client_closed _);
      [|by rewrite terminate_on_close_free, app_nil_r].
    destruct (stale_notify c (ClientPool.CbClosed (ClientPool.node_uuid c p))
                p Hfree) as [Hl' _].
    rewrite terminate_on_close_free
      by (by rewrite (links_node_sfd _ _ c Hl')).
    by destruct (notify_frame c
                   (ClientPool.CbClosed (ClientPool.node_uuid c p)) p)
      as (_ & -> & _).
  - intros Herr Hhup Hin.
    rewrite (trigger_keys env c flags p p' Hrun). unfold arming.
    rewrite Herr, Hhup, Hin.
    unfold TimeoutTimer.timer_run. rewrite foldl_snoc.
    cbn [TimeoutTimer.timer_step]. unfold TimeoutTimer.set.
    apply lookup_insert_eq.
Qed.

Lemma stale_event_on_free_slot_witness :
  exists p',
    ClientPool.trigger EchoScenario.env_disconnect 0 EPOLLHUP
      Scenario.one_slot = Some p'
    /\ ClientPool.callbacks p' = [ClientPool.CbClosed 0]
    /\ PoolOps.bound_slots p' = [].
Proof.
  eexists. split; [reflexivity|].
  destruct (stale_event_on_free_slot EchoScenario.env_disconnect 0 EPOLLHUP
              Scenario.one_slot _ eq_refl eq_refl)
    as ((_ & _ & Hb & _) & _ & Hcb & _).
  split; [exact (Hcb eq_refl eq_refl)|exact Hb].
Defined.

(** ** The slab *)

Section Padding.
Import MemoryUtil.

Lemma padd_exact pagesize size_hint :
  0 < pagesize -> 0 <= size_hint -> size_hint + pagesize <= 2 ^ 64 ->
  padd_to_page_boundary pagesize size_hint
  = pagesize * ((size_hint + pagesize - 1) / pagesize).
Proof.
  intros Hp Hh Hr. unfold padd_to_page_boundary, to_size_t.
  pose proof (Z.div_mod size_hint pagesize ltac:(lia)) as Hdm.
  pose proof (Z.mod_pos_bound size_hint pagesize Hp) as Hm.
  destruct (Z.eqb_spec (size_hint mod pagesize) 0) as [H0|Hne].
  - assert ((size_hint + pagesize - 1) / pagesize = size_hint / pagesize) as ->;
      [|lia].
    symmetry. apply Z.div_unique with (r := pagesize - 1); [lia|]. lia.
  - rewrite Z.mod_small by lia.
    assert ((size_hint + pagesize - 1) / pagesize = size_hint / pagesize + 1)
      as ->; [|lia].
    symmetry.
    apply Z.div_unique with (r := size_hint mod pagesize - 1); [lia|]. lia.
Qed.

Lemma padd_range pagesize size_hint :
  0 < pagesize -> 0 <= size_hint -> size_hint + pagesize <= 2 ^ 64 ->
  size_hint <= padd_to_page_boundary pagesize size_hint < size_hint + pagesize.
Proof.
  intros Hp Hh Hr. rewrite padd_exact by done.
  pose proof (Z.div_mod (size_hint + pagesize - 1) pagesize ltac:(lia)) as Hdm.
  pose proof (Z.mod_pos_bound (size_hint + pagesize - 1) pagesize Hp) as Hm.
  lia.
Qed.
End Padding.

(** X17. For a page size above 0 and a hint that does not run over the
    range of [std::size_t], [padd_to_page_boundary] returns the least
    multiple of the page size that is not below the hint: it adds less than
    one page, and leaves a multiple (0 included) as it is. *)
Theorem padd_rounds_up (pagesize size_hint : Z) :
  0 < pagesize -> 0 <= size_hint -> size_hint + pagesize <= 2 ^ 64 ->
  let r := MemoryUtil.padd_to_page_boundary pagesize size_hint in
  r mod pagesize = 0
  /\ size_hint <= r < size_hint + pagesize
  /\ (forall m, size_hint <= m -> m mod pagesize = 0 -> r <= m)
  /\ (size_hint mod pagesize = 0 -> r = size_hint)
  /\ MemoryUtil.padd_to_page_boundary pagesize r = r.
Proof.
  intros Hp Hh Hr r.
  assert (r = pagesize * ((size_hint + pagesize - 1) / pagesize)) as Hexact
    by (by apply padd_exact).
  assert (r mod pagesize = 0) as Hmod
    by (rewrite Hexact, Z.mul_comm; apply Z.mod_mul; lia).
  pose proof (Z.div_mod (size_hint + pagesize - 1) pagesize ltac:(lia)) as Hdm.
  pose proof (Z.mod_pos_bound (size_hint + pagesize - 1) pagesize Hp) as Hm.
  assert (size_hint <= r < size_hint + pagesize) as Hrange by lia.
  split; [done|]. split; [done|]. split; [|split].
  - intros m Hle Hmm.
    pose proof (Z.div_mod m pagesize ltac:(lia)) as Hdm'.
    rewrite Hmm in Hdm'.
    assert ((size_hint + pagesize - 1) / pagesize < m / pagesize + 1) as Hlt
      by (apply (Z.mul_lt_mono_pos_l pagesize); lia).
    rewrite Hexact, Hdm', Z.add_0_r. apply Z.mul_le_mono_nonneg_l; lia.
  - intros H0. subst r. unfold MemoryUtil.padd_to_page_boundary.
    by rewrite H0.
  - unfold MemoryUtil.padd_to_page_boundary at 1. by rewrite Hmod.
Qed.

Lemma padd_rounds_up_witness :
  MemoryUtil.padd_to_page_boundary 4096 100 mod 4096 = 0
  /\ 100 <= MemoryUtil.padd_to_page_boundary 4096 100 < 100 + 4096.
Proof.
  pose proof (padd_rounds_up 4096 100 ltac:(lia) ltac:(lia) ltac:(lia))
    as (H1 & H2 & _).
  split; [exact H1|exact H2].
Defined.

Section Run.
Import AtomicStack ClientPool PoolOps MemoryUtil PoolRun.

Lemma to_size_t_small z : 0 <= z < 2 ^ 64 -> to_size_t z = z.
Proof. intros Hz. unfold to_size_t. by rewrite Z.mod_small. Qed.

(** The stack initialised by [run] over a slab of [S n] cells is the one
    of [started]. *)
Lemma run_stack sink slab n (p : ClientPool.t) :
  length slab = S n ->
  match AtomicStack.init BasicClient.default
          (mkStdMemory (Some slab) (Z.of_nat (S n))) with
  | Some st => with_stack st p
  | None => p
  end = with_stack (stack_of (started sink slab)) p.
Proof.
  intros Hlen. unfold started. rewrite Hlen.
  by destruct (init_chained BasicClient.default n slab Hlen) as (data & -> & _).
Qed.

Lemma started_constructed sink slab n :
  length slab = S n ->
  with_stack (stack_of (started sink slab)) (constructed sink)
  = started sink slab.
Proof.
  intros Hlen. unfold started. rewrite Hlen.
  by destruct (init_chained BasicClient.default n slab Hlen) as (data & -> & _).
Qed.
End Run.

(** X18. The first [run] of a pool with [max_client_count >= 1]: unless
    [malloc] fails, the slab has as many cells as the least multiple of the
    page size that is not below [max_client_count], so up to a page less
    one more than were asked for, and all of them are free.  [destroy], at
    the end of [stop], hands that block to [free] and leaves the pointer
    in place.  A later [run] therefore asks [malloc] for nothing, whatever
    [max_client_count] it is given, and initialises the stack over the
    freed block: it writes into freed memory. *)
Theorem run_pads_capacity (sizeof_v pagesize max_client_count : Z)
    (malloc : Z -> option (list (AtomicStack.StackNode BasicClient.t)))
    (sink : ClientPool.PacketSink) :
  0 < sizeof_v -> 0 < pagesize -> 0 < max_client_count ->
  max_client_count + pagesize <= 2 ^ 31 ->
  sizeof_v * (max_client_count + pagesize) < 2 ^ 64 ->
  (forall bytes slab, 0 <= bytes -> malloc bytes = Some slab ->
     Z.of_nat (length slab) = bytes / sizeof_v) ->
  let cap := MemoryUtil.padd_to_page_boundary pagesize max_client_count in
  match PoolRun.run sizeof_v pagesize malloc true PoolRun.unallocated
          max_client_count (PoolRun.constructed sink) with
  | PoolRun.RunRefused => False
  | PoolRun.RunUseAfterFree => False
  | PoolRun.RunBadAlloc => malloc (sizeof_v * cap) = None
  | PoolRun.RunStarted m pool =>
      AtomicStack.capacity (MemoryUtil.std_mem m) = cap
      /\ MemoryUtil.freed m = false
      /\ max_client_count <= cap < max_client_count + pagesize
      /\ Z.of_nat (length (ClientPool.mem_pool_ pool)) = cap
      /\ (exists l, PoolOps.free_slots pool l /\ Z.of_nat (length l) = cap)
      /\ PoolOps.bound_slots pool = []
      /\ MemoryUtil.std_mem (MemoryUtil.destroy m) = MemoryUtil.std_mem m
      /\ MemoryUtil.freed (MemoryUtil.destroy m) = true
      /\ (forall malloc' max' p,
            PoolRun.run sizeof_v pagesize malloc' true (MemoryUtil.destroy m)
              max' p
            = PoolRun.RunUseAfterFree)
  end.
Proof.
  intros Hs Hp Hm Hint Hsize Hmalloc cap.
  pose proof (padd_range pagesize max_client_count Hp ltac:(lia) ltac:(lia))
    as Hrange. fold cap in Hrange.
  unfold PoolRun.run, MemoryUtil.init, PoolRun.unallocated.
  cbn [negb AtomicStack.is_allocated AtomicStack.ptr_to_mem_slab
       MemoryUtil.std_mem].
  rewrite (to_size_t_small max_client_count) by lia. fold cap.
  rewrite (to_int_small cap) by lia.
  rewrite (to_size_t_small cap) by lia.
  assert (0 <= sizeof_v * cap < 2 ^ 64) as Hbytes by nia.
  rewrite (to_size_t_small (sizeof_v * cap)) by done.
  destruct (malloc (sizeof_v * cap)) as [slab|] eqn:Hblock; [|done].
  pose proof (Hmalloc _ _ (proj1 Hbytes) Hblock) as Hlen.
  rewrite Z.mul_comm, Z.div_mul in Hlen by lia.
  clearbody cap. remember (Z.to_nat cap - 1)%nat as n eqn:Hn.
  assert (length slab = S n) as Hlen' by lia.
  assert (cap = Z.of_nat (S n)) as -> by lia.
  cbn [MemoryUtil.freed MemoryUtil.std_mem AtomicStack.capacity].
  split; [done|]. split; [done|]. split; [done|].
  rewrite (run_stack sink slab n _ Hlen'), (started_constructed sink slab n Hlen').
  destruct (started_free sink slab n Hlen') as (Hfree & Hl & _).
  pose proof (free_slots_count _ _ Hfree) as Hcount.
  rewrite length_rev, length_seq, Hl in Hcount.
  split; [lia|]. split.
  { eexists. split; [exact Hfree|]. rewrite length_rev, length_seq. lia. }
  split; [apply length_zero_iff_nil; lia|].
  split; [done|]. split; [done|].
  intros malloc' max' p. reflexivity.
Qed.

Lemma run_pads_capacity_witness :
  match PoolRun.run 4128 4 RunScenario.malloc_ok true PoolRun.unallocated 3
          (PoolRun.constructed Scenario.echo_sink) with
  | PoolRun.RunStarted m pool =>
      AtomicStack.capacity (MemoryUtil.std_mem m) = 4
      /\ PoolOps.bound_slots pool = []
      /\ PoolRun.run 4128 4 RunScenario.malloc_null true
           (MemoryUtil.destroy m) 100 pool
         = PoolRun.RunUseAfterFree
  | _ => False
  end.
Proof.
  pose proof (run_pads_capacity 4128 4 3 RunScenario.malloc_ok
                Scenario.echo_sink ltac:(lia) ltac:(lia) ltac:(lia)
                ltac:(lia) ltac:(lia)) as Hrun.
  assert (forall bytes slab, 0 <= bytes ->
            RunScenario.malloc_ok bytes = Some slab ->
            Z.of_nat (length slab) = bytes / 4128) as Hmalloc.
  { intros bytes slab Hb [= <-]. unfold Scenario.raw_slab.
    rewrite length_replicate, Z2Nat.id; [done|]. by apply Z.div_pos. }
  specialize (Hrun Hmalloc).
  destruct (PoolRun.run 4128 4 RunScenario.malloc_ok true PoolRun.unallocated
              3 (PoolRun.constructed Scenario.echo_sink)) as [| | |m pool].
  - exact Hrun.
  - done.
  - exact Hrun.
  - destruct Hrun as (Hc & _ & _ & _ & _ & Hb & _ & _ & Hre).
    split; [exact Hc|]. split; [exact Hb|]. apply Hre.
Defined.

(** ** From admission to the idle timeout *)

Section IdleTimeout.
Import AtomicStack ClientPool PoolOps.

(** The pool after an admission whose accepted handler keeps the session. *)
Lemma add_client_bound p c l node now fd :
  free_slots p (c :: l) -> mem_pool_ p !! c = Some node -> fd ≠ 0 ->
  (enable_client_accepted (packet_sink_ p) = false
   \/ ActTerminate ∉ react (packet_sink_ p)
                        (callbacks p ++ [CbAccepted (uuid node)])) ->
  let q := snd (add_client true now fd p) in
  free_slots q l
  /\ node_sfd c q = fd
  /\ node_uuid c q = uuid node
  /\ timeout_keys_ q = <[c := now]> (timeout_keys_ p)
  /\ packet_sink_ q = packet_sink_ p.
Proof.
  intros Hfree Hc Hfd Hquiet.
  assert (clients_stack_ p = Some c) as Hhead.
  { destruct Hfree as (Hch & _). by inversion Hch. }
  rewrite (add_client_unfold p c node true now fd Hhead Hc). cbv zeta.
  cbn [fst snd].
  set (p3 := with_node c (set_sfd fd)
               (with_node c (set_value (BasicClient.construct fd))
                  (with_stack (mem_pool_ p, ptr_to_next node) p))).
  pose proof (admitted_cell p c node fd Hc) as Hc3. fold p3 in Hc3.
  pose proof (free_slots_admit p c l node fd Hfree Hc Hfd) as Hfree3.
  fold p3 in Hfree3.
  assert (node_uuid c p3 = uuid node) as Hu3
    by (unfold node_uuid; by rewrite Hc3).
  destruct (accepted_frame c p3) as (Hcb & Hk & Hs).
  assert (mem_pool_ (have_client_accepted c p3) = mem_pool_ p3
          /\ clients_stack_ (have_client_accepted c p3) = clients_stack_ p3)
    as [Hm4 Hs4].
  { unfold have_client_accepted.
    change (packet_sink_ p3) with (packet_sink_ p).
    destruct Hquiet as [-> | Hno]; [done|].
    destruct (enable_client_accepted _); [|done].
    rewrite Hu3. unfold notify.
    exact (run_actions_no_terminate c _
             (record (CbAccepted (uuid node)) p3) Hno). }
  unfold free_slots, node_sfd, node_uuid, timer_set, sys, TimeoutTimer.set.
  cbn [mem_pool_ clients_stack_ with_keys timeout_keys_ packet_sink_].
  rewrite Hm4, Hs4, Hc3, Hk, Hs. done.
Qed.

End IdleTimeout.

(** X19. From admission to the idle timeout.  A connection is admitted at
    clock reading [now] (descriptor other than 0, registration succeeds,
    the accepted handler keeps the session) and nothing happens on it until
    the reaper's next pass, which reads the clock [elapsed] nanoseconds
    later (less than 2^31 ms).  The pass has a result only when the reaper
    thread holds a good copy of the callback, and none when its copy was
    taken from the dead temporary of [ClientPool::run].  In the first case:
    if the whole milliseconds of [elapsed] exceed the interval, the pass
    terminates the connection: the sink receives closed for it, the slot
    is free again and its timeout entry is gone; otherwise the connection
    stays bound to its descriptor with its timeout entry. *)
Theorem idle_connection_is_reaped (p : ClientPool.t) (c : nat) (l : list nat)
    (node : AtomicStack.StackNode BasicClient.t) (now fd : Z)
    (timeout_interval : Z) (now_at : nat -> Z) :
  PoolOps.free_slots p (c :: l) ->
  ClientPool.mem_pool_ p !! c = Some node ->
  fd ≠ 0 ->
  (ClientPool.enable_client_accepted (ClientPool.packet_sink_ p) = false
   \/ ClientPool.ActTerminate ∉
        ClientPool.react (ClientPool.packet_sink_ p)
          (ClientPool.callbacks p
             ++ [ClientPool.CbAccepted (AtomicStack.uuid node)])) ->
  0 <= now_at c - now -> (now_at c - now) / 1000000 < 2 ^ 31 ->
  let q := snd (ClientPool.add_client true now fd p) in
  PoolOps.reap false timeout_interval now_at q = None
  /\ exists r,
       PoolOps.reap true timeout_interval now_at q = Some r
       /\ if timeout_interval <? (now_at c - now) / 1000000
          then ClientPool.node_sfd c r = 0
               /\ ClientPool.timeout_keys_ r !! c = None
               /\ (exists l', PoolOps.free_slots r l' /\ c ∈ l')
               /\ (ClientPool.enable_client_closed (ClientPool.packet_sink_ p)
                   = true ->
                   exists before after,
                     ClientPool.callbacks r
                     = ClientPool.callbacks q ++ before
                       ++ [ClientPool.CbClosed (AtomicStack.uuid node)]
                       ++ after)
          else ClientPool.node_sfd c r = fd
               /\ ClientPool.timeout_keys_ r !! c = Some now
               /\ c ∈ PoolOps.bound_slots r.
Proof.
  intros Hfree Hc Hfd Hquiet Hge Hlt q. split; [reflexivity|].
  destruct (add_client_bound p c l node now fd Hfree Hc Hfd Hquiet)
    as (Hfree' & Hsfd & Hu & Hkeys & Hsink).
  fold q in Hfree', Hsfd, Hu, Hkeys, Hsink.
  assert (ClientPool.timeout_keys_ q !! c = Some now) as Hentry
    by (by rewrite Hkeys, lookup_insert_eq).
  pose proof (time_delta_exact (now_at c) now Hge Hlt) as Hdelta.
  destruct (prune_pass_spec timeout_interval now_at (ClientPool.timeout_keys_ q))
    as (Hout & Hnd & Hkeep).
  rewrite reap_unfold. eexists. split; [reflexivity|].
  set (pass := TimeoutTimer.prune_timed_out_keys timeout_interval now_at
                 (ClientPool.timeout_keys_ q)) in *.
  destruct (on_timeout_spec (fst pass) (ClientPool.with_keys (snd pass) q) Hnd)
    as (Hcb & Hin & Hnin & Hk).
  assert (c < length (ClientPool.mem_pool_ q))%nat as Hclt.
  { unfold ClientPool.node_sfd in Hsfd.
    destruct (ClientPool.mem_pool_ q !! c) eqn:Hq; [|done].
    by eapply lookup_lt_Some. }
  destruct (Z.ltb_spec timeout_interval ((now_at c - now) / 1000000))
    as [Hexp|Hfresh].
  - assert (c ∈ fst pass) as Hc'.
    { apply Hout. exists now. split; [done|]. by rewrite Hdelta. }
    split; [by apply Hin|]. split.
    { rewrite Hk. cbn [ClientPool.with_keys ClientPool.timeout_keys_].
      rewrite Hkeep, Hentry, Hdelta.
      by destruct (Z.ltb_spec timeout_interval ((now_at c - now) / 1000000));
        [|lia]. }
    split.
    { destruct (keeps_free_on_timeout (fst pass)
                  (ClientPool.with_keys (snd pass) q) l) as [l' Hl'];
        [exact Hfree'|].
      exists l'. split; [done|].
      destruct (same_shape_on_timeout (fst pass)
                  (ClientPool.with_keys (snd pass) q)) as (Hlen & _).
      cbn [ClientPool.with_keys ClientPool.mem_pool_] in Hlen.
      destruct (lookup_lt_is_Some_2
                  (ClientPool.mem_pool_
                     (PoolOps.on_timeout (fst pass)
                        (ClientPool.with_keys (snd pass) q))) c) as [n Hn];
        [lia|].
      destruct Hl' as (_ & _ & Hiff). apply (Hiff c n Hn).
      specialize (Hin c Hc'). unfold ClientPool.node_sfd in Hin.
      by rewrite Hn in Hin. }
    intros Hen. rewrite Hcb.
    cbn [ClientPool.with_keys ClientPool.packet_sink_ ClientPool.callbacks].
    rewrite Hsink, Hen.
    assert (c ∈ filter (fun k => ClientPool.node_sfd k
                                   (ClientPool.with_keys (snd pass) q) ≠ 0)
                  (fst pass)) as Hcf.
    { apply list_elem_of_filter. split; [|done].
      change (ClientPool.node_sfd c q ≠ 0). by rewrite Hsfd. }
    apply list_elem_of_split in Hcf as (l1 & l2 & ->).
    rewrite fmap_app, fmap_cons.
    change (ClientPool.node_uuid c (ClientPool.with_keys (snd pass) q))
      with (ClientPool.node_uuid c q). rewrite Hu.
    by eexists _, _.
  - assert (c ∉ fst pass) as Hc'.
    { intros (t & Ht & Hbig)%Hout. rewrite Hentry in Ht. injection Ht as <-.
      rewrite Hdelta in Hbig. lia. }
    assert (ClientPool.node_sfd c
              (PoolOps.on_timeout (fst pass) (ClientPool.with_keys (snd pass) q))
            = fd) as Hstill by (by rewrite Hnin).
    split; [done|]. split.
    { rewrite Hk. cbn [ClientPool.with_keys ClientPool.timeout_keys_].
      rewrite Hkeep, Hentry, Hdelta.
      by destruct (Z.ltb_spec timeout_interval ((now_at c - now) / 1000000));
        [lia|]. }
    unfold PoolOps.bound_slots. apply list_elem_of_filter.
    split; [by rewrite Hstill|].
    destruct (same_shape_on_timeout (fst pass)
                (ClientPool.with_keys (snd pass) q)) as (Hlen & _).
    cbn [ClientPool.with_keys ClientPool.mem_pool_] in Hlen.
    apply elem_of_seq. lia.
Qed.

Lemma idle_connection_is_reaped_witness :
  PoolOps.reap false 100 (fun _ => 500000000)
    (snd (ClientPool.add_client true 399000000 5 Scenario.one_slot)) = None
  /\ exists r,
       PoolOps.reap true 100 (fun _ => 500000000)
         (snd (ClientPool.add_client true 399000000 5 Scenario.one_slot))
       = Some r
       /\ ClientPool.node_sfd 0 r = 0
       /\ ClientPool.timeout_keys_ r !! 0%nat = None.
Proof.
  pose proof (idle_connection_is_reaped Scenario.one_slot 0 []
                (AtomicStack.mkStackNode BasicClient.default 0 0 None)
                399000000 5 100 (fun _ => 500000000)) as H.
  destruct H as (Hdead & r & Hr & H1 & H2 & _).
  - apply (started_free Scenario.echo_sink (Scenario.raw_slab 1) 0). reflexivity.
  - reflexivity.
  - lia.
  - right. vm_compute. by intros ?%elem_of_nil.
  - lia.
  - vm_compute. reflexivity.
  - split; [exact Hdead|]. exists r. split; [exact Hr|].
    split; [exact H1|exact H2].
Defined.

(** ** The accept loop *)

Section AcceptLoop.
Import AtomicStack ClientPool PoolOps.

(** Session calls without [terminate] close nothing. *)
Lemma run_actions_quiet_closes c fd acts : forall p,
  ActTerminate ∉ acts ->
  count_close fd (syscalls (foldl (run_action c) p acts))
  = count_close fd (syscalls p).
Proof.
  induction acts as [|a acts IH]; intros p Hno; [done|]. cbn [foldl].
  apply not_elem_of_cons in Hno as [Ha Hno].
  rewrite IH by done. destruct a; cbn [run_action]; [done| |done].
  unfold rearm, sys. cbn [syscalls].
  rewrite count_close_snoc, decide_False by done. lia.
Qed.

(** An admission under a handler that never terminates the session. *)
Lemma add_client_quiet p c l node now fd :
  free_slots p (c :: l) -> mem_pool_ p !! c = Some node -> fd ≠ 0 ->
  (forall history, ActTerminate ∉ react (packet_sink_ p) history) ->
  let q := snd (add_client true now fd p) in
  free_slots q l
  /\ node_sfd c q = fd
  /\ (forall i, i ≠ c -> node_sfd i q = node_sfd i p)
  /\ (forall fd', count_close fd' (syscalls q) = count_close fd' (syscalls p))
  /\ timeout_keys_ q !! c = Some now
  /\ packet_sink_ q = packet_sink_ p.
Proof.
  intros Hfree Hc Hfd Hquiet.
  assert (clients_stack_ p = Some c) as Hhead.
  { destruct Hfree as (Hch & _). by inversion Hch. }
  rewrite (add_client_unfold p c node true now fd Hhead Hc). cbv zeta.
  cbn [fst snd].
  set (p3 := with_node c (set_sfd fd)
               (with_node c (set_value (BasicClient.construct fd))
                  (with_stack (mem_pool_ p, ptr_to_next node) p))).
  pose proof (admitted_cell p c node fd Hc) as Hc3. fold p3 in Hc3.
  pose proof (free_slots_admit p c l node fd Hfree Hc Hfd) as Hfree3.
  fold p3 in Hfree3.
  destruct (accepted_frame c p3) as (Hcb & Hk & Hs).
  assert (mem_pool_ (have_client_accepted c p3) = mem_pool_ p3
          /\ clients_stack_ (have_client_accepted c p3) = clients_stack_ p3
          /\ forall fd', count_close fd' (syscalls (have_client_accepted c p3))
                         = count_close fd' (syscalls p3))
    as (Hm4 & Hs4 & Hn4).
  { unfold have_client_accepted.
    destruct (enable_client_accepted _); [|done].
    unfold notify.
    pose proof (Hquiet (callbacks (record (CbAccepted (node_uuid c p3)) p3)))
      as Hno.
    destruct (run_actions_no_terminate c _
                (record (CbAccepted (node_uuid c p3)) p3) Hno)
      as [Hm Hst].
    split; [exact Hm|]. split; [exact Hst|]. intros fd'.
    exact (run_actions_quiet_closes c fd' _
             (record (CbAccepted (node_uuid c p3)) p3) Hno). }
  unfold free_slots, node_sfd, timer_set, sys, TimeoutTimer.set.
  cbn [mem_pool_ clients_stack_ with_keys timeout_keys_ packet_sink_ syscalls].
  rewrite Hm4, Hs4, Hc3, Hs.
  split; [exact Hfree3|]. split; [done|]. split; [|split; [|split; [|done]]].
  - intros i Hne. unfold p3, with_node, with_stack. cbn [mem_pool_ fst].
    by rewrite !list_lookup_alter_ne.
  - intros fd'. rewrite count_close_snoc, decide_False by done.
    rewrite Hn4. unfold p3, with_node, with_stack. cbn [syscalls]. lia.
  - apply lookup_insert_eq.
Qed.

(** What an accept loop meets on a backlog of [conns] connections: each is
    made non-blocking and its registration succeeds; then [accept]
    returns -1. *)
Lemma accept_loop_spec server servers last conns : forall p l,
  free_slots p l ->
  (forall history, ActTerminate ∉ react (packet_sink_ p) history) ->
  Forall (fun a => ServerPool.cfd a ≠ -1 /\ ServerPool.cfd a ≠ 0
                   /\ ServerPool.unblock_ret a = 0
                   /\ ServerPool.epoll_add_ok a = true) conns ->
  ServerPool.cfd last = -1 ->
  exists p',
    ServerPool.accept_loop (conns ++ [last]) server (ServerPool.mk servers p)
    = Some (ServerPool.mk servers p')
    /\ free_slots p' (drop (length conns) l)
    /\ packet_sink_ p' = packet_sink_ p
    /\ (forall fd, count_close fd (syscalls p') = count_close fd (syscalls p))
    /\ (forall i c a, l !! i = Some c -> conns !! i = Some a ->
          node_sfd c p' = ServerPool.cfd a
          /\ timeout_keys_ p' !! c = Some (ServerPool.now a))
    /\ (forall i, i ∉ take (length conns) l ->
          node_sfd i p' = node_sfd i p
          /\ timeout_keys_ p' !! i = timeout_keys_ p !! i).
Proof.
  induction conns as [|a conns IH]; intros p l Hfree Hquiet Hall Hlast.
  - cbn [app ServerPool.accept_loop]. rewrite Hlast. cbn [Z.eqb Pos.eqb].
    eexists. split; [reflexivity|].
    cbn [length drop take]. split; [exact Hfree|]. split; [done|].
    split; [|split; [done|done]].
    intros fd. unfold sys. cbn [syscalls].
    by rewrite count_close_other.
  - apply Forall_cons in Hall as [(Hne & Hnz & Hub & Hok) Hall].
    cbn [app ServerPool.accept_loop].
    rewrite (proj2 (Z.eqb_neq _ _) Hne), Hub, Hok. cbn [Z.eqb negb].
    unfold ServerPool.on_pool.
    cbn [ServerPool.servers_ ServerPool.client_pool_].
    set (p2 := sys (SysUnblock (ServerPool.cfd a))
                 (sys (SysAccept (ServerPool.sfd server) (ServerPool.cfd a)) p)).
    assert (forall fd, count_close fd (syscalls p2) = count_close fd (syscalls p))
      as Hn2.
    { intros fd. unfold p2, sys. cbn [syscalls].
      by rewrite !count_close_other. }
    destruct l as [|c l].
    + assert (clients_stack_ p2 = None) as Hempty.
      { destruct Hfree as (Hch & _). by inversion Hch. }
      rewrite (add_client_exhausted true (ServerPool.now a) (ServerPool.cfd a)
                 p2 Hempty). cbn [snd].
      destruct (IH p2 [] Hfree Hquiet Hall Hlast)
        as (p' & Hrun & Hfree' & Hsink & Hn & Hbound & Hrest).
      exists p'. split; [exact Hrun|]. rewrite drop_nil in *.
      split; [exact Hfree'|]. split; [exact Hsink|].
      split; [intros fd; by rewrite Hn|]. split; [done|].
      intros i _. apply Hrest. rewrite take_nil. apply not_elem_of_nil.
    + assert (exists node, mem_pool_ p !! c = Some node) as [node Hc].
      { destruct Hfree as (Hch & _). inversion Hch; subst. by eexists. }
      assert (NoDup (c :: l)) as Hnd by (by destruct Hfree as (_ & ? & _)).
      apply NoDup_cons in Hnd as [Hcl Hnd].
      destruct (add_client_quiet p2 c l node (ServerPool.now a)
                  (ServerPool.cfd a) Hfree Hc Hnz Hquiet)
        as (Hfree1 & Hsfd & Hother & Hn1 & Hkey & Hsink1).
      set (q := snd (add_client true (ServerPool.now a) (ServerPool.cfd a) p2))
        in *.
      assert (forall i, i ≠ c -> timeout_keys_ q !! i = timeout_keys_ p !! i)
        as Hkother.
      { intros i Hi. unfold q.
        rewrite (add_client_keys true (ServerPool.now a) (ServerPool.cfd a) p2).
        assert (clients_stack_ p2 = Some c) as Hhead.
        { change (clients_stack_ p = Some c).
          destruct Hfree as (Hch & _). by inversion Hch. }
        rewrite (add_client_unfold p2 c node true _ _ Hhead Hc). cbv zeta.
        cbn [fst]. unfold TimeoutTimer.set. by rewrite lookup_insert_ne. }
      destruct (IH q l Hfree1) as (p' & Hrun & Hfree' & Hsink & Hn & Hbound & Hrest);
        [by rewrite Hsink1|done|done|].
      exists p'. split; [exact Hrun|]. cbn [length drop].
      split; [exact Hfree'|]. split; [by rewrite Hsink, Hsink1|].
      split; [intros fd; by rewrite Hn, Hn1, Hn2|]. split.
      * intros [|i] c' a' Hl Ha; cbn in Hl, Ha.
        -- injection Hl as <-. injection Ha as <-.
           destruct (Hrest c) as [-> ->]; [|done].
           intros Hin%elem_of_take. destruct Hin as (j & Hj & _).
           apply Hcl. by eapply list_elem_of_lookup_2.
        -- by eapply Hbound.
      * intros i Hi. cbn [take] in Hi.
        apply not_elem_of_cons in Hi as [Hne' Hi].
        destruct (Hrest i Hi) as [-> ->].
        split; [by apply Hother|by apply Hkother].
Qed.
End AcceptLoop.

Section EchoSink.
Import ClientPool.

Lemma echo_sink_quiet history :
  ActTerminate ∉ react Scenario.echo_sink history.
Proof.
  cbn. destruct (last history) as [[| | | |]|];
    try apply not_elem_of_nil.
  intros Hin. apply elem_of_cons in Hin as [Hin|Hin]; [done|].
  apply elem_of_cons in Hin as [Hin|Hin]; [done|].
  by apply elem_of_nil in Hin.
Qed.
End EchoSink.

(** X20. The accept loop on a backlog.  A listener event other than a bare
    hangup or error meets [conns], connections that are all made
    non-blocking and registered, before [accept] returns -1; the handler
    never terminates a session it is handed.  Then the i-th connection is
    bound to the i-th slot of the free stack and armed in the timeout map,
    as long as there are slots; the free stack afterwards is the old one
    without its first [length conns] slots; every other slot is as before;
    and the loop closes no descriptor at all, also not those of the
    connections that found no free slot. *)
Theorem accept_loop_admits_in_stack_order (server : ServerPool.ServerSession)
    (servers : gmap Z ServerPool.ServerSession)
    (conns : list ServerPool.accepted) (last : ServerPool.accepted)
    (flags : Z) (p : ClientPool.t) (l : list nat) :
  PoolOps.free_slots p l ->
  (forall history,
     ClientPool.ActTerminate ∉
       ClientPool.react (ClientPool.packet_sink_ p) history) ->
  Forall (fun a => ServerPool.cfd a ≠ -1 /\ ServerPool.cfd a ≠ 0
                   /\ ServerPool.unblock_ret a = 0
                   /\ ServerPool.epoll_add_ok a = true) conns ->
  ServerPool.cfd last = -1 ->
  flags <> EPOLLHUP -> flags <> EPOLLERR ->
  exists p',
    ServerPool.trigger (conns ++ [last]) server flags (ServerPool.mk servers p)
    = Some (ServerPool.mk servers p')
    /\ PoolOps.free_slots p' (drop (length conns) l)
    /\ (forall i c a, l !! i = Some c -> conns !! i = Some a ->
          ClientPool.node_sfd c p' = ServerPool.cfd a
          /\ ClientPool.timeout_keys_ p' !! c = Some (ServerPool.now a))
    /\ (forall i, i ∉ take (length conns) l ->
          ClientPool.node_sfd i p' = ClientPool.node_sfd i p
          /\ ClientPool.timeout_keys_ p' !! i
             = ClientPool.timeout_keys_ p !! i)
    /\ (forall fd,
          PoolOps.count_close fd (ClientPool.syscalls p')
          = PoolOps.count_close fd (ClientPool.syscalls p)).
Proof.
  intros Hfree Hquiet Hall Hlast Hhup Herr.
  rewrite listener_trigger_other by done.
  destruct (accept_loop_spec server servers last conns p l Hfree Hquiet Hall
              Hlast) as (p' & Hrun & Hfree' & _ & Hn & Hbound & Hrest).
  exists p'. done.
Qed.

Lemma accept_loop_admits_in_stack_order_witness :
  exists p',
    ServerPool.trigger AcceptScenario.two_for_one Scenario.listener EPOLLIN
      (Scenario.serving Scenario.one_slot)
    = Some (Scenario.serving p')
    /\ PoolOps.free_slots p' []
    /\ ClientPool.node_sfd 0 p' = 5
    /\ PoolOps.count_close 6 (ClientPool.syscalls p') = 0%nat.
Proof.
  destruct (accept_loop_admits_in_stack_order Scenario.listener
              {[ 1 := Scenario.listener ]}
              [ServerPool.mkAccepted 5 0 true 1000;
               ServerPool.mkAccepted 6 0 true 2000]
              (ServerPool.mkAccepted (-1) 0 true 0) EPOLLIN
              Scenario.one_slot [0%nat])
    as (p' & Hrun & Hfree & Hbound & _ & Hn).
  - apply (started_free Scenario.echo_sink (Scenario.raw_slab 1) 0). reflexivity.
  - apply echo_sink_quiet.
  - repeat constructor; done.
  - reflexivity.
  - done.
  - done.
  - exists p'. split; [exact Hrun|]. split; [exact Hfree|].
    split; [|by rewrite Hn].
    exact (proj1 (Hbound 0%nat 0%nat (ServerPool.mkAccepted 5 0 true 1000)
                    eq_refl eq_refl)).
Defined.

(** ** Writing to a socket that makes progress *)

(** X21. When every [send] on a positive length takes at least one byte
    and at most what it was asked for, [write] hands the whole buffer to
    the socket and returns its size, however the bytes are split over the
    calls; a size of zero or less is answered with 0. *)
Theorem write_delivers_everything (send : nat -> Z -> Z) (size : Z) :
  (forall j len, 0 < len -> 0 < send j len <= len) ->
  ClientSession.write send size = Z.max 0 size.
Proof.
  intros Hsend. unfold ClientSession.write, BasicClient.write.
  destruct (decide (0 <= size)) as [Hsz|Hneg].
  - destruct (write_loop_exit send 0 size Hsz) as [Hge [H0 | [j Hj]]].
    + intros j len Hlen. by apply Hsend.
    + lia.
    + destruct (decide (0 < BasicClient.write_loop send 0 size)) as [Hpos|];
        [|lia].
      specialize (Hsend j _ Hpos). lia.
  - assert (BasicClient.write_loop send 0 size = size) as ->; [|lia].
    simp write_loop. destruct (decide (0 < size)); [lia|done].
Qed.

Lemma write_delivers_everything_witness :
  ClientSession.write WriteScenario.send_two_at_most 5 = Z.max 0 5.
Proof.
  apply (write_delivers_everything WriteScenario.send_two_at_most 5).
  intros j len Hlen. unfold WriteScenario.send_two_at_most. lia.
Defined.

(** ** Descriptor accounting *)

Section Accounting.
Import AtomicStack ClientPool PoolOps Descriptors.

Lemma filter_alter_count {A} (P : A -> Prop) `{!forall x, Decision (P x)}
    (f : A -> A) (l : list A) : forall c n,
  l !! c = Some n ->
  (length (filter P (alter f c l)) + (if decide (P n) then 1 else 0)
   = length (filter P l) + (if decide (P (f n)) then 1 else 0))%nat.
Proof.
  induction l as [|x l IH]; intros [|c] n Hc; cbn in Hc; [done|done| |].
  - injection Hc as ->. cbn [alter list_alter].
    rewrite !filter_cons.
    destruct (decide (P n)), (decide (P (f n))); cbn [length]; lia.
  - change (alter f (S c) (x :: l)) with (x :: alter f c l).
    rewrite !filter_cons. specialize (IH c n Hc).
    destruct (decide (P x)); cbn [length]; lia.
Qed.

Lemma filter_alter_keep {A} (P : A -> Prop) `{!forall x, Decision (P x)}
    (f : A -> A) (l : list A) c :
  (forall n, P (f n) <-> P n) ->
  length (filter P (alter f c l)) = length (filter P l).
Proof.
  intros Hf. destruct (l !! c) as [n|] eqn:Hc.
  - pose proof (filter_alter_count P f l c n Hc) as Hcount.
    destruct (decide (P n)) as [Hn|Hn], (decide (P (f n))) as [Hfn|Hfn];
      try lia; exfalso; [apply Hfn|apply Hn]; by apply Hf.
  - rewrite (list_alter_ext f id l l c); [by rewrite list_alter_id| |done].
    intros x Hx. by rewrite Hc in Hx.
Qed.

Lemma settles_refl p : settles p p.
Proof. by intros fd _. Qed.

Lemma settles_trans p q r : settles p q -> settles q r -> settles p r.
Proof. intros H1 H2 fd Hfd. by rewrite H2, H1. Qed.

Lemma settles_same p q :
  mem_pool_ q = mem_pool_ p -> syscalls q = syscalls p -> settles p q.
Proof. intros Hm Hs fd _. unfold accounted, bound_to. by rewrite Hm, Hs. Qed.

Lemma settles_sys call p :
  (forall fd, call ≠ SysClose fd) -> settles p (sys call p).
Proof.
  intros Hcall fd _. unfold accounted, bound_to, sys. cbn [syscalls mem_pool_].
  by rewrite count_close_other.
Qed.

Lemma settles_with_node c f p :
  (forall n, sfd (f n) = sfd n) -> settles p (with_node c f p).
Proof.
  intros Hf fd _. unfold accounted, bound_to, with_node.
  cbn [syscalls mem_pool_]. f_equal.
  apply filter_alter_keep. intros n. by rewrite Hf.
Qed.

Lemma settles_push c p : settles p (with_stack (push c (stack_of p)) p).
Proof.
  intros fd _. unfold accounted, bound_to, with_stack, push, stack_of.
  cbn [syscalls mem_pool_ fst snd]. f_equal.
  by apply filter_alter_keep.
Qed.

(** The descriptor of a bound slot is closed and the slot zeroed. *)
Lemma settles_release c p :
  node_sfd c p ≠ 0 ->
  settles p (with_node c (set_sfd 0)
               (sys (SysEpollDel (node_sfd c p))
                  (sys (SysClose (node_sfd c p)) p))).
Proof.
  intros Hb fd Hfd. unfold accounted, bound_to, with_node, sys.
  cbn [syscalls mem_pool_].
  unfold node_sfd in *. destruct (mem_pool_ p !! c) as [n|] eqn:Hc; [|done].
  pose proof (filter_alter_count (fun n => sfd n = fd) (set_sfd 0)
                (mem_pool_ p) c n Hc) as Hcount.
  cbn [set_sfd sfd] in Hcount.
  rewrite (decide_False (P := 0 = fd)) in Hcount by done.
  rewrite count_close_other by done. rewrite count_close_snoc.
  destruct (decide (sfd n = fd)) as [->|Hne].
  - rewrite decide_True by done. lia.
  - rewrite decide_False by congruence. lia.
Qed.

Lemma settles_terminate c p : settles p (terminate c p).
Proof.
  unfold terminate. destruct (Z.eqb_spec (node_sfd c p) 0) as [|Hb];
    [apply settles_refl|].
  eapply settles_trans; [by apply settles_release|apply settles_push].
Qed.

Lemma settles_run_actions c acts : forall p,
  settles p (foldl (run_action c) p acts).
Proof.
  induction acts as [|a acts IH]; intros p; [apply settles_refl|].
  cbn [foldl]. eapply settles_trans; [|apply IH].
  destruct a; [apply settles_refl|by apply settles_sys|apply settles_terminate].
Qed.

Lemma settles_notify c cb p : settles p (notify c cb p).
Proof.
  unfold notify. apply (settles_trans _ (record cb p));
    [by apply settles_same|apply settles_run_actions].
Qed.

Lemma settles_accepted c p : settles p (have_client_accepted c p).
Proof.
  unfold have_client_accepted.
  destruct (enable_client_accepted _); [apply settles_notify|apply settles_refl].
Qed.

Lemma settles_closed c p : settles p (have_client_closed c p).
Proof.
  unfold have_client_closed.
  destruct (enable_client_closed _); [apply settles_notify|apply settles_refl].
Qed.

Lemma settles_error c p : settles p (have_client_error c p).
Proof.
  unfold have_client_error.
  destruct (enable_client_error _); [apply settles_notify|apply settles_refl].
Qed.

Lemma settles_data c data size p :
  settles p (have_client_data_received c data size p).
Proof.
  unfold have_client_data_received.
  destruct (enable_client_data_received _);
    [apply settles_notify|apply settles_refl].
Qed.

Lemma settles_oob c oob p : settles p (have_client_oob_received c oob p).
Proof.
  unfold have_client_oob_received.
  destruct (enable_client_oob_received _);
    [apply settles_notify|apply settles_refl].
Qed.

Lemma settles_terminate_on_close c p : settles p (terminate_on_close c p).
Proof.
  unfold terminate_on_close. destruct (Z.eqb_spec (node_sfd c p) 0) as [|Hb];
    [apply settles_refl|].
  eapply settles_trans; [by apply settles_release|].
  eapply settles_trans; [apply settles_closed|apply settles_push].
Qed.

Lemma settles_terminate_on_error c p : settles p (terminate_on_error c p).
Proof.
  unfold terminate_on_error. destruct (Z.eqb_spec (node_sfd c p) 0) as [|Hb];
    [apply settles_refl|].
  eapply settles_trans; [by apply settles_release|].
  eapply settles_trans; [apply settles_error|apply settles_push].
Qed.

Lemma settles_client_read r c p : settles p (client_read r c p).
Proof. unfold client_read. by apply settles_with_node. Qed.

Lemma settles_read_ready c reads : forall p p',
  read_ready_triggered reads c p = Some p' -> settles p p'.
Proof.
  induction reads as [|r rest IH]; intros p p' Hrun; [done|].
  cbn [read_ready_triggered] in Hrun.
  pose proof (settles_client_read r c p) as Hread.
  destruct (_ && _); [by injection Hrun as <-|].
  destruct (_ =? -1);
    [injection Hrun as <-;
     eapply settles_trans; [exact Hread|apply settles_terminate_on_error]|].
  destruct (_ =? 0);
    [injection Hrun as <-;
     eapply settles_trans; [exact Hread|apply settles_terminate_on_close]|].
  eapply settles_trans; [exact Hread|].
  eapply settles_trans; [|by apply IH]. apply settles_data.
Qed.

Lemma settles_pri_read_ready c oobs : forall p p',
  pri_read_ready_triggered oobs c p = Some p' -> settles p p'.
Proof.
  induction oobs as [|r rest IH]; intros p p' Hrun; [done|].
  cbn [pri_read_ready_triggered] in Hrun.
  destruct (_ && _); [injection Hrun as <-; apply settles_refl|].
  destruct (_ =? -1);
    [injection Hrun as <-; apply settles_terminate_on_error|].
  destruct (_ =? 0); [injection Hrun as <-; apply settles_refl|].
  eapply settles_trans; [|by apply IH]. apply settles_oob.
Qed.

Lemma settles_timer_set c now p : settles p (timer_set c now p).
Proof. by apply settles_same. Qed.

Lemma settles_trigger env c flags p p' :
  trigger env c flags p = Some p' -> settles p p'.
Proof.
  unfold trigger. intros Hrun.
  destruct (has_flag flags EPOLLERR);
    [injection Hrun as <-; apply settles_terminate_on_error|].
  destruct (_ || _).
  { injection Hrun as <-.
    eapply settles_trans; [apply settles_closed|].
    apply settles_terminate_on_close. }
  destruct (has_flag flags EPOLLPRI).
  - destruct (pri_read_ready_triggered _ _ _) as [p1|] eqn:Hpri; [|done].
    apply settles_pri_read_ready in Hpri.
    assert (settles p p1) as H1
      by (eapply settles_trans; [apply settles_timer_set|exact Hpri]).
    destruct (has_flag flags EPOLLIN).
    + apply settles_read_ready in Hrun.
      eapply settles_trans; [exact H1|].
      eapply settles_trans; [apply settles_timer_set|exact Hrun].
    + by injection Hrun as <-.
  - destruct (has_flag flags EPOLLIN).
    + apply settles_read_ready in Hrun.
      eapply settles_trans; [apply settles_timer_set|exact Hrun].
    + injection Hrun as <-. apply settles_refl.
Qed.

Lemma settles_on_timeout l : forall p, settles p (on_timeout l p).
Proof.
  unfold on_timeout. induction l as [|c l IH]; intros p;
    [apply settles_refl|]. cbn [foldl].
  eapply settles_trans; [apply settles_terminate_on_close|apply IH].
Qed.

Lemma settles_reap live interval now_at p q :
  reap live interval now_at p = Some q -> settles p q.
Proof.
  unfold reap. destruct live; [|done]. cbv zeta. intros [= <-].
  destruct (TimeoutTimer.collect interval now_at
              (map_to_list (timeout_keys_ p))); [by apply settles_same|].
  eapply settles_trans; [|apply settles_on_timeout].
  by apply settles_same.
Qed.

(** An admission adds the descriptor to the account of the pool. *)
Lemma accounted_add_client ok now fd p l fd' :
  free_slots p l -> fd' ≠ 0 ->
  accounted fd' (snd (add_client ok now fd p))
  = (accounted fd' p + admitted fd' (OpAddClient ok now fd) p)%nat.
Proof.
  intros Hl Hfd'. unfold admitted.
  destruct (clients_stack_ p) as [c|] eqn:Hhead.
  2:{ rewrite add_client_exhausted by done. cbn [snd].
      rewrite (bool_decide_eq_false_2 (is_Some None)) by (by intros [? ?]).
      rewrite andb_false_r. lia. }
  rewrite (bool_decide_eq_true_2 (is_Some (Some c))) by (by eexists).
  rewrite andb_true_r.
  destruct Hl as (Hch & Hnd & Hiff). rewrite Hhead in Hch.
  inversion Hch as [|h node l' Hc Hrest]; subst.
  assert (sfd node = 0) as Hzero by (apply (Hiff c node Hc); by left).
  rewrite (add_client_unfold p c node ok now fd Hhead Hc). cbv zeta.
  set (p3 := with_node c (set_sfd fd)
               (with_node c (set_value (BasicClient.construct fd))
                  (with_stack (mem_pool_ p, ptr_to_next node) p))).
  assert (accounted fd' p3
          = (accounted fd' p + if bool_decide (fd = fd') then 1 else 0)%nat)
    as H3.
  { unfold accounted, bound_to, p3, with_node, with_stack.
    cbn [syscalls mem_pool_ fst]. rewrite list_alter_alter_eq.
    pose proof (filter_alter_count (fun n => sfd n = fd')
                  (set_sfd fd ∘ set_value (BasicClient.construct fd))
                  (mem_pool_ p) c node Hc) as Hcount.
    cbn [set_sfd set_value sfd compose] in Hcount.
    rewrite (decide_False (P := sfd node = fd')) in Hcount by congruence.
    destruct (decide (fd = fd')) as [Heq|Hne].
    - rewrite bool_decide_eq_true_2 by done. lia.
    - rewrite bool_decide_eq_false_2 by done. lia. }
  assert (settles p3 (snd (if ok
                           then (Some c,
                                 timer_set c now
                                   (sys (SysEpollAdd fd kFlags c)
                                      (have_client_accepted c p3)))
                           else (None,
                                 terminate c
                                   (sys (SysEpollAdd fd kFlags c)
                                      (have_client_accepted c p3))))))
    as Hrest'.
  { apply (settles_trans _ (have_client_accepted c p3));
      [apply settles_accepted|].
    apply (settles_trans _ (sys (SysEpollAdd fd kFlags c)
                              (have_client_accepted c p3)));
      [by apply settles_sys|].
    destruct ok; cbn [snd];
      [apply settles_timer_set|apply settles_terminate]. }
  rewrite (Hrest' fd' Hfd'). exact H3.
Qed.

Lemma accounted_pool_run ops : forall p p' l fd,
  free_slots p l -> Forall admits_nonzero ops ->
  pool_run ops p = Some p' -> fd ≠ 0 ->
  accounted fd p' = (accounted fd p + admitted_run fd ops p)%nat.
Proof.
  induction ops as [|op ops IH]; intros p p' l fd Hl Hall Hrun Hfd;
    cbn [pool_run admitted_run] in *.
  - injection Hrun as <-. lia.
  - apply Forall_cons in Hall as [Hop Hall].
    destruct (pool_step op p) as [q|] eqn:Hstep; [|done].
    assert (exists l', free_slots q l') as [l' Hl'].
    { assert (keeps_free p q) as Hkeep; [|by apply (Hkeep l)].
      apply (keeps_free_pool_run [op]); [by repeat constructor|].
      cbn [pool_run]. by rewrite Hstep. }
    rewrite (IH q p' l' fd Hl' Hall Hrun Hfd).
    assert (accounted fd q = (accounted fd p + admitted fd op p)%nat) as ->;
      [|lia].
    destruct op; cbn [pool_step] in Hstep.
    + injection Hstep as <-. by eapply accounted_add_client.
    + apply settles_trigger in Hstep. rewrite (Hstep fd Hfd).
      cbn [admitted]. lia.
    + injection Hstep as <-. cbn [admitted].
      assert (settles p (rearm c p)) as Hre by (by apply settles_sys).
      rewrite (Hre fd Hfd). lia.
    + injection Hstep as <-. rewrite (settles_terminate _ _ fd Hfd).
      cbn [admitted]. lia.
    + apply settles_reap in Hstep. rewrite (Hstep fd Hfd).
      cbn [admitted]. lia.
Qed.
End Accounting.

(** X22. Descriptor accounting.  From a pool whose free stack is well
    formed, along any sequence of [add_client] (on descriptors other than
    0), [trigger], [rearm], [terminate] and reaper turns, and for every
    descriptor other than 0: the number of times the pool has closed it
    plus the number of slots bound to it grows exactly by the number of
    times it was handed to a slot.  So every admitted descriptor is either
    still bound or has been closed exactly once, whichever of the
    terminate variants, the handlers or the reaper released it, and the
    pool closes no descriptor that is not bound. *)
Theorem pool_run_accounts_descriptors (ops : list PoolOps.pool_op)
    (p p' : ClientPool.t) (l : list nat) (fd : Z) :
  PoolOps.free_slots p l ->
  Forall PoolOps.admits_nonzero ops ->
  PoolOps.pool_run ops p = Some p' ->
  fd ≠ 0 ->
  (PoolOps.count_close fd (ClientPool.syscalls p') + Descriptors.bound_to fd p'
   = PoolOps.count_close fd (ClientPool.syscalls p) + Descriptors.bound_to fd p
     + Descriptors.admitted_run fd ops p)%nat.
Proof.
  intros Hl Hall Hrun Hfd.
  exact (accounted_pool_run ops p p' l fd Hl Hall Hrun Hfd).
Qed.

Lemma pool_run_accounts_descriptors_witness :
  exists p',
    PoolOps.pool_run Scenario2.busy_script Scenario2.three_slots = Some p'
    /\ (PoolOps.count_close 5 (ClientPool.syscalls p')
        + Descriptors.bound_to 5 p' = 1)%nat.
Proof.
  destruct (PoolOps.pool_run Scenario2.busy_script Scenario2.three_slots)
    as [p'|] eqn:Hrun; [|vm_compute in Hrun; discriminate Hrun].
  exists p'. split; [reflexivity|].
  rewrite (pool_run_accounts_descriptors Scenario2.busy_script
             Scenario2.three_slots p' (rev (seq 0 3)) 5).
  - vm_compute. reflexivity.
  - apply (started_free Scenario.echo_sink (Scenario.raw_slab 3) 2). reflexivity.
  - repeat constructor; cbn; lia.
  - exact Hrun.
  - lia.
Defined.
